(** * fsbuilder: the financial projection engine, embedded and verified

    Shallow embedding of the calculation services of the server
    ([services/calculations]: depreciation, financing, indicators,
    statements, sensitivity) and of the glue of the analysis route that
    feeds them.

    Conventions of the embedding.
    - A JavaScript [number] that holds an amount, a rate or a ratio is an
      exact rational of [Q]; equalities between such values are stated with
      [==].  Rounding, overflow and the non-finite doubles are outside this
      model: theorems speak about the arithmetic the code writes down.
    - A [number] that holds a year, a count of years or an index is an
      integer of [Z]; a [for] loop over years runs over the list of the
      integers it visits.
    - [Math.pow] is only modelled at an integral exponent ([Qpower]); the
      one call with a fractional exponent (in [calculateMIRR]) goes through
      a parameter.
    - Objects are records, string tags are strings, arrays are lists, and a
      [Map] that is iterated is an association list in insertion order. *)

From Stdlib Require Import ZArith QArith Qabs Qminmax Qpower.
From Stdlib Require Import List String Bool Lia Lqa.
From Stdlib Require Import Sorting.Sorted Sorting.Permutation.
Import ListNotations.

Open Scope Q_scope.

(** ** JavaScript primitives *)

Module Js.

(** [a < b], [a <= b], [a > b] and [a === b] on numbers. *)
Definition lt (a b : Q) : bool := negb (Qle_bool b a).
Definition le (a b : Q) : bool := Qle_bool a b.
Definition gt (a b : Q) : bool := lt b a.
Definition eq (a b : Q) : bool := Qeq_bool a b.

Definition Math_min (a b : Q) : Q := Qmin a b.
Definition Math_max (a b : Q) : Q := Qmax a b.
Definition Math_abs (a : Q) : Q := Qabs a.

(** [Math.pow(b, e)] at an integral exponent. *)
Definition Math_pow (b : Q) (e : Z) : Q := Qpower b e.

(** The integers visited by [for (let y = lo; y <= hi; y++)]. *)
Fixpoint upfrom (lo : Z) (n : nat) : list Z :=
  match n with
  | O => []
  | S n' => lo :: upfrom (lo + 1)%Z n'
  end.

Definition range (lo hi : Z) : list Z := upfrom lo (Z.to_nat (hi - lo + 1)).

(** [xs.reduce((sum, x) => sum + f(x), 0)]. *)
Definition sum_by {A : Type} (f : A -> Q) (xs : list A) : Q :=
  fold_left (fun sum x => sum + f x) xs 0.

(** [xs.reduce((acc, x, t) => f(acc, x, t), init)], the index counted from
    [t]. *)
Fixpoint reduce_from {A B : Type} (f : B -> A -> Z -> B) (xs : list A) (t : Z) (acc : B) : B :=
  match xs with
  | [] => acc
  | x :: rest => reduce_from f rest (t + 1)%Z (f acc x t)
  end.

Definition reduce {A B : Type} (f : B -> A -> Z -> B) (xs : list A) (init : B) : B :=
  reduce_from f xs 0%Z init.

(** [xs.slice(1)]. *)
Definition slice1 {A : Type} (xs : list A) : list A := tl xs.

(** [xs.sort((a, b) => cmp(a, b))].  The language requires the sort to be
    stable, so for a comparator that orders the elements its result is the
    one of any stable sort; insertion computes it: [x] goes in front of the
    first element it does not have to follow. *)
Fixpoint insertBy {A : Type} (cmp : A -> A -> Q) (x : A) (sorted : list A) : list A :=
  match sorted with
  | [] => [x]
  | y :: rest =>
      if le (cmp x y) 0 then x :: y :: rest
      else y :: insertBy cmp x rest
  end.

Definition sort {A : Type} (cmp : A -> A -> Q) (xs : list A) : list A :=
  fold_right (insertBy cmp) [] xs.

(** A [Map] with string keys, as the list of its entries in insertion
    order: [m.get(key)] and [m.set(key, v)].  Setting a key that is
    present keeps its place; a new key goes last. *)
Fixpoint mapGet {V : Type} (key : string) (m : list (string * V)) : option V :=
  match m with
  | [] => None
  | (k, v) :: rest => if String.eqb k key then Some v else mapGet key rest
  end.

Fixpoint mapSet {V : Type} (key : string) (v : V) (m : list (string * V))
    : list (string * V) :=
  match m with
  | [] => [(key, v)]
  | (k, v0) :: rest =>
      if String.eqb k key then (k, v) :: rest
      else (k, v0) :: mapSet key v rest
  end.

End Js.

(** ** services/calculations/depreciation.ts *)

Module Depreciation.

Inductive DepreciationMethod : Set :=
| straight_line
| declining_balance
| none.

Definition straightLineDepreciation (cost salvageValue : Q) (usefulLife : Z) : Q :=
  if (usefulLife <=? 0)%Z then 0
  else (cost - salvageValue) / inject_Z usefulLife.

(** The body of the loop [for (let y = 1; y < year; y++)]: [n] iterations
    are left, [bookValue] is the running book value; reaching the salvage
    value clamps and leaves the loop. *)
Fixpoint bookValueLoop (n : nat) (bookValue salvageValue depreciationRate : Q) : Q :=
  match n with
  | O => bookValue
  | S n' =>
      let depreciation := bookValue * depreciationRate in
      let bookValue' := bookValue - depreciation in
      if Js.le bookValue' salvageValue then salvageValue
      else bookValueLoop n' bookValue' salvageValue depreciationRate
  end.

Definition decliningBalanceDepreciation
    (cost salvageValue rate : Q) (year usefulLife : Z) : Q :=
  if (usefulLife <? year)%Z then 0
  else
    let depreciationRate := rate / 100 in
    let bookValue :=
      bookValueLoop (Z.to_nat (year - 1)) cost salvageValue depreciationRate in
    if Js.le bookValue salvageValue then 0
    else
      let depreciation := bookValue * depreciationRate in
      Js.Math_min depreciation (bookValue - salvageValue).

Definition calculateDepreciation
    (cost salvageValue : Q) (usefulLife : Z) (depreciationRate : Q)
    (method : DepreciationMethod) (year purchaseYear : Z) : Q :=
  let yearsSincePurchase := (year - purchaseYear)%Z in
  if ((yearsSincePurchase <? 0) || (usefulLife <=? yearsSincePurchase))%Z then 0
  else
    match method with
    | straight_line => straightLineDepreciation cost salvageValue usefulLife
    | declining_balance =>
        decliningBalanceDepreciation cost salvageValue depreciationRate
          (yearsSincePurchase + 1) usefulLife
    | none => 0
    end.

Definition calculateAccumulatedDepreciation
    (cost salvageValue : Q) (usefulLife : Z) (depreciationRate : Q)
    (method : DepreciationMethod) (currentYear purchaseYear : Z) : Q :=
  let accumulated :=
    fold_left
      (fun accumulated year =>
         accumulated
         + calculateDepreciation cost salvageValue usefulLife depreciationRate
             method year purchaseYear)
      (Js.range purchaseYear currentYear) 0 in
  Js.Math_min accumulated (cost - salvageValue).

End Depreciation.

(** ** services/calculations/financing.ts *)

Module Financing.

Record AmortizationSchedule : Type := mkAmortizationSchedule {
  year : Z;
  beginningBalance : Q;
  payment : Q;
  principal : Q;
  interest : Q;
  endingBalance : Q;
}.

(** The loop of [calculateAmortizationSchedule] over the years still to
    visit, [balance] being the balance carried into the first of them. *)
Fixpoint scheduleLoop
    (rate principalPayment : Q) (gracePeriod : Z)
    (years : list Z) (balance : Q) : list AmortizationSchedule :=
  match years with
  | [] => []
  | y :: rest =>
      let interestPayment := balance * rate in
      let principalPaid := if (gracePeriod <? y)%Z then principalPayment else 0 in
      let totalPayment := principalPaid + interestPayment in
      let endingBalance := balance - principalPaid in
      mkAmortizationSchedule y balance totalPayment principalPaid interestPayment
        (Js.Math_max 0 endingBalance)
      :: scheduleLoop rate principalPayment gracePeriod rest endingBalance
  end.

Definition calculateAmortizationSchedule
    (principal annualRate : Q) (termYears gracePeriod : Z)
    : list AmortizationSchedule :=
  let rate := annualRate / 100 in
  let principalPayment := principal / inject_Z (termYears - gracePeriod) in
  scheduleLoop rate principalPayment gracePeriod (Js.range 1 termYears) principal.

(** An element of the [financingItems] argument of [calculateDebtService]. *)
Record FinancingItem : Type := mkFinancingItem {
  type : string;
  amount : Q;
  interestRate : Q;
  termYears : Z;
  gracePeriod : Z;
  repaymentStartYear : Z;
}.

Record DebtService : Type := mkDebtService {
  ds_principal : Q;
  ds_interest : Q;
  ds_total : Q;
}.

Definition calculateDebtService (financingItems : list FinancingItem) (year : Z)
    : DebtService :=
  let step (acc : Q * Q) (item : FinancingItem) : Q * Q :=
    let '(totalPrincipal, totalInterest) := acc in
    if negb (String.eqb (type item) "loan") then acc
    else
      let schedule :=
        calculateAmortizationSchedule (amount item) (interestRate item)
          (termYears item) (gracePeriod item) in
      let yearIndex := (year - repaymentStartYear item)%Z in
      if ((0 <=? yearIndex) && (yearIndex <? Z.of_nat (List.length schedule)))%Z then
        match nth_error schedule (Z.to_nat yearIndex) with
        | Some row => (totalPrincipal + principal row, totalInterest + interest row)
        | None => acc
        end
      else acc in
  let '(totalPrincipal, totalInterest) := fold_left step financingItems (0, 0) in
  mkDebtService totalPrincipal totalInterest (totalPrincipal + totalInterest).

End Financing.

(** ** services/calculations/indicators.ts *)

Module Indicators.

Record FinancialIndicators : Type := mkFinancialIndicators {
  npv : Q;
  irr : Q;
  mirr : Q;
  paybackPeriod : Q;
  discountedPaybackPeriod : Q;
  roi : Q;
  benefitCostRatio : Q;
  breakEvenUnits : Q;
  breakEvenRevenue : Q;
}.

Definition calculateNPV (cashFlows : list Q) (discountRate : Q) : Q :=
  let rate := discountRate / 100 in
  Js.reduce (fun npv cf t => npv + cf / Js.Math_pow (1 + rate) t) cashFlows 0.

(** The inner loop of [calculateIRR]: the pair [(npv, npvDerivative)] at
    [rate]. *)
Definition irrSums (cashFlows : list Q) (rate : Q) : Q * Q :=
  Js.reduce
    (fun (acc : Q * Q) cf t =>
       let denominator := Js.Math_pow (1 + rate) t in
       let npv := fst acc + cf / denominator in
       let npvDerivative :=
         if (0 <? t)%Z
         then snd acc - (inject_Z t * cf) / Js.Math_pow (1 + rate) (t + 1)
         else snd acc in
       (npv, npvDerivative))
    cashFlows (0, 0).

Definition maxIterations : nat := 100.
Definition tolerance : Q := 0.0001.
Definition derivativeGuard : Q := 1e-10.

(** The outer loop of [calculateIRR] with [n] iterations left.  The three
    ways out are the [break] on a small derivative, the [return] on a small
    step, and the end of the loop; the first and the last both reach the
    final [return rate * 100]. *)
Fixpoint irrLoop (cashFlows : list Q) (n : nat) (rate : Q) : Q :=
  match n with
  | O => rate * 100
  | S n' =>
      let '(npv, npvDerivative) := irrSums cashFlows rate in
      if Js.lt (Js.Math_abs npvDerivative) derivativeGuard then rate * 100
      else
        let newRate := rate - npv / npvDerivative in
        if Js.lt (Js.Math_abs (newRate - rate)) tolerance then newRate * 100
        else irrLoop cashFlows n' newRate
  end.

Definition defaultGuess : Q := 0.1.

Definition calculateIRR (cashFlows : list Q) (guess : Q) : Q :=
  irrLoop cashFlows maxIterations guess.

(** The three ways out of the loop of [calculateIRR], and the quantities
    that decide between them at one rate. *)
Inductive IrrExit : Set :=
| SmallStep
| SmallDerivative
| Exhausted.

Definition newtonStep (cashFlows : list Q) (rate : Q) : Q :=
  rate - fst (irrSums cashFlows rate) / snd (irrSums cashFlows rate).

Definition derivativeCollapsed (cashFlows : list Q) (rate : Q) : bool :=
  Js.lt (Js.Math_abs (snd (irrSums cashFlows rate))) derivativeGuard.

Definition stepBelowTolerance (cashFlows : list Q) (rate : Q) : bool :=
  Js.lt (Js.Math_abs (newtonStep cashFlows rate - rate)) tolerance.

Fixpoint newtonIterate (cashFlows : list Q) (k : nat) (rate : Q) : Q :=
  match k with
  | O => rate
  | S k' => newtonIterate cashFlows k' (newtonStep cashFlows rate)
  end.

(** The way out [irrLoop] takes, by the same tests in the same order. *)
Fixpoint irrExit (cashFlows : list Q) (n : nat) (rate : Q) : IrrExit :=
  match n with
  | O => Exhausted
  | S n' =>
      if derivativeCollapsed cashFlows rate then SmallDerivative
      else if stepBelowTolerance cashFlows rate then SmallStep
      else irrExit cashFlows n' (newtonStep cashFlows rate)
  end.

(** The loop of [calculatePaybackPeriod] from index [t] on. *)
Fixpoint paybackFrom (cashFlows : list Q) (t : Z) (cumulative : Q) : Q :=
  match cashFlows with
  | [] => -1
  | cf :: rest =>
      let cumulative' := cumulative + cf in
      if Js.le 0 cumulative' then
        let prevCumulative := cumulative' - cf in
        if negb (Js.eq cf 0) then inject_Z t + (- prevCumulative / cf)
        else inject_Z t
      else paybackFrom rest (t + 1)%Z cumulative'
  end.

Definition calculatePaybackPeriod (cashFlows : list Q) : Q :=
  paybackFrom cashFlows 0%Z 0.

Fixpoint discountedPaybackFrom (rate : Q) (cashFlows : list Q) (t : Z) (cumulative : Q) : Q :=
  match cashFlows with
  | [] => -1
  | cf :: rest =>
      let discountedCF := cf / Js.Math_pow (1 + rate) t in
      let cumulative' := cumulative + discountedCF in
      if Js.le 0 cumulative' then
        let prevCumulative := cumulative' - discountedCF in
        if negb (Js.eq discountedCF 0) then inject_Z t + (- prevCumulative / discountedCF)
        else inject_Z t
      else discountedPaybackFrom rate rest (t + 1)%Z cumulative'
  end.

Definition calculateDiscountedPaybackPeriod (cashFlows : list Q) (discountRate : Q) : Q :=
  discountedPaybackFrom (discountRate / 100) cashFlows 0%Z 0.

Definition calculateROI (totalNetIncome totalInvestment : Q) : Q :=
  if Js.eq totalInvestment 0 then 0
  else (totalNetIncome / totalInvestment) * 100.

Definition calculateBenefitCostRatio (presentValueBenefits presentValueCosts : Q) : Q :=
  if Js.eq presentValueCosts 0 then 0
  else presentValueBenefits / Js.Math_abs presentValueCosts.

Definition calculateBreakEven (fixedCosts unitPrice variableCostPerUnit : Q) : Q * Q :=
  let contributionMargin := unitPrice - variableCostPerUnit in
  if Js.le contributionMargin 0 then (-1, -1)
  else
    let breakEvenUnits := fixedCosts / contributionMargin in
    let breakEvenRevenue := breakEvenUnits * unitPrice in
    (breakEvenUnits, breakEvenRevenue).

(** The two present values that [calculateAllIndicators] feeds to
    [calculateBenefitCostRatio].  The index [t] that [reduce] hands to the
    callback counts the elements that passed the [filter]. *)
Definition pvBenefits (cashFlows : list Q) (discountRate : Q) : Q :=
  Js.reduce
    (fun sum cf t => sum + cf / Js.Math_pow (1 + discountRate / 100) (t + 1))
    (filter (fun cf => Js.gt cf 0) (Js.slice1 cashFlows)) 0.

(** [cashFlows[0]] of an empty series is [undefined] and its absolute value
    a NaN; the model reads 0 there. *)
Definition pvCosts (cashFlows : list Q) (discountRate : Q) : Q :=
  Js.Math_abs (hd 0 cashFlows)
  + Js.reduce
      (fun sum cf t => sum + Js.Math_abs cf / Js.Math_pow (1 + discountRate / 100) (t + 1))
      (filter (fun cf => Js.lt cf 0) (Js.slice1 cashFlows)) 0.

Section WithRealPower.

(** [Math.pow(b, e)] at an exponent that need not be integral. *)
Variable pow_real : Q -> Q -> Q.

Definition calculateMIRR (cashFlows : list Q) (financeRate reinvestRate : Q) : Q :=
  let fRate := financeRate / 100 in
  let rRate := reinvestRate / 100 in
  let n := (Z.of_nat (List.length cashFlows) - 1)%Z in
  let pvNegative :=
    Js.reduce
      (fun pv cf t => if Js.lt cf 0 then pv + cf / Js.Math_pow (1 + fRate) t else pv)
      cashFlows 0 in
  let fvPositive :=
    Js.reduce
      (fun fv cf t => if Js.gt cf 0 then fv + cf * Js.Math_pow (1 + rRate) (n - t) else fv)
      cashFlows 0 in
  if Js.eq pvNegative 0 then 0
  else
    let mirr := pow_real (- fvPositive / pvNegative) (1 / inject_Z n) - 1 in
    mirr * 100.

Definition calculateAllIndicators
    (cashFlows : list Q) (discountRate totalInvestment totalNetIncome
     fixedCosts avgUnitPrice avgVariableCost : Q) : FinancialIndicators :=
  let npv := calculateNPV cashFlows discountRate in
  let irr := calculateIRR cashFlows defaultGuess in
  let mirr := calculateMIRR cashFlows discountRate discountRate in
  let paybackPeriod := calculatePaybackPeriod cashFlows in
  let discountedPaybackPeriod := calculateDiscountedPaybackPeriod cashFlows discountRate in
  let roi := calculateROI totalNetIncome totalInvestment in
  let benefitCostRatio :=
    calculateBenefitCostRatio
      (pvBenefits cashFlows discountRate) (pvCosts cashFlows discountRate) in
  let breakEven := calculateBreakEven fixedCosts avgUnitPrice avgVariableCost in
  mkFinancialIndicators npv irr mirr paybackPeriod discountedPaybackPeriod roi
    benefitCostRatio (fst breakEven) (snd breakEven).

End WithRealPower.

End Indicators.

(** ** services/calculations/statements.ts *)

Module ProjectData.
Record t : Type := mk {
  constructionYears : Z;
  operationYears : Z;
  discountRate : Q;
  inflationRate : Q;
  taxRate : Q;
}.
End ProjectData.

Module InvestmentData.
Record t : Type := mk {
  category : string;
  amount : Q;
  year : Z;
  usefulLife : Z;
  salvageValue : Q;
  depreciationMethod : Depreciation.DepreciationMethod;
  depreciationRate : Q;
}.
End InvestmentData.

Module ScheduleRow.
Record t : Type := mk {
  year : Z;
  quantity : Q;
}.
End ScheduleRow.

Module ProductData.
Record t : Type := mk {
  name : string;
  unitPrice : Q;
  priceEscalation : Q;
  productionSchedule : list ScheduleRow.t;
}.
End ProductData.

Module CostData.
Inductive CostType : Set := fixed | variable.
Record t : Type := mk {
  category : string;
  costType : CostType;
  amount : Q;
  unitCost : Q;
  escalationRate : Q;
  startYear : Z;
}.
End CostData.

Module FinancingData.
Record t : Type := mk {
  type : string;
  amount : Q;
  interestRate : Q;
  termYears : Z;
  gracePeriod : Z;
  disbursementYear : Z;
  repaymentStartYear : Z;
}.
End FinancingData.

Module CashFlowYear.
Record t : Type := mk {
  year : Z;
  operatingInflow : Q;
  operatingOutflow : Q;
  investingOutflow : Q;
  financingInflow : Q;
  financingOutflow : Q;
  netCashFlow : Q;
  cumulativeCashFlow : Q;
  discountedCashFlow : Q;
}.
End CashFlowYear.

Module IncomeStatementYear.
Record t : Type := mk {
  year : Z;
  revenue : Q;
  costOfGoodsSold : Q;
  grossProfit : Q;
  operatingExpenses : Q;
  depreciation : Q;
  operatingIncome : Q;
  interestExpense : Q;
  taxableIncome : Q;
  taxes : Q;
  netIncome : Q;
}.
End IncomeStatementYear.

Module BalanceSheetYear.
Record t : Type := mk {
  year : Z;
  cash : Q;
  receivables : Q;
  inventory : Q;
  currentAssets : Q;
  fixedAssets : Q;
  accumulatedDepreciation : Q;
  netFixedAssets : Q;
  totalAssets : Q;
  payables : Q;
  currentLiabilities : Q;
  longTermDebt : Q;
  totalLiabilities : Q;
  shareCapital : Q;
  retainedEarnings : Q;
  totalEquity : Q;
}.
End BalanceSheetYear.

Module Statements.

(** [inv.category !== 'land' && inv.category !== 'working_capital']. *)
Definition depreciable (inv : InvestmentData.t) : bool :=
  negb (String.eqb (InvestmentData.category inv) "land")
  && negb (String.eqb (InvestmentData.category inv) "working_capital").

(** The revenue loop over the products, for one operating year. *)
Definition revenueOf (products : list ProductData.t) (operatingYear : Z) : Q :=
  fold_left
    (fun revenue product =>
       match
         find (fun s => (ScheduleRow.year s =? operatingYear)%Z)
           (ProductData.productionSchedule product)
       with
       | Some schedule =>
           let escalatedPrice :=
             ProductData.unitPrice product
             * Js.Math_pow (1 + ProductData.priceEscalation product / 100)
                 (operatingYear - 1) in
           revenue + ScheduleRow.quantity schedule * escalatedPrice
       | None => revenue
       end)
    products 0.

Definition escalatedAmount (cost : CostData.t) (operatingYear : Z) : Q :=
  let yearsSinceStart := (operatingYear - CostData.startYear cost)%Z in
  CostData.amount cost
  * Js.Math_pow (1 + CostData.escalationRate cost / 100) yearsSinceStart.

(** The cost loop of [generateCashFlows], for one operating year. *)
Definition operatingCostsOf (costs : list CostData.t) (operatingYear : Z) : Q :=
  fold_left
    (fun operatingCosts cost =>
       if (CostData.startYear cost <=? operatingYear)%Z
       then operatingCosts + escalatedAmount cost operatingYear
       else operatingCosts)
    costs 0.

(** The cost loop of [generateIncomeStatements]: the pair
    [(cogs, operatingExpenses)]. *)
Definition splitCostsOf (costs : list CostData.t) (operatingYear : Z) : Q * Q :=
  fold_left
    (fun (acc : Q * Q) cost =>
       if (CostData.startYear cost <=? operatingYear)%Z then
         match CostData.costType cost with
         | CostData.variable => (fst acc + escalatedAmount cost operatingYear, snd acc)
         | CostData.fixed => (fst acc, snd acc + escalatedAmount cost operatingYear)
         end
       else acc)
    costs (0, 0).

(** The depreciation loop over the investments, for one year. *)
Definition depreciationOf (investments : list InvestmentData.t) (year : Z) : Q :=
  fold_left
    (fun depreciation inv =>
       if depreciable inv then
         depreciation
         + Depreciation.calculateDepreciation
             (InvestmentData.amount inv) (InvestmentData.salvageValue inv)
             (InvestmentData.usefulLife inv) (InvestmentData.depreciationRate inv)
             (InvestmentData.depreciationMethod inv) year (InvestmentData.year inv)
       else depreciation)
    investments 0.

(** [financing.map(f => ({ type: f.type, ... }))]. *)
Definition financingItems (financing : list FinancingData.t) : list Financing.FinancingItem :=
  map
    (fun f =>
       Financing.mkFinancingItem (FinancingData.type f) (FinancingData.amount f)
         (FinancingData.interestRate f) (FinancingData.termYears f)
         (FinancingData.gracePeriod f) (FinancingData.repaymentStartYear f))
    financing.

(** One pass of the loop of [generateCashFlows]; [cumulativeCashFlow] is
    the running total before the year. *)
Definition cashFlowOfYear
    (project : ProjectData.t) (investments : list InvestmentData.t)
    (products : list ProductData.t) (costs : list CostData.t)
    (financing : list FinancingData.t) (cumulativeCashFlow : Q) (year : Z)
    : CashFlowYear.t :=
  let operatingYear := (year - ProjectData.constructionYears project)%Z in
  let revenue :=
    if (ProjectData.constructionYears project <? year)%Z
    then revenueOf products operatingYear else 0 in
  let operatingCosts :=
    if (ProjectData.constructionYears project <? year)%Z
    then operatingCostsOf costs operatingYear else 0 in
  let yearInvestments :=
    Js.sum_by InvestmentData.amount
      (filter (fun inv => (InvestmentData.year inv =? year)%Z) investments) in
  let financingInflows :=
    Js.sum_by FinancingData.amount
      (filter (fun f => (FinancingData.disbursementYear f =? year)%Z) financing) in
  let debtService := Financing.calculateDebtService (financingItems financing) year in
  let depreciation := depreciationOf investments year in
  let taxableIncome :=
    revenue - operatingCosts - depreciation - Financing.ds_interest debtService in
  let taxes :=
    if Js.gt taxableIncome 0
    then taxableIncome * (ProjectData.taxRate project / 100) else 0 in
  let operatingInflow := revenue in
  let operatingOutflow := operatingCosts + taxes in
  let investingOutflow := yearInvestments in
  let financingInflow := financingInflows in
  let financingOutflow :=
    Financing.ds_principal debtService + Financing.ds_interest debtService in
  let netCashFlow :=
    operatingInflow - operatingOutflow - investingOutflow
    + financingInflow - financingOutflow in
  let cumulativeCashFlow' := cumulativeCashFlow + netCashFlow in
  let discountFactor := Js.Math_pow (1 + ProjectData.discountRate project / 100) year in
  let discountedCashFlow := netCashFlow / discountFactor in
  CashFlowYear.mk year operatingInflow operatingOutflow investingOutflow
    financingInflow financingOutflow netCashFlow cumulativeCashFlow'
    discountedCashFlow.

Fixpoint cashFlowLoop
    (project : ProjectData.t) (investments : list InvestmentData.t)
    (products : list ProductData.t) (costs : list CostData.t)
    (financing : list FinancingData.t) (years : list Z) (cumulativeCashFlow : Q)
    : list CashFlowYear.t :=
  match years with
  | [] => []
  | year :: rest =>
      let row :=
        cashFlowOfYear project investments products costs financing
          cumulativeCashFlow year in
      row
      :: cashFlowLoop project investments products costs financing rest
           (CashFlowYear.cumulativeCashFlow row)
  end.

Definition generateCashFlows
    (project : ProjectData.t) (investments : list InvestmentData.t)
    (products : list ProductData.t) (costs : list CostData.t)
    (financing : list FinancingData.t) : list CashFlowYear.t :=
  let totalYears :=
    (ProjectData.constructionYears project + ProjectData.operationYears project)%Z in
  cashFlowLoop project investments products costs financing (Js.range 0 totalYears) 0.

(** One pass of the loop of [generateIncomeStatements]. *)
Definition incomeStatementOfYear
    (project : ProjectData.t) (investments : list InvestmentData.t)
    (products : list ProductData.t) (costs : list CostData.t)
    (financing : list FinancingData.t) (year : Z) : IncomeStatementYear.t :=
  if (year <=? ProjectData.constructionYears project)%Z then
    IncomeStatementYear.mk year 0 0 0 0 0 0 0 0 0 0
  else
    let operatingYear := (year - ProjectData.constructionYears project)%Z in
    let revenue := revenueOf products operatingYear in
    let '(cogs, operatingExpenses) := splitCostsOf costs operatingYear in
    let depreciation := depreciationOf investments year in
    let grossProfit := revenue - cogs in
    let operatingIncome := grossProfit - operatingExpenses - depreciation in
    let debtService := Financing.calculateDebtService (financingItems financing) year in
    let interestExpense := Financing.ds_interest debtService in
    let taxableIncome := operatingIncome - interestExpense in
    let taxes :=
      if Js.gt taxableIncome 0
      then taxableIncome * (ProjectData.taxRate project / 100) else 0 in
    let netIncome := taxableIncome - taxes in
    IncomeStatementYear.mk year revenue cogs grossProfit operatingExpenses
      depreciation operatingIncome interestExpense taxableIncome taxes netIncome.

Definition generateIncomeStatements
    (project : ProjectData.t) (investments : list InvestmentData.t)
    (products : list ProductData.t) (costs : list CostData.t)
    (financing : list FinancingData.t) : list IncomeStatementYear.t :=
  let totalYears :=
    (ProjectData.constructionYears project + ProjectData.operationYears project)%Z in
  map (incomeStatementOfYear project investments products costs financing)
    (Js.range 1 totalYears).

(** The accumulated-depreciation loop of [generateBalanceSheets]. *)
Definition accumulatedDepreciationOf (investments : list InvestmentData.t) (year : Z) : Q :=
  fold_left
    (fun accumulatedDepreciation inv =>
       if (InvestmentData.year inv <=? year)%Z && depreciable inv then
         accumulatedDepreciation
         + Depreciation.calculateAccumulatedDepreciation
             (InvestmentData.amount inv) (InvestmentData.salvageValue inv)
             (InvestmentData.usefulLife inv) (InvestmentData.depreciationRate inv)
             (InvestmentData.depreciationMethod inv) year (InvestmentData.year inv)
       else accumulatedDepreciation)
    investments 0.

(** The long-term-debt loop of [generateBalanceSheets]. *)
Definition longTermDebtOf (financing : list FinancingData.t) (year : Z) : Q :=
  fold_left
    (fun longTermDebt f =>
       if String.eqb (FinancingData.type f) "loan" then
         let yearsSinceStart := (year - FinancingData.repaymentStartYear f)%Z in
         if (yearsSinceStart <? 0)%Z then longTermDebt + FinancingData.amount f
         else if (yearsSinceStart <? FinancingData.termYears f)%Z then
           let principalPayment :=
             FinancingData.amount f
             / inject_Z (FinancingData.termYears f - FinancingData.gracePeriod f) in
           let principalPaid :=
             inject_Z (Z.max 0 (yearsSinceStart - FinancingData.gracePeriod f))
             * principalPayment in
           longTermDebt + Js.Math_max 0 (FinancingData.amount f - principalPaid)
         else longTermDebt
       else longTermDebt)
    financing 0.

(** One pass of the loop of [generateBalanceSheets]: from the
    [retainedEarnings] and [cash] carried into the year to the row of the
    year.  The row holds the updated [retainedEarnings] and [cash], which
    the loop carries on. *)
Definition balanceSheetOfYear
    (investments : list InvestmentData.t) (financing : list FinancingData.t)
    (incomeStatements : list IncomeStatementYear.t)
    (retainedEarnings cash : Q) (year : Z) : BalanceSheetYear.t :=
  let fixedAssets :=
    Js.sum_by InvestmentData.amount
      (filter
         (fun inv =>
            (InvestmentData.year inv <=? year)%Z
            && negb (String.eqb (InvestmentData.category inv) "working_capital"))
         investments) in
  let accumulatedDepreciation := accumulatedDepreciationOf investments year in
  let netFixedAssets := fixedAssets - accumulatedDepreciation in
  let workingCapital :=
    Js.sum_by InvestmentData.amount
      (filter
         (fun inv =>
            (InvestmentData.year inv <=? year)%Z
            && String.eqb (InvestmentData.category inv) "working_capital")
         investments) in
  let receivables := 0 in
  let inventory := workingCapital * 0.6 in
  let currentAssets := cash + receivables + inventory in
  let totalAssets := currentAssets + netFixedAssets in
  let payables := 0 in
  let currentLiabilities := payables in
  let longTermDebt := longTermDebtOf financing year in
  let totalLiabilities := currentLiabilities + longTermDebt in
  let shareCapital :=
    Js.sum_by FinancingData.amount
      (filter
         (fun f =>
            String.eqb (FinancingData.type f) "equity"
            && (FinancingData.disbursementYear f <=? year)%Z)
         financing) in
  let retainedEarnings' :=
    match find (fun stmt => (IncomeStatementYear.year stmt =? year)%Z) incomeStatements with
    | Some yearIncome => retainedEarnings + IncomeStatementYear.netIncome yearIncome
    | None => retainedEarnings
    end in
  let totalEquity := shareCapital + retainedEarnings' in
  let cash0 := totalAssets - netFixedAssets - receivables - inventory in
  let cash' := if Js.lt cash0 0 then 0 else cash0 in
  BalanceSheetYear.mk year cash' receivables inventory
    (cash' + receivables + inventory) fixedAssets accumulatedDepreciation
    netFixedAssets ((cash' + receivables + inventory) + netFixedAssets)
    payables currentLiabilities longTermDebt totalLiabilities shareCapital
    retainedEarnings' totalEquity.

Fixpoint balanceSheetLoop
    (investments : list InvestmentData.t) (financing : list FinancingData.t)
    (incomeStatements : list IncomeStatementYear.t)
    (years : list Z) (retainedEarnings cash : Q) : list BalanceSheetYear.t :=
  match years with
  | [] => []
  | year :: rest =>
      let row :=
        balanceSheetOfYear investments financing incomeStatements
          retainedEarnings cash year in
      row
      :: balanceSheetLoop investments financing incomeStatements rest
           (BalanceSheetYear.retainedEarnings row) (BalanceSheetYear.cash row)
  end.

Definition generateBalanceSheets
    (project : ProjectData.t) (investments : list InvestmentData.t)
    (products : list ProductData.t) (costs : list CostData.t)
    (financing : list FinancingData.t)
    (incomeStatements : list IncomeStatementYear.t) : list BalanceSheetYear.t :=
  let totalYears :=
    (ProjectData.constructionYears project + ProjectData.operationYears project)%Z in
  balanceSheetLoop investments financing incomeStatements (Js.range 0 totalYears) 0 0.

End Statements.

(** ** services/calculations/sensitivity.ts *)

Module SensitivityResult.
Record t : Type := mk {
  variable : string;
  variation : Q;
  npv : Q;
  irr : Q;
}.
End SensitivityResult.

Module TornadoRow.
Record t : Type := mk {
  variable : string;
  lowNPV : Q;
  baseNPV : Q;
  highNPV : Q;
  impact : Q;
}.
End TornadoRow.

Module ProjectInputs.
Record t : Type := mk {
  revenue : list Q;
  operatingCosts : list Q;
  investmentCost : Q;
  discountRate : Q;
  cashFlows : list Q;
}.
End ProjectInputs.

Module SensitivityConfig.
(** [variations] is [None] when the field is absent. *)
Record t : Type := mk {
  variables : list string;
  variations : option (list Q);
}.
End SensitivityConfig.

Module Sensitivity.

Definition defaultVariations : list Q := [-20; -10; -5; 0; 5; 10; 20].

Definition applyVariation (inputs : ProjectInputs.t) (variable : string) (variation : Q)
    : ProjectInputs.t :=
  let factor := 1 + variation / 100 in
  if String.eqb variable "revenue" || String.eqb variable "price"
     || String.eqb variable "sales" then
    ProjectInputs.mk
      (map (fun r => r * factor) (ProjectInputs.revenue inputs))
      (ProjectInputs.operatingCosts inputs) (ProjectInputs.investmentCost inputs)
      (ProjectInputs.discountRate inputs) (ProjectInputs.cashFlows inputs)
  else if String.eqb variable "operatingCosts" || String.eqb variable "costs" then
    ProjectInputs.mk
      (ProjectInputs.revenue inputs)
      (map (fun c => c * factor) (ProjectInputs.operatingCosts inputs))
      (ProjectInputs.investmentCost inputs)
      (ProjectInputs.discountRate inputs) (ProjectInputs.cashFlows inputs)
  else if String.eqb variable "investment" || String.eqb variable "investmentCost" then
    ProjectInputs.mk
      (ProjectInputs.revenue inputs) (ProjectInputs.operatingCosts inputs)
      (ProjectInputs.investmentCost inputs * factor)
      (ProjectInputs.discountRate inputs) (ProjectInputs.cashFlows inputs)
  else if String.eqb variable "discountRate" then
    ProjectInputs.mk
      (ProjectInputs.revenue inputs) (ProjectInputs.operatingCosts inputs)
      (ProjectInputs.investmentCost inputs)
      (ProjectInputs.discountRate inputs * factor) (ProjectInputs.cashFlows inputs)
  else inputs.

(** The loop of [recalculateCashFlows]: [revenue[i] - operatingCosts[i]]
    for every index of [revenue].  The two arrays have the same length at
    every call of the repository; past the end of [operatingCosts] the
    model reads 0. *)
Fixpoint netFlows (revenue operatingCosts : list Q) : list Q :=
  match revenue with
  | [] => []
  | r :: rest => (r - hd 0 operatingCosts) :: netFlows rest (tl operatingCosts)
  end.

Definition recalculateCashFlows (inputs : ProjectInputs.t) : list Q :=
  (- ProjectInputs.investmentCost inputs)
  :: netFlows (ProjectInputs.revenue inputs) (ProjectInputs.operatingCosts inputs).

Definition sensitivityOf (baseInputs : ProjectInputs.t) (variable : string) (variation : Q)
    : SensitivityResult.t :=
  let modifiedInputs := applyVariation baseInputs variable variation in
  let modifiedCashFlows := recalculateCashFlows modifiedInputs in
  let npv :=
    Indicators.calculateNPV modifiedCashFlows (ProjectInputs.discountRate modifiedInputs) in
  let irr := Indicators.calculateIRR modifiedCashFlows Indicators.defaultGuess in
  SensitivityResult.mk variable variation npv irr.

Definition calculateSensitivity (baseInputs : ProjectInputs.t) (config : SensitivityConfig.t)
    : list SensitivityResult.t :=
  let variations :=
    match SensitivityConfig.variations config with
    | Some vs => vs
    | None => defaultVariations
    end in
  flat_map
    (fun variable => map (fun variation => sensitivityOf baseInputs variable variation) variations)
    (SensitivityConfig.variables config).

(** The body of the grouping loop: [grouped.get(result.variable) || []],
    [existing.push(result)], [grouped.set(result.variable, existing)]. *)
Definition existingAt (key : string) (grouped : list (string * list SensitivityResult.t))
    : list SensitivityResult.t :=
  match Js.mapGet key grouped with
  | Some existing => existing
  | None => []
  end.

Definition groupInsert (result : SensitivityResult.t)
    (grouped : list (string * list SensitivityResult.t))
    : list (string * list SensitivityResult.t) :=
  let existing := existingAt (SensitivityResult.variable result) grouped in
  Js.mapSet (SensitivityResult.variable result) (existing ++ [result]) grouped.

Definition groupByVariable (sensitivityResults : list SensitivityResult.t)
    : list (string * list SensitivityResult.t) :=
  fold_left (fun grouped result => groupInsert result grouped) sensitivityResults [].

(** The callback of [grouped.forEach]: the rows it pushes. *)
Definition tornadoRowOf (variable : string) (results : list SensitivityResult.t)
    : list TornadoRow.t :=
  let sorted :=
    Js.sort (fun a b => SensitivityResult.variation a - SensitivityResult.variation b)
      results in
  let baseResult := find (fun r => Js.eq (SensitivityResult.variation r) 0) sorted in
  let lowResult := nth_error sorted 0 in
  let highResult := nth_error sorted (List.length sorted - 1) in
  match baseResult, lowResult, highResult with
  | Some baseResult, Some lowResult, Some highResult =>
      let impact :=
        Js.Math_abs (SensitivityResult.npv highResult - SensitivityResult.npv lowResult) in
      [TornadoRow.mk variable (SensitivityResult.npv lowResult)
         (SensitivityResult.npv baseResult) (SensitivityResult.npv highResult) impact]
  | _, _, _ => []
  end.

Definition generateTornadoData (sensitivityResults : list SensitivityResult.t)
    : list TornadoRow.t :=
  let grouped := groupByVariable sensitivityResults in
  let tornadoData := flat_map (fun g => tornadoRowOf (fst g) (snd g)) grouped in
  Js.sort (fun a b => TornadoRow.impact b - TornadoRow.impact a) tornadoData.

End Sensitivity.

(** ** routes/analysis.ts *)

Module ProjectModel.
(** The project record the route loads, with the collections it includes. *)
Record t : Type := mk {
  project : ProjectData.t;
  investments : list InvestmentData.t;
  products : list ProductData.t;
  operatingCosts : list CostData.t;
  financing : list FinancingData.t;
}.
End ProjectModel.

Module Analysis.

Definition cashFlowsOf (p : ProjectModel.t) : list CashFlowYear.t :=
  Statements.generateCashFlows (ProjectModel.project p) (ProjectModel.investments p)
    (ProjectModel.products p) (ProjectModel.operatingCosts p) (ProjectModel.financing p).

Definition incomeStatementsOf (p : ProjectModel.t) : list IncomeStatementYear.t :=
  Statements.generateIncomeStatements (ProjectModel.project p)
    (ProjectModel.investments p) (ProjectModel.products p)
    (ProjectModel.operatingCosts p) (ProjectModel.financing p).

(** The handler of [GET /balance-sheet]. *)
Definition balanceSheetsOf (p : ProjectModel.t) : list BalanceSheetYear.t :=
  Statements.generateBalanceSheets (ProjectModel.project p) (ProjectModel.investments p)
    (ProjectModel.products p) (ProjectModel.operatingCosts p) (ProjectModel.financing p)
    (incomeStatementsOf p).

(** The net cash flows the handler of [GET /indicators] extracts. *)
Definition netCashFlowsOf (p : ProjectModel.t) : list Q :=
  map CashFlowYear.netCashFlow (cashFlowsOf p).

(** The inputs the handler of [POST /sensitivity] extracts. *)
Definition sensitivityInputs (p : ProjectModel.t) : ProjectInputs.t :=
  let cashFlows := cashFlowsOf p in
  let revenue := map CashFlowYear.operatingInflow (Js.slice1 cashFlows) in
  let operatingCosts := map CashFlowYear.operatingOutflow (Js.slice1 cashFlows) in
  let investmentCost := Js.sum_by InvestmentData.amount (ProjectModel.investments p) in
  ProjectInputs.mk revenue operatingCosts investmentCost
    (ProjectData.discountRate (ProjectModel.project p))
    (map CashFlowYear.netCashFlow cashFlows).

Definition sensitivityVariations : list Q := [-20; -15; -10; -5; 0; 5; 10; 15; 20].

(** The handler of [POST /sensitivity]: the results and the tornado rows. *)
Definition sensitivity (p : ProjectModel.t) (variables : list string)
    : list SensitivityResult.t * list TornadoRow.t :=
  let sensitivityResults :=
    Sensitivity.calculateSensitivity (sensitivityInputs p)
      (SensitivityConfig.mk variables (Some sensitivityVariations)) in
  (sensitivityResults, Sensitivity.generateTornadoData sensitivityResults).

End Analysis.

(** ** The statements of the specification *)

Module Spec.

(** Section 8, invariant 1: the accounting identity of one balance-sheet
    row. *)
Definition balanced (row : BalanceSheetYear.t) : Prop :=
  Qabs
    (BalanceSheetYear.totalAssets row
     - (BalanceSheetYear.totalLiabilities row + BalanceSheetYear.totalEquity row))
  < 1e-6 * Qmax 1 (BalanceSheetYear.totalAssets row).

(** Section 4.5, BCR, in the words of the specification: the present value
    of the positive flows after year 0, over the absolute value of the
    flow of year 0 plus the present value of the negative flows after
    year 0; every flow is discounted at its own year. *)
Definition presentValueOf (select : Q -> bool) (discountRate : Q) (cashFlows : list Q) : Q :=
  Js.reduce_from
    (fun sum cf t =>
       if select cf then sum + Qabs cf / Qpower (1 + discountRate / 100) t else sum)
    (tl cashFlows) 1%Z 0.

Definition benefitCostRatio (cashFlows : list Q) (discountRate : Q) : Q :=
  let benefits := presentValueOf (fun cf => Js.gt cf 0) discountRate cashFlows in
  let costs :=
    Qabs (hd 0 cashFlows) + presentValueOf (fun cf => Js.lt cf 0) discountRate cashFlows in
  if Qeq_bool costs 0 then 0 else benefits / costs.

(** Section 4.7, tornado output, in the words of the specification: one
    row per variable, [lowNPV] and [highNPV] the least and the greatest NPV
    among the results of the variable, [impact] their distance, the rows
    in descending order of [impact]. *)
Definition resultsOf (variable : string) (results : list SensitivityResult.t)
    : list SensitivityResult.t :=
  filter (fun r => String.eqb (SensitivityResult.variable r) variable) results.

Definition least (v : Q) (xs : list Q) : Prop :=
  (exists x, In x xs /\ x == v) /\ (forall x, In x xs -> v <= x).

Definition greatest (v : Q) (xs : list Q) : Prop :=
  (exists x, In x xs /\ x == v) /\ (forall x, In x xs -> x <= v).

Definition tornadoOf (results : list SensitivityResult.t) (rows : list TornadoRow.t) : Prop :=
  NoDup (map TornadoRow.variable rows)
  /\ (forall v, In v (map TornadoRow.variable rows)
                <-> In v (map SensitivityResult.variable results))
  /\ Forall
       (fun row =>
          let npvs :=
            map SensitivityResult.npv (resultsOf (TornadoRow.variable row) results) in
          least (TornadoRow.lowNPV row) npvs
          /\ greatest (TornadoRow.highNPV row) npvs
          /\ TornadoRow.impact row
             == Qabs (TornadoRow.highNPV row - TornadoRow.lowNPV row))
       rows
  /\ StronglySorted (fun a b => TornadoRow.impact b <= TornadoRow.impact a) rows.

(** Modelled from the spec: the adjustment layer (component C6, section
    4.6) lives in the scenario route of the repository, which is not among
    the sources at hand.  A recognised name scales its field by
    [1 + delta / 100]; any other name leaves the model as it is. *)
Definition scaled (delta x : Q) : Q := x * (1 + delta / 100).




Definition adjustInvestments (delta : Q) (investments : list InvestmentData.t)
    : list InvestmentData.t :=
  map
    (fun i =>
       InvestmentData.mk (InvestmentData.category i) (scaled delta (InvestmentData.amount i))
         (InvestmentData.year i) (InvestmentData.usefulLife i)
         (InvestmentData.salvageValue i) (InvestmentData.depreciationMethod i)
         (InvestmentData.depreciationRate i))
    investments.





End Spec.

(** ** Terms of the sums *)

Module Terms.



(** Revenue, operating costs and capital outlay of a model in one year
    of the projection. *)
Definition revenueIn (m : ProjectModel.t) (year : Z) : Q :=
  let c := ProjectData.constructionYears (ProjectModel.project m) in
  if (c <? year)%Z then Statements.revenueOf (ProjectModel.products m) (year - c) else 0.



(** The row of one year of the cash-flow series of a model. *)
Definition rowOf (m : ProjectModel.t) (cumulativeCashFlow : Q) (year : Z) : CashFlowYear.t :=
  Statements.cashFlowOfYear (ProjectModel.project m) (ProjectModel.investments m)
    (ProjectModel.products m) (ProjectModel.operatingCosts m) (ProjectModel.financing m)
    cumulativeCashFlow year.


End Terms.

(** ** Sample inputs *)

Module Cases.

(** A plant bought for 1000 in year 0, paid from equity, one year of
    operation, nothing produced. *)
Definition plant : InvestmentData.t :=
  InvestmentData.mk "machinery" 1000 0 10 0 Depreciation.straight_line 10.

Definition equity : FinancingData.t :=
  FinancingData.mk "equity" 1000 0 0 0 0 1.

Definition equityFundedPlant : ProjectModel.t :=
  ProjectModel.mk (ProjectData.mk 0 1 0 0 0) [plant] [] [] [equity].

(** A workshop built in one year and run for two, paid without
    financing and free of tax. *)
Definition workshop : ProjectModel.t :=
  ProjectModel.mk (ProjectData.mk 1 2 10 0 0)
    [InvestmentData.mk "machinery" 1000 0 10 0 Depreciation.straight_line 10]
    [ProductData.mk "chairs" 10 0 [ScheduleRow.mk 1 100; ScheduleRow.mk 2 120]]
    [CostData.mk "labour" CostData.fixed 300 0 0 1]
    [].

(** An outlay, a further outlay in year 1 and one return in year 2. *)
Definition lateReturn : list Q := [-1000; -200; 300].

(** Nothing in year 0 and one very large receipt in year 1: the NPV has
    no root and every Newton step doubles [1 + rate]. *)
Definition windfall : Q := 10000000000000000000000000000000000000000000000000000.

Definition lateWindfall : list Q := [0; windfall].

(** The three results of one variable whose NPV falls as it grows. *)
Definition costSweep : list SensitivityResult.t :=
  [SensitivityResult.mk "costs" (-10) 120 12;
   SensitivityResult.mk "costs" 0 100 10;
   SensitivityResult.mk "costs" 10 80 8].

End Cases.

(** ** services/calculations/sensitivity.ts, the break-even search *)

Module BreakEvenSearch.

Definition tolerance : Q := 0.1.
Definition maxIterations : nat := 50.

(** The NPV the search evaluates at a variation. *)
Definition npvAt (inputs : ProjectInputs.t) (variable : string) (variation : Q) : Q :=
  let modifiedInputs := Sensitivity.applyVariation inputs variable variation in
  let cashFlows := Sensitivity.recalculateCashFlows modifiedInputs in
  Indicators.calculateNPV cashFlows (ProjectInputs.discountRate modifiedInputs).

(** The loop of [findBreakEvenVariation] with [n] iterations left; [None]
    is the [null] returned when the loop ends. *)
Fixpoint searchLoop (inputs : ProjectInputs.t) (variable : string)
    (n : nat) (low high : Q) : option Q :=
  match n with
  | O => None
  | S n' =>
      let mid := (low + high) / 2 in
      let npv := npvAt inputs variable mid in
      if Js.lt (Js.Math_abs npv) tolerance then Some mid
      else
        let baseNPV := npvAt inputs variable 0 in
        if (String.eqb variable "revenue" || String.eqb variable "price")
           && Js.lt npv 0
        then searchLoop inputs variable n' mid high
        else if (String.eqb variable "costs" || String.eqb variable "investment")
                && Js.lt npv 0
        then searchLoop inputs variable n' low mid
        else if Js.gt baseNPV 0 then
          if Js.gt npv 0 then searchLoop inputs variable n' mid high
          else searchLoop inputs variable n' low mid
        else
          if Js.lt npv 0 then searchLoop inputs variable n' mid high
          else searchLoop inputs variable n' low mid
  end.

Definition findBreakEvenVariation (inputs : ProjectInputs.t) (variable : string)
    : option Q :=
  searchLoop inputs variable maxIterations (-100) 100.

Definition calculateBreakEvenVariations (baseInputs : ProjectInputs.t)
    (variables : list string) : list (string * option Q) :=
  fold_left
    (fun breakEvenVariations variable =>
       Js.mapSet variable (findBreakEvenVariation baseInputs variable)
         breakEvenVariations)
    variables [].

End BreakEvenSearch.

(** ** routes/analysis.ts, the indicators *)

Module AnalysisIndicators.

Definition totalInvestment (p : ProjectModel.t) : Q :=
  Js.sum_by InvestmentData.amount (ProjectModel.investments p).

Definition totalNetIncome (p : ProjectModel.t) : Q :=
  Js.sum_by IncomeStatementYear.netIncome (Analysis.incomeStatementsOf p).

Definition isFixed (c : CostData.t) : bool :=
  match CostData.costType c with
  | CostData.fixed => true
  | CostData.variable => false
  end.

Definition fixedCosts (p : ProjectModel.t) : Q :=
  Js.sum_by CostData.amount (filter isFixed (ProjectModel.operatingCosts p)).

Definition avgUnitPrice (p : ProjectModel.t) : Q :=
  match ProjectModel.products p with
  | [] => 0
  | _ :: _ =>
      Js.sum_by ProductData.unitPrice (ProjectModel.products p)
      / inject_Z (Z.of_nat (List.length (ProjectModel.products p)))
  end.

Definition avgVariableCost (p : ProjectModel.t) : Q :=
  let variableCosts :=
    filter (fun c => negb (isFixed c)) (ProjectModel.operatingCosts p) in
  match variableCosts with
  | [] => 0
  | _ :: _ => Js.sum_by CostData.unitCost variableCosts
  end.

Section WithRealPower.

Variable pow_real : Q -> Q -> Q.

(** The handler of [GET /indicators]. *)
Definition indicatorsOf (p : ProjectModel.t) : Indicators.FinancialIndicators :=
  Indicators.calculateAllIndicators pow_real (Analysis.netCashFlowsOf p)
    (ProjectData.discountRate (ProjectModel.project p))
    (totalInvestment p) (totalNetIncome p) (fixedCosts p)
    (avgUnitPrice p) (avgVariableCost p).

End WithRealPower.

End AnalysisIndicators.

(** ** Terms of the debt sums *)

Module DebtTerms.

(** The row of its schedule that [calculateDebtService] reads for one
    instrument in one year, if any. *)
Definition scheduledRow (item : Financing.FinancingItem) (year : Z)
    : option Financing.AmortizationSchedule :=
  if negb (String.eqb (Financing.type item) "loan") then None
  else
    let schedule :=
      Financing.calculateAmortizationSchedule (Financing.amount item)
        (Financing.interestRate item) (Financing.termYears item)
        (Financing.gracePeriod item) in
    let yearIndex := (year - Financing.repaymentStartYear item)%Z in
    if ((0 <=? yearIndex) && (yearIndex <? Z.of_nat (List.length schedule)))%Z
    then nth_error schedule (Z.to_nat yearIndex)
    else None.

Definition principalDue (year : Z) (item : Financing.FinancingItem) : Q :=
  match scheduledRow item year with
  | Some row => Financing.principal row
  | None => 0
  end.

Definition interestDue (year : Z) (item : Financing.FinancingItem) : Q :=
  match scheduledRow item year with
  | Some row => Financing.interest row
  | None => 0
  end.


End DebtTerms.

(** * Properties *)

(** ** The unit tests of the repository, replayed on the embedding *)

Example test_straightLineDepreciation :
  Depreciation.straightLineDepreciation 10000 1000 10 == 900
  /\ Depreciation.straightLineDepreciation 10000 1000 0 == 0
  /\ Depreciation.straightLineDepreciation 10000 0 10 == 1000.
Proof. split; [|split]; vm_compute; reflexivity. Qed.

Example test_decliningBalanceDepreciation :
  Depreciation.decliningBalanceDepreciation 10000 1000 20 1 10 == 2000
  /\ Depreciation.decliningBalanceDepreciation 10000 1000 20 2 10
     < Depreciation.decliningBalanceDepreciation 10000 1000 20 1 10
  /\ Depreciation.decliningBalanceDepreciation 10000 1000 20 11 10 == 0.
Proof. split; [|split]; vm_compute; reflexivity. Qed.

Example test_calculateDepreciation :
  Depreciation.calculateDepreciation 10000 1000 10 10 Depreciation.straight_line 2 1 == 900
  /\ 0 < Depreciation.calculateDepreciation 10000 1000 10 20 Depreciation.declining_balance 2 1
  /\ Depreciation.calculateDepreciation 10000 1000 10 10 Depreciation.none 2 1 == 0
  /\ Depreciation.calculateDepreciation 10000 1000 10 10 Depreciation.straight_line 0 1 == 0
  /\ Depreciation.calculateDepreciation 10000 1000 5 10 Depreciation.straight_line 10 1 == 0.
Proof. split; [|split; [|split; [|split]]]; vm_compute; reflexivity. Qed.

Example test_calculateAccumulatedDepreciation :
  Depreciation.calculateAccumulatedDepreciation 10000 1000 10 10
    Depreciation.straight_line 5 1 == 4500
  /\ Depreciation.calculateAccumulatedDepreciation 10000 1000 5 10
       Depreciation.straight_line 20 1 == 9000
  /\ Depreciation.calculateAccumulatedDepreciation 10000 1000 10 10
       Depreciation.none 5 1 == 0.
Proof. split; [|split]; vm_compute; reflexivity. Qed.

Example test_calculateAmortizationSchedule :
  List.length (Financing.calculateAmortizationSchedule 100000 10 5 0) = 5%nat
  /\ map (fun row => Qred (Financing.interest row))
       (Financing.calculateAmortizationSchedule 100000 10 5 0)
     = [10000; 8000; 6000; 4000; 2000]
  /\ map (fun row => Qred (Financing.principal row))
       (Financing.calculateAmortizationSchedule 100000 10 5 2)
     = [0; 0; 100000 # 3; 100000 # 3; 100000 # 3].
Proof. split; [|split]; vm_compute; reflexivity. Qed.

Example test_calculateDebtService :
  let loan amount rate start := Financing.mkFinancingItem "loan" amount rate 5 0 start in
  let both := Financing.calculateDebtService [loan 100000 10 1%Z; loan 50000 8 1%Z] 1 in
  Financing.ds_principal both == 30000
  /\ Financing.ds_interest both == 14000
  /\ Financing.ds_total both == 44000
  /\ Financing.ds_principal
       (Financing.calculateDebtService
          [Financing.mkFinancingItem "equity" 100000 0 0 0 1] 1) == 0
  /\ Financing.ds_principal (Financing.calculateDebtService [loan 100000 10 3%Z] 1) == 0.
Proof. cbv zeta. split; [|split; [|split; [|split]]]; vm_compute; reflexivity. Qed.

Example test_calculateNPV :
  Qabs (Indicators.calculateNPV [-1000; 300; 400; 500; 600] 10 - 388.97) < 0.5
  /\ Indicators.calculateNPV [-1000; 100; 100; 100; 100] 10 < 0
  /\ Indicators.calculateNPV [-1000; 500; 500; 500] 0 == 500.
Proof. split; [|split]; vm_compute; reflexivity. Qed.

Example test_calculatePaybackPeriod :
  Indicators.calculatePaybackPeriod [-1000; 100; 100; 100; 100] == -1
  /\ Indicators.calculatePaybackPeriod [0; 100; 200] == 0.
Proof. split; vm_compute; reflexivity. Qed.

Example test_ratios :
  Indicators.calculateROI 500 1000 == 50
  /\ Indicators.calculateROI 500 0 == 0
  /\ Indicators.calculateROI (-200) 1000 == -20
  /\ Indicators.calculateBenefitCostRatio 1500 1000 == 1.5
  /\ Indicators.calculateBenefitCostRatio 1000 0 == 0.
Proof. split; [|split; [|split; [|split]]]; vm_compute; reflexivity. Qed.

Example test_calculateBreakEven :
  Indicators.calculateBreakEven 10000 100 60 = (10000 / (100 - 60), 10000 / (100 - 60) * 100)
  /\ Qred (fst (Indicators.calculateBreakEven 10000 100 60)) = 250
  /\ Qred (snd (Indicators.calculateBreakEven 10000 100 60)) = 25000
  /\ Indicators.calculateBreakEven 10000 100 100 = (-1, -1)
  /\ Indicators.calculateBreakEven 10000 80 100 = (-1, -1).
Proof. split; [|split; [|split; [|split]]]; vm_compute; reflexivity. Qed.

(** ** Comparisons, sums and ranges *)

Lemma lt_true_iff (a b : Q) : Js.lt a b = true <-> a < b.
Proof.
  unfold Js.lt. rewrite negb_true_iff.
  split; intro H.
  - apply Qnot_le_lt. intro Hle. apply Qle_bool_iff in Hle. congruence.
  - destruct (Qle_bool b a) eqn:E; [|reflexivity].
    apply Qle_bool_iff in E. exfalso. apply (Qlt_not_le _ _ H E).
Qed.

Lemma lt_false_iff (a b : Q) : Js.lt a b = false <-> b <= a.
Proof.
  unfold Js.lt. rewrite negb_false_iff. apply Qle_bool_iff.
Qed.

Lemma le_true_iff (a b : Q) : Js.le a b = true <-> a <= b.
Proof. apply Qle_bool_iff. Qed.

Lemma le_false_iff (a b : Q) : Js.le a b = false <-> b < a.
Proof.
  unfold Js.le. split; intro H.
  - apply Qnot_le_lt. intro Hle. apply Qle_bool_iff in Hle. congruence.
  - destruct (Qle_bool a b) eqn:E; [|reflexivity].
    apply Qle_bool_iff in E. exfalso. apply (Qlt_not_le _ _ H E).
Qed.

Lemma inject_Z_nonzero (z : Z) : z <> 0%Z -> ~ inject_Z z == 0.
Proof. intros Hz H. unfold Qeq in H. simpl in H. lia. Qed.

Lemma fold_sum_shift {A : Type} (f : A -> Q) (xs : list A) (a : Q) :
  fold_left (fun sum x => sum + f x) xs a == a + Js.sum_by f xs.
Proof.
  unfold Js.sum_by. revert a.
  induction xs as [|x xs IH]; intro a; simpl.
  - ring.
  - rewrite (IH (a + f x)), (IH (0 + f x)). ring.
Qed.

Lemma sum_by_cons {A : Type} (f : A -> Q) (x : A) (xs : list A) :
  Js.sum_by f (x :: xs) == f x + Js.sum_by f xs.
Proof.
  unfold Js.sum_by at 1. simpl. rewrite fold_sum_shift. ring.
Qed.

Lemma sum_by_app {A : Type} (f : A -> Q) (xs ys : list A) :
  Js.sum_by f (xs ++ ys) == Js.sum_by f xs + Js.sum_by f ys.
Proof.
  induction xs as [|x xs IH]; simpl.
  - unfold Js.sum_by at 2. simpl. ring.
  - rewrite !sum_by_cons, IH. ring.
Qed.

Lemma sum_by_nonneg {A : Type} (f : A -> Q) (xs : list A) :
  (forall x, In x xs -> 0 <= f x) -> 0 <= Js.sum_by f xs.
Proof.
  induction xs as [|x xs IH]; intro H.
  - unfold Js.sum_by. simpl. apply Qle_refl.
  - rewrite sum_by_cons.
    assert (0 <= f x) by (apply H; left; reflexivity).
    assert (0 <= Js.sum_by f xs) by (apply IH; intros y Hy; apply H; right; exact Hy).
    lra.
Qed.

Lemma length_upfrom (lo : Z) (n : nat) : List.length (Js.upfrom lo n) = n.
Proof.
  revert lo. induction n as [|n IH]; intro lo; simpl; [reflexivity|].
  now rewrite IH.
Qed.

Lemma in_upfrom (lo : Z) (n : nat) (y : Z) :
  In y (Js.upfrom lo n) <-> (lo <= y < lo + Z.of_nat n)%Z.
Proof.
  revert lo. induction n as [|n IH]; intro lo; simpl.
  - split; [tauto | lia].
  - rewrite IH. lia.
Qed.

Lemma upfrom_app (lo : Z) (n m : nat) :
  Js.upfrom lo (n + m) = Js.upfrom lo n ++ Js.upfrom (lo + Z.of_nat n) m.
Proof.
  revert lo. induction n as [|n IH]; intro lo.
  - simpl. now rewrite Z.add_0_r.
  - cbn [Nat.add Js.upfrom app]. rewrite IH. do 3 f_equal. lia.
Qed.

Lemma in_range (lo hi y : Z) : In y (Js.range lo hi) <-> (lo <= y <= hi)%Z.
Proof. unfold Js.range. rewrite in_upfrom. lia. Qed.

Lemma length_range (lo hi : Z) : List.length (Js.range lo hi) = Z.to_nat (hi - lo + 1).
Proof. apply length_upfrom. Qed.

Lemma filter_all {A : Type} (p : A -> bool) (xs : list A) :
  Forall (fun x => p x = true) xs -> filter p xs = xs.
Proof.
  induction 1 as [|x xs Hx _ IH]; simpl; [reflexivity|].
  rewrite Hx, IH. reflexivity.
Qed.

Lemma filter_none {A : Type} (p : A -> bool) (xs : list A) :
  Forall (fun x => p x = false) xs -> filter p xs = [].
Proof.
  induction 1 as [|x xs Hx _ IH]; simpl; [reflexivity|].
  rewrite Hx, IH. reflexivity.
Qed.

(** ** Amortisation schedules *)

Section ScheduleLoop.

Variables (rate principalPayment : Q) (gracePeriod : Z).

Let loop := Financing.scheduleLoop rate principalPayment gracePeriod.

Lemma scheduleLoop_length (years : list Z) (balance : Q) :
  List.length (loop years balance) = List.length years.
Proof.
  revert balance. induction years as [|y years IH]; intro balance; simpl.
  - reflexivity.
  - f_equal. apply IH.
Qed.

Lemma scheduleLoop_in_grace (years : list Z) (balance : Q) :
  (forall y, In y years -> (y <= gracePeriod)%Z) ->
  Forall (fun row => Financing.principal row == 0) (loop years balance).
Proof.
  revert balance. induction years as [|y years IH]; intros balance Hy; simpl.
  - constructor.
  - constructor.
    + simpl. assert (y <= gracePeriod)%Z as Hle by (apply Hy; left; reflexivity).
      apply Z.ltb_ge in Hle. rewrite Hle. reflexivity.
    + apply IH. intros z Hz. apply Hy. right. exact Hz.
Qed.

(** Past the grace period every year pays [principalPayment]. *)
Lemma scheduleLoop_paid_after_grace (n : nat) (lo : Z) (balance : Q) :
  (gracePeriod < lo)%Z ->
  Js.sum_by Financing.principal (loop (Js.upfrom lo n) balance)
  == inject_Z (Z.of_nat n) * principalPayment.
Proof.
  revert lo balance. induction n as [|n IH]; intros lo balance Hlo.
  - unfold Js.sum_by. simpl. ring.
  - cbn [Js.upfrom]. unfold loop. cbn [Financing.scheduleLoop].
    rewrite sum_by_cons. cbn [Financing.principal].
    apply Z.ltb_lt in Hlo as Hb. rewrite Hb.
    fold loop. rewrite IH by lia.
    rewrite Nat2Z.inj_succ. unfold Z.succ. rewrite inject_Z_plus. ring.
Qed.

(** From a first year inside the grace period on, the principal paid over
    [n] years is one [principalPayment] per year past the grace period. *)
Lemma scheduleLoop_paid (n : nat) (lo : Z) (balance : Q) :
  (lo <= gracePeriod + 1)%Z ->
  Js.sum_by Financing.principal (loop (Js.upfrom lo n) balance)
  == inject_Z (Z.max 0 (lo + Z.of_nat n - 1 - gracePeriod)) * principalPayment.
Proof.
  revert lo balance. induction n as [|n IH]; intros lo balance Hlo.
  - unfold Js.sum_by. simpl. rewrite Z.max_l by lia. ring.
  - destruct (Z.eq_dec lo (gracePeriod + 1)) as [Heq | Hne].
    + rewrite scheduleLoop_paid_after_grace by lia.
      rewrite Z.max_r by lia. replace (lo + Z.of_nat (S n) - 1 - gracePeriod)%Z
        with (Z.of_nat (S n)) by lia. reflexivity.
    + cbn [Js.upfrom]. unfold loop. cbn [Financing.scheduleLoop].
      rewrite sum_by_cons. cbn [Financing.principal].
      assert ((gracePeriod <? lo)%Z = false) as Hb by (apply Z.ltb_ge; lia).
      rewrite Hb. fold loop. rewrite IH by lia.
      replace (lo + 1 + Z.of_nat n - 1 - gracePeriod)%Z
        with (lo + Z.of_nat (S n) - 1 - gracePeriod)%Z by lia.
      ring.
Qed.

(** The last row closes on what is left of the balance carried in once the
    whole principal column is paid. *)
Lemma scheduleLoop_last (n : nat) (lo : Z) (balance : Q) (d : Financing.AmortizationSchedule) :
  Financing.endingBalance (last (loop (Js.upfrom lo (S n)) balance) d)
  == Qmax 0 (balance - Js.sum_by Financing.principal (loop (Js.upfrom lo (S n)) balance)).
Proof.
  revert lo balance. induction n as [|n IH]; intros lo balance.
  - cbn [Js.upfrom]. unfold loop. cbn [Financing.scheduleLoop last Financing.endingBalance].
    unfold Js.Math_max. apply Q.max_compat; [reflexivity|].
    rewrite sum_by_cons. cbn [Financing.principal]. unfold Js.sum_by. simpl. ring.
  - change (Js.upfrom lo (S (S n))) with (lo :: Js.upfrom (lo + 1) (S n)).
    unfold loop. cbn [Financing.scheduleLoop]. fold loop.
    set (paid := if (gracePeriod <? lo)%Z then principalPayment else 0).
    remember (loop (Js.upfrom (lo + 1) (S n)) (balance - paid)) as rest eqn:Hrest.
    assert (rest <> []) as Hne.
    { intro Hnil. apply (f_equal (@List.length _)) in Hnil.
      rewrite Hrest, scheduleLoop_length, length_upfrom in Hnil. discriminate. }
    destruct rest as [|r rest']; [congruence|].
    change (last (?x :: r :: rest') d) with (last (r :: rest') d).
    rewrite Hrest, IH. apply Q.max_compat; [reflexivity|].
    rewrite sum_by_cons. cbn [Financing.principal]. fold paid. ring.
Qed.

End ScheduleLoop.

(** C8. A term of zero years gives the empty schedule; a term that does not
    outlast the grace period gives one row per year of the term, none of
    which repays principal. *)
Theorem amortization_within_grace
    (principal annualRate : Q) (termYears gracePeriod : Z) :
  Financing.calculateAmortizationSchedule principal annualRate 0 gracePeriod = []
  /\ ((0 < termYears <= gracePeriod)%Z ->
      List.length
        (Financing.calculateAmortizationSchedule principal annualRate termYears gracePeriod)
      = Z.to_nat termYears
      /\ Forall (fun row => Financing.principal row == 0)
           (Financing.calculateAmortizationSchedule principal annualRate termYears
              gracePeriod)).
Proof.
  split; [reflexivity|].
  intros [Hpos Hle]. unfold Financing.calculateAmortizationSchedule. split.
  - rewrite scheduleLoop_length, length_range. f_equal. lia.
  - apply scheduleLoop_in_grace. intros y Hy. apply in_range in Hy. lia.
Qed.

Lemma amortization_within_grace_witness :
  (0 < 3 <= 5)%Z
  /\ List.length (Financing.calculateAmortizationSchedule 100000 10 3 5) = 3%nat
  /\ Forall (fun row => Financing.principal row == 0)
       (Financing.calculateAmortizationSchedule 100000 10 3 5).
Proof.
  split; [lia|].
  apply (proj2 (amortization_within_grace 100000 10 3 5)). lia.
Defined.

(** C5. When the term outlasts the grace period the schedule has one row
    per year of the term, its principal column adds up to the principal
    and its last row closes at a balance of zero.  The sign of the
    principal plays no part. *)
Theorem amortization_repays_principal
    (principal annualRate : Q) (termYears gracePeriod : Z)
    (d : Financing.AmortizationSchedule) :
  (0 <= gracePeriod < termYears)%Z ->
  let schedule :=
    Financing.calculateAmortizationSchedule principal annualRate termYears gracePeriod in
  List.length schedule = Z.to_nat termYears
  /\ Js.sum_by Financing.principal schedule == principal
  /\ Financing.endingBalance (last schedule d) == 0.
Proof.
  intros [Hg Ht] schedule. subst schedule.
  unfold Financing.calculateAmortizationSchedule, Js.range.
  replace (termYears - 1 + 1)%Z with termYears by lia.
  set (pp := principal / inject_Z (termYears - gracePeriod)).
  assert (Hsum :
    Js.sum_by Financing.principal
      (Financing.scheduleLoop (annualRate / 100) pp gracePeriod
         (Js.upfrom 1 (Z.to_nat termYears)) principal) == principal).
  { rewrite scheduleLoop_paid by lia.
    rewrite Z2Nat.id by lia. rewrite Z.max_r by lia.
    replace (1 + termYears - 1 - gracePeriod)%Z with (termYears - gracePeriod)%Z by lia.
    unfold pp. field.
    apply inject_Z_nonzero. lia. }
  split; [|split].
  - now rewrite scheduleLoop_length, length_upfrom.
  - exact Hsum.
  - destruct (Z.to_nat termYears) as [|n] eqn:En; [lia|].
    rewrite scheduleLoop_last. rewrite Hsum.
    setoid_replace (principal - principal) with 0 by ring.
    apply Q.max_l. apply Qle_refl.
Qed.

Lemma amortization_repays_principal_witness :
  let schedule := Financing.calculateAmortizationSchedule 100000 10 5 2 in
  List.length schedule = 5%nat
  /\ Js.sum_by Financing.principal schedule == 100000
  /\ Financing.endingBalance (last schedule (Financing.mkAmortizationSchedule 0 0 0 0 0 0)) == 0.
Proof.
  apply (amortization_repays_principal 100000 10 5 2). lia.
Defined.

(** ** Depreciation *)

Lemma bookValueLoop_below_salvage (n : nat) (cost salvageValue rate : Q) :
  0 <= cost -> 0 <= rate -> cost <= salvageValue ->
  Depreciation.bookValueLoop n cost salvageValue rate <= salvageValue.
Proof.
  intros Hc Hr Hle. destruct n as [|n]; simpl.
  - exact Hle.
  - assert (Js.le (cost - cost * rate) salvageValue = true) as Hb.
    { apply le_true_iff. nra. }
    rewrite Hb. apply Qle_refl.
Qed.

Lemma calculateDepreciation_nonneg
    (cost salvageValue : Q) (usefulLife : Z) (rate : Q)
    (method : Depreciation.DepreciationMethod) (year purchaseYear : Z) :
  0 <= salvageValue -> salvageValue <= cost -> 0 <= rate ->
  0 <= Depreciation.calculateDepreciation cost salvageValue usefulLife rate method
         year purchaseYear.
Proof.
  intros Hs Hc Hr. unfold Depreciation.calculateDepreciation.
  destruct ((year - purchaseYear <? 0)%Z || (usefulLife <=? year - purchaseYear)%Z) eqn:Hw;
    [apply Qle_refl|].
  apply orb_false_iff in Hw. destruct Hw as [H0 Hl].
  apply Z.ltb_ge in H0. apply Z.leb_gt in Hl.
  destruct method.
  - unfold Depreciation.straightLineDepreciation.
    destruct (usefulLife <=? 0)%Z eqn:Hu; [apply Qle_refl|].
    apply Z.leb_gt in Hu.
    assert (0 < inject_Z usefulLife) as Hpos.
    { change 0 with (inject_Z 0). rewrite <- Zlt_Qlt. exact Hu. }
    apply Qle_shift_div_l; [exact Hpos|]. lra.
  - unfold Depreciation.decliningBalanceDepreciation.
    destruct (usefulLife <? year - purchaseYear + 1)%Z; [apply Qle_refl|].
    set (bv := Depreciation.bookValueLoop _ _ _ _).
    destruct (Js.le bv salvageValue) eqn:Hb; [apply Qle_refl|].
    apply le_false_iff in Hb. unfold Js.Math_min.
    apply Q.min_glb.
    + assert (0 <= rate / 100) by (apply Qle_shift_div_l; lra). nra.
    + lra.
  - apply Qle_refl.
Qed.

(** C7, at a failing input.  Straight-line depreciation of an asset bought
    for 1000 with a salvage value of 2000 is a charge of -100 in every
    year of its useful life, where the declining-balance method and the
    method [none] give 0. *)
Theorem straight_line_charge_below_salvage :
  1000 <= 2000
  /\ Depreciation.calculateDepreciation 1000 2000 10 10 Depreciation.straight_line 1 1
     == -100
  /\ ~ Depreciation.calculateDepreciation 1000 2000 10 10 Depreciation.straight_line 1 1
       == 0
  /\ Depreciation.calculateDepreciation 1000 2000 10 10 Depreciation.declining_balance 1 1
     == 0
  /\ Depreciation.calculateDepreciation 1000 2000 10 10 Depreciation.none 1 1 == 0.
Proof.
  split; [lra|]. split; [|split; [|split]].
  - vm_compute. reflexivity.
  - vm_compute. discriminate.
  - vm_compute. reflexivity.
  - vm_compute. reflexivity.
Qed.

(** The edge cases of the depreciation charge that do hold.  A useful
    life of zero gives a charge of 0 under every method.  An asset whose
    cost does not exceed its salvage value has a charge of 0 under [none],
    under [declining_balance] for a cost and a rate that are not negative,
    and under [straight_line] when the cost equals the salvage value. *)
Theorem depreciation_edge_cases
    (cost salvageValue : Q) (usefulLife : Z) (rate : Q)
    (method : Depreciation.DepreciationMethod) (year purchaseYear : Z) :
  (usefulLife = 0%Z ->
   Depreciation.calculateDepreciation cost salvageValue usefulLife rate method
     year purchaseYear == 0)
  /\ (cost <= salvageValue ->
      match method with
      | Depreciation.straight_line =>
          cost == salvageValue ->
          Depreciation.calculateDepreciation cost salvageValue usefulLife rate
            Depreciation.straight_line year purchaseYear == 0
      | Depreciation.declining_balance =>
          0 <= cost -> 0 <= rate ->
          Depreciation.calculateDepreciation cost salvageValue usefulLife rate
            Depreciation.declining_balance year purchaseYear == 0
      | Depreciation.none =>
          Depreciation.calculateDepreciation cost salvageValue usefulLife rate
            Depreciation.none year purchaseYear == 0
      end).
Proof.
  split.
  - intros ->. unfold Depreciation.calculateDepreciation.
    destruct (year - purchaseYear <? 0)%Z eqn:H0; [reflexivity|].
    apply Z.ltb_ge in H0.
    assert ((0 <=? year - purchaseYear)%Z = true) as -> by (apply Z.leb_le; exact H0).
    reflexivity.
  - intro Hle. destruct method.
    + intro Heq. unfold Depreciation.calculateDepreciation.
      destruct (_ || _); [reflexivity|].
      unfold Depreciation.straightLineDepreciation.
      destruct (usefulLife <=? 0)%Z; [reflexivity|].
      rewrite Heq. unfold Qdiv. ring.
    + intros Hc Hr. unfold Depreciation.calculateDepreciation.
      destruct (_ || _); [reflexivity|].
      unfold Depreciation.decliningBalanceDepreciation.
      destruct (usefulLife <? year - purchaseYear + 1)%Z; [reflexivity|].
      assert (0 <= rate / 100) as Hr' by (apply Qle_shift_div_l; lra).
      pose proof (bookValueLoop_below_salvage
                    (Z.to_nat (year - purchaseYear + 1 - 1)) cost salvageValue
                    (rate / 100) Hc Hr' Hle) as Hbv.
      apply le_true_iff in Hbv. rewrite Hbv. reflexivity.
    + unfold Depreciation.calculateDepreciation.
      destruct (_ || _); reflexivity.
Qed.

Lemma depreciation_edge_cases_witness :
  Depreciation.calculateDepreciation 10000 1000 0 10 Depreciation.straight_line 3 1 == 0
  /\ Depreciation.calculateDepreciation 1000 1000 10 10 Depreciation.straight_line 2 1 == 0
  /\ Depreciation.calculateDepreciation 1000 2000 10 20 Depreciation.declining_balance 2 1
     == 0.
Proof.
  split; [|split].
  - apply (proj1 (depreciation_edge_cases 10000 1000 0 10 Depreciation.straight_line 3 1)).
    reflexivity.
  - apply (proj2 (depreciation_edge_cases 1000 1000 10 10 Depreciation.straight_line 2 1)).
    + lra.
    + reflexivity.
  - apply (proj2 (depreciation_edge_cases 1000 2000 10 20 Depreciation.declining_balance 2 1)).
    + lra.
    + lra.
    + lra.
Defined.

Lemma range_extend (lo hi1 hi2 : Z) :
  (hi1 <= hi2)%Z -> exists more, Js.range lo hi2 = Js.range lo hi1 ++ more.
Proof.
  intro Hle. unfold Js.range.
  set (n1 := Z.to_nat (hi1 - lo + 1)). set (n2 := Z.to_nat (hi2 - lo + 1)).
  assert (n1 <= n2)%nat as Hn by (subst n1 n2; lia).
  exists (Js.upfrom (lo + Z.of_nat n1) (n2 - n1)).
  rewrite <- upfrom_app. f_equal. lia.
Qed.

(** C9. For an asset of the data model (salvage value between 0 and the
    cost, rate not negative) the accumulated depreciation is the sum of the
    annual charges from the purchase year through the query year, clamped
    to [cost - salvageValue]; it does not decrease when the query year
    grows and never exceeds [cost - salvageValue]. *)
Theorem accumulated_depreciation_monotone_bounded
    (cost salvageValue : Q) (usefulLife : Z) (rate : Q)
    (method : Depreciation.DepreciationMethod) (purchaseYear y1 y2 : Z) :
  0 <= salvageValue -> salvageValue <= cost -> 0 <= rate -> (y1 <= y2)%Z ->
  let accumulated y :=
    Depreciation.calculateAccumulatedDepreciation cost salvageValue usefulLife rate
      method y purchaseYear in
  let charge y :=
    Depreciation.calculateDepreciation cost salvageValue usefulLife rate method y
      purchaseYear in
  accumulated y1 <= accumulated y2
  /\ accumulated y2 <= cost - salvageValue
  /\ accumulated y2
     == Qmin (Js.sum_by charge (Js.range purchaseYear y2)) (cost - salvageValue).
Proof.
  intros Hs Hc Hr Hy accumulated charge.
  assert (Hacc : forall y,
    accumulated y == Qmin (Js.sum_by charge (Js.range purchaseYear y)) (cost - salvageValue)).
  { intro y. reflexivity. }
  split; [|split].
  - rewrite (Hacc y1), (Hacc y2).
    destruct (range_extend purchaseYear y1 y2 Hy) as [more Hmore].
    rewrite Hmore, sum_by_app.
    apply Q.min_le_compat_r.
    assert (0 <= Js.sum_by charge more).
    { apply sum_by_nonneg. intros y _. subst charge.
      apply calculateDepreciation_nonneg; assumption. }
    lra.
  - rewrite (Hacc y2). apply Q.le_min_r.
  - apply Hacc.
Qed.

Lemma accumulated_depreciation_monotone_bounded_witness :
  Depreciation.calculateAccumulatedDepreciation 10000 1000 10 20
    Depreciation.declining_balance 3 1
  <= Depreciation.calculateAccumulatedDepreciation 10000 1000 10 20
       Depreciation.declining_balance 20 1
  /\ Depreciation.calculateAccumulatedDepreciation 10000 1000 10 20
       Depreciation.declining_balance 20 1 <= 10000 - 1000.
Proof.
  assert (0 <= 1000) as Hs by lra.
  assert (1000 <= 10000) as Hc by lra.
  assert (0 <= 20) as Hr by lra.
  assert (3 <= 20)%Z as Hy by lia.
  destruct (accumulated_depreciation_monotone_bounded 10000 1000 10 20
              Depreciation.declining_balance 1 3 20 Hs Hc Hr Hy) as [H1 [H2 _]].
  split; assumption.
Defined.

(** ** Balance sheets *)

Lemma balanceSheetOfYear_cash
    (investments : list InvestmentData.t) (financing : list FinancingData.t)
    (incomeStatements : list IncomeStatementYear.t) (retainedEarnings cash : Q) (year : Z) :
  BalanceSheetYear.cash
    (Statements.balanceSheetOfYear investments financing incomeStatements
       retainedEarnings cash year)
  == Qmax 0 cash.
Proof.
  unfold Statements.balanceSheetOfYear. cbn [BalanceSheetYear.cash].
  set (nfa := _ - Statements.accumulatedDepreciationOf investments year).
  set (inv := _ * 0.6).
  assert (cash + 0 + inv + nfa - nfa - 0 - inv == cash) as Hplug by ring.
  destruct (Js.lt (cash + 0 + inv + nfa - nfa - 0 - inv) 0) eqn:Hneg.
  - apply lt_true_iff in Hneg. rewrite Hplug in Hneg.
    symmetry. apply Q.max_l. lra.
  - apply lt_false_iff in Hneg. rewrite Hplug in *.
    symmetry. apply Q.max_r. exact Hneg.
Qed.

Lemma balanceSheetLoop_cash
    (investments : list InvestmentData.t) (financing : list FinancingData.t)
    (incomeStatements : list IncomeStatementYear.t)
    (years : list Z) (retainedEarnings cash : Q) :
  cash == 0 ->
  Forall (fun row => BalanceSheetYear.cash row == 0)
    (Statements.balanceSheetLoop investments financing incomeStatements years
       retainedEarnings cash).
Proof.
  revert retainedEarnings cash.
  induction years as [|year years IH]; intros retainedEarnings cash Hcash.
  - constructor.
  - cbn [Statements.balanceSheetLoop].
    assert (BalanceSheetYear.cash
              (Statements.balanceSheetOfYear investments financing incomeStatements
                 retainedEarnings cash year) == 0) as Hrow.
    { rewrite balanceSheetOfYear_cash, Hcash. apply Q.max_l. apply Qle_refl. }
    constructor; [exact Hrow|]. apply IH. exact Hrow.
Qed.

(** C10. The cash plug of a year gives back the cash carried into the
    year (raised to 0 if negative), whatever the liabilities and the
    equity of the year; the cash carried into year 0 is 0, so the cash of
    every row of the series is 0. *)
Theorem balance_sheet_cash_is_zero
    (project : ProjectData.t) (investments : list InvestmentData.t)
    (products : list ProductData.t) (costs : list CostData.t)
    (financing : list FinancingData.t)
    (incomeStatements : list IncomeStatementYear.t) :
  (forall retainedEarnings cash year,
     BalanceSheetYear.cash
       (Statements.balanceSheetOfYear investments financing incomeStatements
          retainedEarnings cash year)
     == Qmax 0 cash)
  /\ Forall (fun row => BalanceSheetYear.cash row == 0)
       (Statements.generateBalanceSheets project investments products costs
          financing incomeStatements).
Proof.
  split.
  - intros. apply balanceSheetOfYear_cash.
  - unfold Statements.generateBalanceSheets. apply balanceSheetLoop_cash. reflexivity.
Qed.

(** C1, at a failing input.  For the plant paid from equity the sheet of
    year 0 shows assets of 900 against liabilities and equity of 1000, and
    the sheet of year 1 assets of 800 against 900: no row satisfies the
    accounting identity. *)
Theorem balance_sheet_identity_fails :
  map
    (fun row =>
       (Qred (BalanceSheetYear.totalAssets row),
        Qred (BalanceSheetYear.totalLiabilities row + BalanceSheetYear.totalEquity row)))
    (Analysis.balanceSheetsOf Cases.equityFundedPlant)
  = [(900, 1000); (800, 900)]
  /\ Forall (fun row => ~ Spec.balanced row)
       (Analysis.balanceSheetsOf Cases.equityFundedPlant).
Proof.
  split.
  - vm_compute. reflexivity.
  - repeat constructor; unfold Spec.balanced; vm_compute; discriminate.
Qed.

(** ** Indicators *)

(** C6, at a failing input.  On the series -1000, -200, 300 at a discount
    rate of 100% the bundle discounts the return of year 2 over one year
    (150) where its present value is 75, and reports a ratio of 3/22 where
    the ratio of the present values is 3/44. *)
Theorem benefit_cost_ratio_discounts_by_rank (pow_real : Q -> Q -> Q) :
  Indicators.pvBenefits Cases.lateReturn 100 == 150
  /\ Spec.presentValueOf (fun cf => Js.gt cf 0) 100 Cases.lateReturn == 75
  /\ Indicators.benefitCostRatio
       (Indicators.calculateAllIndicators pow_real Cases.lateReturn 100 0 0 0 0 0)
     == 3 # 22
  /\ Spec.benefitCostRatio Cases.lateReturn 100 == 3 # 44
  /\ ~ Indicators.benefitCostRatio
         (Indicators.calculateAllIndicators pow_real Cases.lateReturn 100 0 0 0 0 0)
       == Spec.benefitCostRatio Cases.lateReturn 100.
Proof.
  unfold Indicators.calculateAllIndicators. cbn [Indicators.benefitCostRatio].
  split; [|split; [|split; [|split]]].
  - vm_compute. reflexivity.
  - vm_compute. reflexivity.
  - vm_compute. reflexivity.
  - vm_compute. reflexivity.
  - vm_compute. discriminate.
Qed.

Lemma irrLoop_exit (cashFlows : list Q) (n : nat) (rate : Q) :
  let rateAt k := Indicators.newtonIterate cashFlows k rate in
  match Indicators.irrExit cashFlows n rate with
  | Indicators.SmallDerivative =>
      exists k, (k < n)%nat
        /\ Indicators.derivativeCollapsed cashFlows (rateAt k) = true
        /\ Indicators.irrLoop cashFlows n rate = rateAt k * 100
  | Indicators.SmallStep =>
      exists k, (k < n)%nat
        /\ Indicators.derivativeCollapsed cashFlows (rateAt k) = false
        /\ Indicators.stepBelowTolerance cashFlows (rateAt k) = true
        /\ Indicators.irrLoop cashFlows n rate = rateAt (S k) * 100
  | Indicators.Exhausted =>
      (forall k, (k < n)%nat ->
         Indicators.derivativeCollapsed cashFlows (rateAt k) = false
         /\ Indicators.stepBelowTolerance cashFlows (rateAt k) = false)
      /\ Indicators.irrLoop cashFlows n rate = rateAt n * 100
  end.
Proof.
  revert rate. induction n as [|n IH]; intro rate; cbn zeta.
  - cbn. split; [intros k Hk; lia | reflexivity].
  - cbn [Indicators.irrExit Indicators.irrLoop].
    unfold Indicators.derivativeCollapsed at 1, Indicators.stepBelowTolerance at 1.
    unfold Indicators.newtonStep at 1.
    destruct (Indicators.irrSums cashFlows rate) as [npv npvDerivative] eqn:Hsums.
    cbn [fst snd].
    destruct (Js.lt (Js.Math_abs npvDerivative) Indicators.derivativeGuard) eqn:Hd.
    + exists 0%nat. cbn [Indicators.newtonIterate].
      unfold Indicators.derivativeCollapsed. rewrite Hsums. cbn [snd].
      repeat split; [lia | exact Hd].
    + destruct (Js.lt (Js.Math_abs (rate - npv / npvDerivative - rate)) Indicators.tolerance)
        eqn:Ht.
      * exists 0%nat. cbn [Indicators.newtonIterate].
        unfold Indicators.derivativeCollapsed, Indicators.stepBelowTolerance,
          Indicators.newtonStep.
        rewrite Hsums. cbn [fst snd]. repeat split; [lia | exact Hd | exact Ht].
      * assert (Indicators.newtonStep cashFlows rate = rate - npv / npvDerivative) as Hstep.
        { unfold Indicators.newtonStep. rewrite Hsums. reflexivity. }
        rewrite <- Hstep. specialize (IH (Indicators.newtonStep cashFlows rate)).
        cbn zeta in IH.
        assert (Indicators.derivativeCollapsed cashFlows rate = false) as Hd0.
        { unfold Indicators.derivativeCollapsed. rewrite Hsums. exact Hd. }
        assert (Indicators.stepBelowTolerance cashFlows rate = false) as Ht0.
        { unfold Indicators.stepBelowTolerance. rewrite Hstep. exact Ht. }
        destruct (Indicators.irrExit cashFlows n (Indicators.newtonStep cashFlows rate)).
        -- destruct IH as [k [Hk [H1 [H2 H3]]]]. exists (S k).
           cbn [Indicators.newtonIterate]. repeat split; [lia | assumption ..].
        -- destruct IH as [k [Hk [H1 H2]]]. exists (S k).
           cbn [Indicators.newtonIterate]. repeat split; [lia | assumption ..].
        -- destruct IH as [Hall Hval]. split; [|exact Hval].
           intros [|k] Hk; cbn [Indicators.newtonIterate].
           ++ split; assumption.
           ++ apply Hall. lia.
Qed.

(** Where the two ratios meet: when every flow after year 0 is positive
    the filter keeps all of them, so rank and year coincide. *)
Lemma positive_flows_rank_is_year (discountRate : Q) (flows : list Q) (t : Z) (a a' : Q) :
  Forall (fun cf => 0 < cf) flows -> a == a' ->
  Js.reduce_from
    (fun sum cf t => sum + cf / Js.Math_pow (1 + discountRate / 100) (t + 1)) flows t a
  == Js.reduce_from
       (fun sum cf t =>
          if Js.gt cf 0 then sum + Qabs cf / Qpower (1 + discountRate / 100) t else sum)
       flows (t + 1)%Z a'.
Proof.
  intro Hpos. revert t a a'.
  induction Hpos as [|cf flows Hcf _ IH]; intros t a a' Ha; simpl.
  - exact Ha.
  - apply IH.
    assert (Js.gt cf 0 = true) as -> by (apply lt_true_iff; exact Hcf).
    rewrite Ha, (Qabs_pos cf) by lra. reflexivity.
Qed.

Lemma positive_flows_no_cost (cost : Q -> Q -> Z -> Q) (flows : list Q)
    (t : Z) (a : Q) :
  Forall (fun cf => 0 < cf) flows ->
  Js.reduce_from (fun sum cf t => if Js.lt cf 0 then cost sum cf t else sum) flows t a = a.
Proof.
  intro Hpos. revert t a.
  induction Hpos as [|cf flows Hcf _ IH]; intros t a; simpl; [reflexivity|].
  assert (Js.lt cf 0 = false) as -> by (apply lt_false_iff; lra).
  apply IH.
Qed.

Lemma benefit_cost_ratio_of_positive_flows
    (pow_real : Q -> Q -> Q) (outlay : Q) (flows : list Q)
    (discountRate totalInvestment totalNetIncome fixedCosts avgUnitPrice
     avgVariableCost : Q) :
  Forall (fun cf => 0 < cf) flows ->
  Indicators.benefitCostRatio
    (Indicators.calculateAllIndicators pow_real (outlay :: flows) discountRate
       totalInvestment totalNetIncome fixedCosts avgUnitPrice avgVariableCost)
  == Spec.benefitCostRatio (outlay :: flows) discountRate.
Proof.
  intro Hpos.
  unfold Indicators.calculateAllIndicators. cbn [Indicators.benefitCostRatio].
  unfold Indicators.pvBenefits, Indicators.pvCosts, Spec.benefitCostRatio,
    Spec.presentValueOf, Js.slice1, Js.reduce.
  cbn [tl hd].
  rewrite (filter_all (fun cf => Js.gt cf 0) flows)
    by (apply Forall_impl with (2 := Hpos); intros cf H; apply lt_true_iff; exact H).
  rewrite (filter_none (fun cf => Js.lt cf 0) flows)
    by (apply Forall_impl with (2 := Hpos); intros cf H; apply lt_false_iff; lra).
  rewrite (positive_flows_no_cost
             (fun sum cf t => sum + Qabs cf / Qpower (1 + discountRate / 100) t)
             flows 1 0 Hpos).
  cbn [Js.reduce_from]. unfold Js.Math_abs, Indicators.calculateBenefitCostRatio, Js.eq.
  destruct (Qeq_bool (Qabs outlay + 0) 0); [reflexivity|].
  assert (Qabs (Qabs outlay + 0) == Qabs outlay + 0) as ->.
  { apply Qabs_pos. pose proof (Qabs_nonneg outlay). lra. }
  rewrite (positive_flows_rank_is_year discountRate flows 0 0 0 Hpos) by reflexivity.
  reflexivity.
Qed.

(** On a series [0, c] the Newton step doubles [1 + rate]. *)
Lemma windfall_sums (c r : Q) :
  fst (Indicators.irrSums [0; c] r) == c / (1 + r)
  /\ snd (Indicators.irrSums [0; c] r) == - (c / ((1 + r) * (1 + r))).
Proof.
  unfold Indicators.irrSums, Js.reduce.
  cbn [Js.reduce_from fst snd Z.ltb Z.compare Z.add Pos.add Pos.succ].
  unfold Js.Math_pow. cbn [Qpower Qpower_positive pow_pos Pos.iter_op].
  change (inject_Z 1) with 1. unfold Qdiv. split; ring.
Qed.

Lemma windfall_step (c r : Q) :
  0 < c -> 0 < 1 + r -> 1 + Indicators.newtonStep [0; c] r == 2 * (1 + r).
Proof.
  intros Hc Hr. unfold Indicators.newtonStep.
  destruct (windfall_sums c r) as [-> ->]. field. split; lra.
Qed.

Lemma windfall_positive : 0 < Cases.windfall.
Proof. reflexivity. Qed.

Lemma windfall_exhausts (n : nat) (r : Q) :
  11 # 10 <= 1 + r ->
  (1 + r) * inject_Z (2 ^ Z.of_nat n) <= 20000000000000000000000000000000 ->
  Indicators.irrExit Cases.lateWindfall n r = Indicators.Exhausted.
Proof.
  revert r. induction n as [|n IH]; intros r Hlow Hhigh; [reflexivity|].
  assert (0 < 1 + r) as Hpos by lra.
  assert (1 <= inject_Z (2 ^ Z.of_nat n)) as Hpow.
  { change 1 with (inject_Z 1). rewrite <- Zle_Qle.
    pose proof (Z.pow_pos_nonneg 2 (Z.of_nat n)). lia. }
  assert (inject_Z (2 ^ Z.of_nat (S n)) == 2 * inject_Z (2 ^ Z.of_nat n)) as Hsucc.
  { rewrite Nat2Z.inj_succ, Z.pow_succ_r by lia. rewrite inject_Z_mult. reflexivity. }
  rewrite Hsucc in Hhigh.
  assert (1 + r <= 10000000000000000000000000000000) as Hbound by nra.
  assert (0 < (1 + r) * (1 + r)) as Hsq by nra.
  pose proof (windfall_step Cases.windfall r windfall_positive Hpos) as Hstep.
  destruct (windfall_sums Cases.windfall r) as [_ Hd].
  fold Cases.lateWindfall in Hstep, Hd.
  cbn [Indicators.irrExit].
  assert (Indicators.derivativeCollapsed Cases.lateWindfall r = false) as ->.
  { unfold Indicators.derivativeCollapsed. apply lt_false_iff.
    unfold Js.Math_abs. rewrite Hd, Qabs_opp.
    assert (0 <= Cases.windfall / ((1 + r) * (1 + r))) as Hnonneg.
    { apply Qle_shift_div_l; [exact Hsq|]. rewrite Qmult_0_l. discriminate. }
    rewrite (Qabs_pos _ Hnonneg).
    apply Qle_shift_div_l; [exact Hsq|].
    setoid_replace Indicators.derivativeGuard with (1 # 10000000000) by reflexivity.
    unfold Cases.windfall. nra. }
  assert (Indicators.stepBelowTolerance Cases.lateWindfall r = false) as ->.
  { unfold Indicators.stepBelowTolerance. apply lt_false_iff.
    unfold Js.Math_abs, Indicators.tolerance.
    apply Qle_trans with (Indicators.newtonStep Cases.lateWindfall r - r);
      [lra | apply Qle_Qabs]. }
  apply IH.
  - lra.
  - rewrite Hstep. lra.
Qed.

Lemma windfall_iterate (n : nat) (r : Q) :
  0 < 1 + r ->
  1 + Indicators.newtonIterate Cases.lateWindfall n r
  == (1 + r) * inject_Z (2 ^ Z.of_nat n).
Proof.
  revert r. induction n as [|n IH]; intros r Hpos.
  - cbn. ring.
  - cbn [Indicators.newtonIterate].
    pose proof (windfall_step Cases.windfall r windfall_positive Hpos) as Hstep.
    fold Cases.lateWindfall in Hstep. rewrite IH by lra.
    rewrite Hstep, Nat2Z.inj_succ, Z.pow_succ_r by lia.
    rewrite inject_Z_mult. change (inject_Z 2) with 2. ring.
Qed.

(** A series that runs the iteration out.  On [0, 10^52] no iteration
    meets either test, the 100 iterations are used up, and the IRR
    returned is 100 times the last rate, [1.1 * 2^100 - 1]. *)
Lemma irr_cap_example :
  Indicators.irrExit Cases.lateWindfall Indicators.maxIterations Indicators.defaultGuess
  = Indicators.Exhausted
  /\ Indicators.calculateIRR Cases.lateWindfall Indicators.defaultGuess
     == ((11 # 10) * inject_Z (2 ^ 100) - 1) * 100.
Proof.
  assert (Indicators.irrExit Cases.lateWindfall Indicators.maxIterations
            Indicators.defaultGuess = Indicators.Exhausted) as Hexit.
  { apply windfall_exhausts.
    - vm_compute. discriminate.
    - vm_compute. discriminate. }
  split; [exact Hexit|].
  pose proof (irrLoop_exit Cases.lateWindfall Indicators.maxIterations
                Indicators.defaultGuess) as Hloop.
  cbv zeta in Hloop. rewrite Hexit in Hloop. destruct Hloop as [_ Hvalue].
  unfold Indicators.calculateIRR. rewrite Hvalue.
  assert (0 < 1 + Indicators.defaultGuess) as Hpos by (vm_compute; reflexivity).
  pose proof (windfall_iterate Indicators.maxIterations Indicators.defaultGuess Hpos) as Hit.
  change (Z.of_nat Indicators.maxIterations) with 100%Z in Hit.
  setoid_replace (1 + Indicators.defaultGuess) with (11 # 10) in Hit by reflexivity.
  lra.
Qed.



(** ** Sorting with a comparator *)

Section Sort.

Context {A : Type} (cmp : A -> A -> Q).

(** [x] may stand in front of [y]. *)
Let before (x y : A) : Prop := cmp x y <= 0.

Hypothesis before_total : forall x y, before x y \/ before y x.
Hypothesis before_trans : forall x y z, before x y -> before y z -> before x z.

Lemma insertBy_perm (x : A) (l : list A) : Permutation (Js.insertBy cmp x l) (x :: l).
Proof.
  induction l as [|y l IH]; simpl.
  - apply Permutation_refl.
  - destruct (Js.le (cmp x y) 0).
    + apply Permutation_refl.
    + apply perm_trans with (y :: x :: l).
      * apply perm_skip. exact IH.
      * apply perm_swap.
Qed.

Lemma sort_perm (l : list A) : Permutation (Js.sort cmp l) l.
Proof.
  induction l as [|x l IH]; simpl.
  - apply perm_nil.
  - apply perm_trans with (x :: Js.sort cmp l).
    + apply insertBy_perm.
    + apply perm_skip. exact IH.
Qed.

Lemma sort_in (l : list A) (x : A) : In x (Js.sort cmp l) <-> In x l.
Proof.
  split; apply Permutation_in.
  - apply sort_perm.
  - apply Permutation_sym, sort_perm.
Qed.

Lemma insertBy_sorted (x : A) (l : list A) :
  StronglySorted before l -> StronglySorted before (Js.insertBy cmp x l).
Proof.
  induction 1 as [|y l Hl IH Hy]; simpl.
  - constructor; constructor.
  - destruct (Js.le (cmp x y) 0) eqn:Hxy.
    + apply le_true_iff in Hxy.
      constructor.
      * constructor; assumption.
      * constructor; [exact Hxy|].
        apply Forall_impl with (P := before y); [|exact Hy].
        intros z Hz. apply before_trans with y; assumption.
    + apply le_false_iff in Hxy.
      assert (before y x) as Hyx.
      { destruct (before_total x y) as [H|H]; [|exact H].
        unfold before in H. exfalso. apply (Qlt_not_le _ _ Hxy H). }
      constructor; [exact IH|].
      apply Forall_forall. intros z Hz.
      apply (Permutation_in _ (insertBy_perm x l)) in Hz.
      destruct Hz as [<- | Hz]; [exact Hyx|].
      rewrite Forall_forall in Hy. apply Hy. exact Hz.
Qed.

Lemma sort_sorted (l : list A) : StronglySorted before (Js.sort cmp l).
Proof.
  induction l as [|x l IH]; simpl.
  - constructor.
  - apply insertBy_sorted. exact IH.
Qed.

Lemma sorted_first (l : list A) (x : A) :
  StronglySorted before l -> nth_error l 0 = Some x ->
  forall y, In y l -> before x y.
Proof.
  intros Hs Hx y Hy. destruct l as [|z l]; [discriminate|].
  injection Hx as ->. inversion Hs as [|? ? _ Hall]; subst.
  destruct Hy as [<- | Hy].
  - destruct (before_total x x); assumption.
  - rewrite Forall_forall in Hall. apply Hall. exact Hy.
Qed.

Lemma sorted_last (l : list A) (x : A) :
  StronglySorted before l -> nth_error l (List.length l - 1) = Some x ->
  forall y, In y l -> before y x.
Proof.
  induction 1 as [|z l Hl IH Hz]; intros Hx y Hy.
  - destruct Hy.
  - destruct l as [|z' l'].
    + simpl in Hx. injection Hx as ->. destruct Hy as [<- | []].
      destruct (before_total x x); assumption.
    + assert (nth_error (z' :: l') (List.length (z' :: l') - 1) = Some x) as Hx'.
      { simpl in Hx |- *. rewrite Nat.sub_0_r in *. exact Hx. }
      destruct Hy as [<- | Hy].
      * rewrite Forall_forall in Hz. apply Hz.
        apply nth_error_In with (n := (List.length (z' :: l') - 1)%nat). exact Hx'.
      * apply IH; assumption.
Qed.

End Sort.

(** ** Maps in insertion order *)

Section MapFacts.

Context {V : Type}.

Lemma mapGet_mapSet (key k : string) (v : V) (m : list (string * V)) :
  Js.mapGet k (Js.mapSet key v m)
  = if String.eqb key k then Some v else Js.mapGet k m.
Proof.
  induction m as [|[k0 v0] m IH]; simpl.
  - destruct (String.eqb key k); reflexivity.
  - destruct (String.eqb k0 key) eqn:E0; simpl.
    + apply String.eqb_eq in E0. subst k0.
      destruct (String.eqb key k); reflexivity.
    + destruct (String.eqb k0 k) eqn:E1.
      * apply String.eqb_eq in E1. subst k0.
        rewrite String.eqb_sym, E0. reflexivity.
      * exact IH.
Qed.

Lemma mapSet_keys (key k : string) (v : V) (m : list (string * V)) :
  In k (map fst (Js.mapSet key v m)) <-> In k (map fst m) \/ k = key.
Proof.
  induction m as [|[k0 v0] m IH]; simpl.
  - intuition congruence.
  - destruct (String.eqb k0 key) eqn:E0; simpl.
    + apply String.eqb_eq in E0. subst k0. intuition congruence.
    + rewrite IH. tauto.
Qed.

Lemma mapSet_NoDup (key : string) (v : V) (m : list (string * V)) :
  NoDup (map fst m) -> NoDup (map fst (Js.mapSet key v m)).
Proof.
  induction m as [|[k0 v0] m IH]; simpl; intro Hnd.
  - constructor; [intros [] | constructor].
  - inversion Hnd as [|? ? Hnotin Hnd']; subst.
    destruct (String.eqb k0 key) eqn:E0; simpl.
    + constructor; assumption.
    + constructor; [|apply IH; exact Hnd'].
      rewrite mapSet_keys. intros [H | H]; [contradiction|].
      subst k0. rewrite String.eqb_refl in E0. discriminate.
Qed.

Lemma mapGet_in (k : string) (v : V) (m : list (string * V)) :
  NoDup (map fst m) -> In (k, v) m -> Js.mapGet k m = Some v.
Proof.
  induction m as [|[k0 v0] m IH]; simpl; intros Hnd Hin; [contradiction|].
  inversion Hnd as [|? ? Hnotin Hnd']; subst.
  destruct Hin as [Heq | Hin].
  - injection Heq as -> ->. rewrite String.eqb_refl. reflexivity.
  - destruct (String.eqb k0 k) eqn:E0.
    + apply String.eqb_eq in E0. subst k0. exfalso. apply Hnotin.
      change k with (fst (k, v)). apply in_map. exact Hin.
    + apply IH; assumption.
Qed.

End MapFacts.

(** ** Tornado rows *)

Lemma resultsOf_app (k : string) (xs ys : list SensitivityResult.t) :
  Spec.resultsOf k (xs ++ ys) = Spec.resultsOf k xs ++ Spec.resultsOf k ys.
Proof. apply filter_app. Qed.

Lemma existingAt_groupInsert (k : string) (r : SensitivityResult.t)
    (grouped : list (string * list SensitivityResult.t)) :
  Sensitivity.existingAt k (Sensitivity.groupInsert r grouped)
  = Sensitivity.existingAt k grouped ++ Spec.resultsOf k [r].
Proof.
  unfold Sensitivity.existingAt at 1, Sensitivity.groupInsert.
  rewrite mapGet_mapSet. unfold Spec.resultsOf. simpl.
  destruct (String.eqb (SensitivityResult.variable r) k) eqn:E.
  - apply String.eqb_eq in E. subst k. reflexivity.
  - rewrite app_nil_r. reflexivity.
Qed.

(** What the grouping loop has built once it has gone through [results],
    starting from a map [grouped]. *)
Lemma grouping_loop (results : list SensitivityResult.t)
    (grouped : list (string * list SensitivityResult.t)) :
  let final :=
    fold_left (fun grouped result => Sensitivity.groupInsert result grouped)
      results grouped in
  (NoDup (map fst grouped) -> NoDup (map fst final))
  /\ (forall k, Sensitivity.existingAt k final
                = Sensitivity.existingAt k grouped ++ Spec.resultsOf k results)
  /\ (forall k, In k (map fst final)
                <-> In k (map fst grouped)
                    \/ In k (map SensitivityResult.variable results)).
Proof.
  revert grouped. induction results as [|r results IH]; intro grouped; simpl.
  - split; [tauto|]. split.
    + intro k. rewrite app_nil_r. reflexivity.
    + intro k. tauto.
  - destruct (IH (Sensitivity.groupInsert r grouped)) as [Hnd [Hat Hkeys]].
    split; [|split].
    + intro H. apply Hnd. apply mapSet_NoDup. exact H.
    + intro k. rewrite Hat, existingAt_groupInsert, <- app_assoc.
      rewrite <- resultsOf_app. reflexivity.
    + intro k. rewrite Hkeys. unfold Sensitivity.groupInsert.
      rewrite mapSet_keys. intuition congruence.
Qed.

Lemma groupByVariable_spec (results : list SensitivityResult.t) :
  NoDup (map fst (Sensitivity.groupByVariable results))
  /\ (forall k rs, In (k, rs) (Sensitivity.groupByVariable results) ->
        rs = Spec.resultsOf k results)
  /\ (forall k, In k (map fst (Sensitivity.groupByVariable results))
                <-> In k (map SensitivityResult.variable results)).
Proof.
  destruct (grouping_loop results []) as [Hnd [Hat Hkeys]].
  fold (Sensitivity.groupByVariable results) in *.
  assert (NoDup (map fst (Sensitivity.groupByVariable results))) as Hnd'
    by (apply Hnd; constructor).
  split; [exact Hnd'|]. split.
  - intros k rs Hin. specialize (Hat k).
    unfold Sensitivity.existingAt in Hat at 1.
    rewrite (mapGet_in k rs _ Hnd' Hin) in Hat. exact Hat.
  - intro k. rewrite Hkeys. simpl. tauto.
Qed.

Lemma variation_order_total (x y : SensitivityResult.t) :
  SensitivityResult.variation x - SensitivityResult.variation y <= 0
  \/ SensitivityResult.variation y - SensitivityResult.variation x <= 0.
Proof.
  destruct (Qlt_le_dec (SensitivityResult.variation y) (SensitivityResult.variation x));
    [right | left]; lra.
Qed.

Lemma variation_order_trans (x y z : SensitivityResult.t) :
  SensitivityResult.variation x - SensitivityResult.variation y <= 0 ->
  SensitivityResult.variation y - SensitivityResult.variation z <= 0 ->
  SensitivityResult.variation x - SensitivityResult.variation z <= 0.
Proof. intros. lra. Qed.

Lemma impact_order_total (x y : TornadoRow.t) :
  TornadoRow.impact y - TornadoRow.impact x <= 0
  \/ TornadoRow.impact x - TornadoRow.impact y <= 0.
Proof.
  destruct (Qlt_le_dec (TornadoRow.impact x) (TornadoRow.impact y)); [right | left]; lra.
Qed.

Lemma impact_order_trans (x y z : TornadoRow.t) :
  TornadoRow.impact y - TornadoRow.impact x <= 0 ->
  TornadoRow.impact z - TornadoRow.impact y <= 0 ->
  TornadoRow.impact z - TornadoRow.impact x <= 0.
Proof. intros. lra. Qed.

(** The callback of [forEach] pushes nothing for a group without a result
    at variation 0, and otherwise one row built from the results at the
    least and at the greatest variation of the group. *)
Lemma tornadoRowOf_cases (k : string) (rs : list SensitivityResult.t) :
  (Sensitivity.tornadoRowOf k rs = []
   /\ forall r, In r rs -> ~ SensitivityResult.variation r == 0)
  \/ (exists low base high,
        In low rs /\ In base rs /\ In high rs
        /\ (forall r, In r rs ->
              SensitivityResult.variation low <= SensitivityResult.variation r
              /\ SensitivityResult.variation r <= SensitivityResult.variation high)
        /\ SensitivityResult.variation base == 0
        /\ Sensitivity.tornadoRowOf k rs
           = [TornadoRow.mk k (SensitivityResult.npv low) (SensitivityResult.npv base)
                (SensitivityResult.npv high)
                (Qabs (SensitivityResult.npv high - SensitivityResult.npv low))]).
Proof.
  unfold Sensitivity.tornadoRowOf.
  set (cmp := fun a b => SensitivityResult.variation a - SensitivityResult.variation b).
  pose proof (sort_sorted cmp variation_order_total variation_order_trans rs) as Hsorted.
  pose proof (sort_in cmp rs) as Hin.
  set (sorted := Js.sort cmp rs) in *.
  destruct (find (fun r => Js.eq (SensitivityResult.variation r) 0) sorted) as [base|] eqn:Hf.
  - right. apply find_some in Hf. destruct Hf as [Hbase Hzero].
    apply Qeq_bool_iff in Hzero.
    destruct (nth_error sorted 0) as [low|] eqn:Hlow.
    2:{ destruct sorted; [destruct Hbase | discriminate]. }
    destruct (nth_error sorted (List.length sorted - 1)) as [high|] eqn:Hhigh.
    2:{ apply nth_error_None in Hhigh. destruct sorted; [destruct Hbase | simpl in Hhigh; lia]. }
    exists low, base, high.
    pose proof (sorted_first cmp variation_order_total sorted low Hsorted Hlow) as Hfirst.
    pose proof (sorted_last cmp variation_order_total sorted high Hsorted Hhigh) as Hlast.
    split; [apply Hin; apply nth_error_In with (n := 0%nat); exact Hlow|].
    split; [apply Hin; exact Hbase|].
    split.
    { apply Hin. apply nth_error_In with (n := (List.length sorted - 1)%nat). exact Hhigh. }
    split.
    { intros r Hr. apply Hin in Hr.
      pose proof (Hfirst r Hr) as Hge. pose proof (Hlast r Hr) as Hle.
      unfold cmp in Hge, Hle. split; lra. }
    split; [exact Hzero | reflexivity].
  - left. split; [reflexivity|].
    intros r Hr Hzero. apply Hin in Hr.
    pose proof (find_none _ _ Hf r Hr) as Hnone. cbv beta in Hnone.
    apply Qeq_bool_iff in Hzero. unfold Js.eq in Hnone. congruence.
Qed.

Lemma tornadoRowOf_variable (k : string) (rs : list SensitivityResult.t) (row : TornadoRow.t) :
  In row (Sensitivity.tornadoRowOf k rs) -> TornadoRow.variable row = k.
Proof.
  destruct (tornadoRowOf_cases k rs) as [[Hnil _] | [low [base [high H]]]].
  - rewrite Hnil. intros [].
  - destruct H as [_ [_ [_ [_ [_ ->]]]]]. intros [<- | []]. reflexivity.
Qed.

Lemma tornado_rows_NoDup (grouped : list (string * list SensitivityResult.t)) :
  NoDup (map fst grouped) ->
  NoDup
    (map TornadoRow.variable
       (flat_map (fun g => Sensitivity.tornadoRowOf (fst g) (snd g)) grouped)).
Proof.
  induction grouped as [|[k rs] grouped IH]; simpl; intro Hnd.
  - constructor.
  - inversion Hnd as [|? ? Hnotin Hnd']; subst.
    rewrite map_app.
    destruct (tornadoRowOf_cases k rs) as [[Hnil _] | [low [base [high H]]]].
    + rewrite Hnil. simpl. apply IH. exact Hnd'.
    + destruct H as [_ [_ [_ [_ [_ ->]]]]]. simpl.
      constructor; [|apply IH; exact Hnd'].
      intro Hin. apply Hnotin.
      apply in_map_iff in Hin. destruct Hin as [row [Hvar Hrow]].
      apply in_flat_map in Hrow. destruct Hrow as [[k' rs'] [Hg Hrow]].
      apply tornadoRowOf_variable in Hrow. simpl in Hrow.
      rewrite <- Hvar, Hrow. change k' with (fst (k', rs')). apply in_map. exact Hg.
Qed.

Lemma StronglySorted_impl {A : Type} (R S : A -> A -> Prop) (l : list A) :
  (forall x y, R x y -> S x y) -> StronglySorted R l -> StronglySorted S l.
Proof.
  intros HRS. induction 1 as [|x l Hl IH Hx]; constructor.
  - exact IH.
  - apply Forall_impl with (P := R x); [apply HRS | exact Hx].
Qed.

(** C4, counterexample.  For a variable whose NPV falls as the variable
    grows, the one row emitted takes [lowNPV] = 120 from the result at
    variation -10 and [highNPV] = 80 from the result at variation +10: the
    least NPV of the variable is 80, not 120. *)
Lemma tornado_low_is_not_least :
  Sensitivity.generateTornadoData Cases.costSweep
  = [TornadoRow.mk "costs" 120 100 80 (Qabs (80 - 120))]
  /\ ~ Spec.tornadoOf Cases.costSweep (Sensitivity.generateTornadoData Cases.costSweep).
Proof.
  split; [reflexivity|].
  intros [_ [_ [Hrows _]]].
  change (Sensitivity.generateTornadoData Cases.costSweep)
    with [TornadoRow.mk "costs" 120 100 80 (Qabs (80 - 120))] in Hrows.
  inversion Hrows as [|row rows [[_ Hleast] _] _]; subst.
  specialize (Hleast 80). simpl in Hleast.
  assert (120 <= 80) as Habs by (apply Hleast; right; right; left; reflexivity).
  revert Habs. vm_compute. intro H. apply H. reflexivity.
Qed.

(** C4, amended.  [generateTornadoData] emits one row for every variable
    that has a result at variation 0, and none for the others; the row
    takes [lowNPV] from a result at the least variation of the variable,
    [highNPV] from a result at its greatest variation and [baseNPV] from a
    result at variation 0; [impact] is the distance between [highNPV] and
    [lowNPV]; the rows come in descending order of [impact]. *)
Theorem tornado_rows_by_variation (results : list SensitivityResult.t) :
  let rows := Sensitivity.generateTornadoData results in
  NoDup (map TornadoRow.variable rows)
  /\ (forall v,
        In v (map TornadoRow.variable rows)
        <-> exists r, In r results /\ SensitivityResult.variable r = v
                      /\ SensitivityResult.variation r == 0)
  /\ Forall
       (fun row =>
          let group := Spec.resultsOf (TornadoRow.variable row) results in
          exists low base high,
            In low group /\ In base group /\ In high group
            /\ (forall r, In r group ->
                  SensitivityResult.variation low <= SensitivityResult.variation r
                  /\ SensitivityResult.variation r <= SensitivityResult.variation high)
            /\ SensitivityResult.variation base == 0
            /\ TornadoRow.lowNPV row = SensitivityResult.npv low
            /\ TornadoRow.baseNPV row = SensitivityResult.npv base
            /\ TornadoRow.highNPV row = SensitivityResult.npv high
            /\ TornadoRow.impact row
               = Qabs (TornadoRow.highNPV row - TornadoRow.lowNPV row))
       rows
  /\ StronglySorted (fun a b => TornadoRow.impact b <= TornadoRow.impact a) rows.
Proof.
  intro rows. subst rows. unfold Sensitivity.generateTornadoData.
  set (cmp := fun a b => TornadoRow.impact b - TornadoRow.impact a).
  set (rows0 :=
         flat_map (fun g => Sensitivity.tornadoRowOf (fst g) (snd g))
           (Sensitivity.groupByVariable results)).
  destruct (groupByVariable_spec results) as [Hnd [Hgroups Hkeys]].
  pose proof (sort_perm cmp rows0) as Hperm.
  assert (Hfrom : forall row, In row rows0 ->
            In row
              (Sensitivity.tornadoRowOf (TornadoRow.variable row)
                 (Spec.resultsOf (TornadoRow.variable row) results))).
  { intros row Hrow. apply in_flat_map in Hrow. destruct Hrow as [[k rs] [Hg Hrow]].
    simpl in Hrow. pose proof (tornadoRowOf_variable k rs row Hrow) as Hk.
    rewrite Hk, <- (Hgroups k rs Hg). exact Hrow. }
  split; [|split; [|split]].
  - apply Permutation_NoDup with (l := map TornadoRow.variable rows0).
    + apply Permutation_map, Permutation_sym, Hperm.
    + apply tornado_rows_NoDup. exact Hnd.
  - intro v. split.
    + intro Hv. apply in_map_iff in Hv. destruct Hv as [row [Hvar Hrow]].
      apply (Permutation_in _ Hperm) in Hrow. apply Hfrom in Hrow.
      rewrite Hvar in Hrow.
      destruct (tornadoRowOf_cases v (Spec.resultsOf v results))
        as [[Hnil _] | [low [base [high [_ [Hbase [_ [_ [Hzero _]]]]]]]]].
      * rewrite Hnil in Hrow. destruct Hrow.
      * apply filter_In in Hbase. destruct Hbase as [Hin Hname].
        apply String.eqb_eq in Hname. exists base. repeat split; assumption.
    + intros [r [Hr [Hname Hzero]]].
      assert (In v (map fst (Sensitivity.groupByVariable results))) as Hkey.
      { apply Hkeys. rewrite <- Hname. apply in_map. exact Hr. }
      apply in_map_iff in Hkey. destruct Hkey as [[k rs] [Hk Hg]]. simpl in Hk. subst k.
      pose proof (Hgroups v rs Hg) as Hrs.
      destruct (tornadoRowOf_cases v rs)
        as [[_ Hnone] | [low [base [high [_ [_ [_ [_ [_ Hrow]]]]]]]]].
      * exfalso. apply (Hnone r); [|exact Hzero].
        rewrite Hrs. apply filter_In. split; [exact Hr|].
        apply String.eqb_eq. exact Hname.
      * apply in_map_iff.
        exists (TornadoRow.mk v (SensitivityResult.npv low) (SensitivityResult.npv base)
                  (SensitivityResult.npv high)
                  (Qabs (SensitivityResult.npv high - SensitivityResult.npv low))).
        split; [reflexivity|].
        apply (Permutation_in _ (Permutation_sym Hperm)).
        apply in_flat_map. exists (v, rs). split; [exact Hg|].
        simpl. rewrite Hrow. left. reflexivity.
  - apply Forall_forall. intros row Hrow.
    apply (Permutation_in _ Hperm) in Hrow. apply Hfrom in Hrow.
    cbv zeta.
    destruct (tornadoRowOf_cases (TornadoRow.variable row)
                (Spec.resultsOf (TornadoRow.variable row) results))
      as [[Hnil _] | [low [base [high [Hlow [Hbase [Hhigh [Hbounds [Hzero Heq]]]]]]]]].
    + rewrite Hnil in Hrow. destruct Hrow.
    + rewrite Heq in Hrow. destruct Hrow as [Hrow | []].
      exists low, base, high.
      repeat split; try assumption; try (apply Hbounds; assumption);
        rewrite <- Hrow; reflexivity.
  - apply StronglySorted_impl
      with (R := fun a b => TornadoRow.impact b - TornadoRow.impact a <= 0).
    + intros x y Hxy. lra.
    + apply (sort_sorted cmp).
      * intros x y. apply impact_order_total.
      * intros x y z. apply impact_order_trans.
Qed.

(** ** Indicators of equal series *)

Lemma reduce_from_rel {B : Type} (R : B -> B -> Prop) (f g : B -> Q -> Z -> B) :
  (forall a a' x x' t, R a a' -> x == x' -> R (f a x t) (g a' x' t)) ->
  forall xs xs' t a a',
    Forall2 Qeq xs xs' -> R a a' ->
    R (Js.reduce_from f xs t a) (Js.reduce_from g xs' t a').
Proof.
  intros Hstep xs xs' t a a' Hxs. revert t a a'.
  induction Hxs as [|x x' xs xs' Hx Hxs IH]; intros t a a' Ha; simpl.
  - exact Ha.
  - apply IH. apply Hstep; assumption.
Qed.

Lemma calculateNPV_equal (cashFlows cashFlows' : list Q) (discountRate discountRate' : Q) :
  Forall2 Qeq cashFlows cashFlows' -> discountRate == discountRate' ->
  Indicators.calculateNPV cashFlows discountRate
  == Indicators.calculateNPV cashFlows' discountRate'.
Proof.
  intros Hcf Hr. unfold Indicators.calculateNPV, Js.reduce.
  apply (reduce_from_rel Qeq); [|exact Hcf|reflexivity].
  intros a a' x x' t Ha Hx. unfold Js.Math_pow. rewrite Ha, Hx, Hr. reflexivity.
Qed.

Lemma irrSums_equal (cashFlows cashFlows' : list Q) (rate rate' : Q) :
  Forall2 Qeq cashFlows cashFlows' -> rate == rate' ->
  fst (Indicators.irrSums cashFlows rate) == fst (Indicators.irrSums cashFlows' rate')
  /\ snd (Indicators.irrSums cashFlows rate) == snd (Indicators.irrSums cashFlows' rate').
Proof.
  intros Hcf Hr. unfold Indicators.irrSums, Js.reduce.
  apply (reduce_from_rel (fun p q => fst p == fst q /\ snd p == snd q));
    [|exact Hcf|split; reflexivity].
  intros a a' x x' t [Ha1 Ha2] Hx. unfold Js.Math_pow. cbn [fst snd]. split.
  - rewrite Ha1, Hx, Hr. reflexivity.
  - destruct (0 <? t)%Z.
    + rewrite Ha2, Hx, Hr. reflexivity.
    + exact Ha2.
Qed.

Lemma lt_equal (a a' b b' : Q) : a == a' -> b == b' -> Js.lt a b = Js.lt a' b'.
Proof. intros Ha Hb. unfold Js.lt. rewrite Ha, Hb. reflexivity. Qed.

Lemma irrLoop_equal (cashFlows cashFlows' : list Q) (n : nat) (rate rate' : Q) :
  Forall2 Qeq cashFlows cashFlows' -> rate == rate' ->
  Indicators.irrLoop cashFlows n rate == Indicators.irrLoop cashFlows' n rate'.
Proof.
  intro Hcf. revert rate rate'.
  induction n as [|n IH]; intros rate rate' Hr; cbn [Indicators.irrLoop].
  - rewrite Hr. reflexivity.
  - destruct (irrSums_equal cashFlows cashFlows' rate rate' Hcf Hr) as [Hnpv Hd].
    destruct (Indicators.irrSums cashFlows rate) as [npv d].
    destruct (Indicators.irrSums cashFlows' rate') as [npv' d'].
    cbn [fst snd] in Hnpv, Hd.
    assert (rate - npv / d == rate' - npv' / d') as Hnew
      by (rewrite Hr, Hnpv, Hd; reflexivity).
    rewrite (lt_equal (Js.Math_abs d) (Js.Math_abs d')
               Indicators.derivativeGuard Indicators.derivativeGuard);
      [|unfold Js.Math_abs; rewrite Hd; reflexivity|reflexivity].
    destruct (Js.lt (Js.Math_abs d') Indicators.derivativeGuard).
    + rewrite Hr. reflexivity.
    + rewrite (lt_equal (Js.Math_abs (rate - npv / d - rate))
                 (Js.Math_abs (rate' - npv' / d' - rate'))
                 Indicators.tolerance Indicators.tolerance);
        [|unfold Js.Math_abs; rewrite Hnew, Hr; reflexivity|reflexivity].
      destruct (Js.lt _ Indicators.tolerance).
      * rewrite Hnew. reflexivity.
      * apply IH. exact Hnew.
Qed.

Lemma calculateIRR_equal (cashFlows cashFlows' : list Q) (guess : Q) :
  Forall2 Qeq cashFlows cashFlows' ->
  Indicators.calculateIRR cashFlows guess == Indicators.calculateIRR cashFlows' guess.
Proof.
  intro Hcf. apply irrLoop_equal; [exact Hcf | reflexivity].
Qed.

(** ** The series of the projection *)

Lemma fold_left_sum {A : Type} (step : Q -> A -> Q) (term : A -> Q) :
  (forall acc x, step acc x == acc + term x) ->
  forall xs acc, fold_left step xs acc == acc + Js.sum_by term xs.
Proof.
  intros Hstep xs. induction xs as [|x xs IH]; intro acc; simpl.
  - unfold Js.sum_by. simpl. ring.
  - rewrite IH, Hstep, sum_by_cons. ring.
Qed.


Lemma sum_by_equal {A : Type} (term term' : A -> Q) (xs : list A) :
  (forall x, term x == term' x) -> Js.sum_by term xs == Js.sum_by term' xs.
Proof.
  intro Hterm. induction xs as [|x xs IH].
  - reflexivity.
  - rewrite !sum_by_cons, IH, Hterm. reflexivity.
Qed.







Lemma filter_year_adjustInvestments (delta : Q) (year : Z) (investments : list InvestmentData.t) :
  filter (fun inv => (InvestmentData.year inv =? year)%Z)
    (Spec.adjustInvestments delta investments)
  = Spec.adjustInvestments delta
      (filter (fun inv => (InvestmentData.year inv =? year)%Z) investments).
Proof.
  induction investments as [|i investments IH]; simpl; [reflexivity|].
  destruct (InvestmentData.year i =? year)%Z; simpl; rewrite IH; reflexivity.
Qed.


Lemma rowOf_operatingInflow (m : ProjectModel.t) (cumulativeCashFlow : Q) (year : Z) :
  CashFlowYear.operatingInflow (Terms.rowOf m cumulativeCashFlow year)
  = Terms.revenueIn m year.
Proof. reflexivity. Qed.










(** ** The sensitivity driver and the projection *)



Section PlainModel.

(** A model without financing, without tax and with all its capital
    outlay in year 0. *)
Variable m : ProjectModel.t.

Hypothesis construction_nonneg :
  (0 <= ProjectData.constructionYears (ProjectModel.project m))%Z.
Hypothesis operation_nonneg :
  (0 <= ProjectData.operationYears (ProjectModel.project m))%Z.
Hypothesis no_tax : ProjectData.taxRate (ProjectModel.project m) == 0.
Hypothesis no_financing : ProjectModel.financing m = [].
Hypothesis outlay_in_year0 :
  Forall (fun inv => InvestmentData.year inv = 0%Z) (ProjectModel.investments m).

Let total : Z :=
  (ProjectData.constructionYears (ProjectModel.project m)
   + ProjectData.operationYears (ProjectModel.project m))%Z.

Let years : list Z := Js.upfrom 1 (Z.to_nat total).

Let inputs : ProjectInputs.t := Analysis.sensitivityInputs m.










End PlainModel.




(** * Further properties of the calculation services *)

(** ** Depreciation over the life of an asset *)

Lemma upfrom_succ (lo : Z) (n : nat) :
  Js.upfrom lo (S n) = Js.upfrom lo n ++ [(lo + Z.of_nat n)%Z].
Proof.
  replace (S n) with (n + 1)%nat by lia. rewrite upfrom_app. reflexivity.
Qed.

Lemma range_split (lo hi1 hi2 : Z) :
  (lo - 1 <= hi1 <= hi2)%Z ->
  Js.range lo hi2 = Js.range lo hi1 ++ Js.range (hi1 + 1) hi2.
Proof.
  intro H. unfold Js.range.
  replace (Z.to_nat (hi2 - lo + 1))
    with (Z.to_nat (hi1 - lo + 1) + Z.to_nat (hi2 - (hi1 + 1) + 1))%nat by lia.
  rewrite upfrom_app. do 2 f_equal. lia.
Qed.

Lemma sum_by_constant {A : Type} (f : A -> Q) (c : Q) (xs : list A) :
  (forall x, In x xs -> f x == c) ->
  Js.sum_by f xs == inject_Z (Z.of_nat (List.length xs)) * c.
Proof.
  induction xs as [|x xs IH]; intro H.
  - unfold Js.sum_by. simpl. ring.
  - rewrite sum_by_cons, IH by (intros y Hy; apply H; right; exact Hy).
    rewrite (H x) by (left; reflexivity).
    cbn [List.length]. rewrite Nat2Z.inj_succ. unfold Z.succ.
    rewrite inject_Z_plus. ring.
Qed.

Lemma sum_by_zero {A : Type} (f : A -> Q) (xs : list A) :
  (forall x, In x xs -> f x == 0) -> Js.sum_by f xs == 0.
Proof.
  intro H. rewrite (sum_by_constant f 0 xs H). ring.
Qed.

Lemma straight_line_charge_in_life
    (cost salvageValue : Q) (usefulLife : Z) (rate : Q) (year purchaseYear : Z) :
  (purchaseYear <= year < purchaseYear + usefulLife)%Z ->
  Depreciation.calculateDepreciation cost salvageValue usefulLife rate
    Depreciation.straight_line year purchaseYear
  == (cost - salvageValue) / inject_Z usefulLife.
Proof.
  intro H. unfold Depreciation.calculateDepreciation, Depreciation.straightLineDepreciation.
  assert ((year - purchaseYear <? 0)%Z = false) as -> by (apply Z.ltb_ge; lia).
  assert ((usefulLife <=? year - purchaseYear)%Z = false) as -> by (apply Z.leb_gt; lia).
  assert ((usefulLife <=? 0)%Z = false) as -> by (apply Z.leb_gt; lia).
  reflexivity.
Qed.

Lemma charge_after_life
    (cost salvageValue : Q) (usefulLife : Z) (rate : Q)
    (method : Depreciation.DepreciationMethod) (year purchaseYear : Z) :
  (purchaseYear + usefulLife <= year)%Z ->
  Depreciation.calculateDepreciation cost salvageValue usefulLife rate method
    year purchaseYear = 0.
Proof.
  intro H. unfold Depreciation.calculateDepreciation.
  assert ((usefulLife <=? year - purchaseYear)%Z = true) as -> by (apply Z.leb_le; lia).
  rewrite orb_true_r. reflexivity.
Qed.

(** X1. Straight-line depreciation writes an asset down completely: over
    the years of the useful life the charges add up to
    [cost - salvageValue], and from the last of those years on the
    accumulated depreciation stays at that amount. *)
Theorem straight_line_writes_down_fully
    (cost salvageValue : Q) (usefulLife : Z) (rate : Q) (purchaseYear year : Z) :
  (1 <= usefulLife)%Z ->
  (purchaseYear + usefulLife - 1 <= year)%Z ->
  Js.sum_by
    (fun y =>
       Depreciation.calculateDepreciation cost salvageValue usefulLife rate
         Depreciation.straight_line y purchaseYear)
    (Js.range purchaseYear (purchaseYear + usefulLife - 1))
  == cost - salvageValue
  /\ Depreciation.calculateAccumulatedDepreciation cost salvageValue usefulLife rate
       Depreciation.straight_line year purchaseYear
     == cost - salvageValue.
Proof.
  intros Hlife Hyear.
  set (charge := fun y =>
         Depreciation.calculateDepreciation cost salvageValue usefulLife rate
           Depreciation.straight_line y purchaseYear).
  assert (Hfull :
    Js.sum_by charge (Js.range purchaseYear (purchaseYear + usefulLife - 1))
    == cost - salvageValue).
  { rewrite (sum_by_constant charge ((cost - salvageValue) / inject_Z usefulLife)).
    - rewrite length_range.
      replace (purchaseYear + usefulLife - 1 - purchaseYear + 1)%Z with usefulLife by lia.
      rewrite Z2Nat.id by lia. field. apply inject_Z_nonzero. lia.
    - intros y Hy. apply in_range in Hy. apply straight_line_charge_in_life. lia. }
  split; [exact Hfull|].
  unfold Depreciation.calculateAccumulatedDepreciation.
  rewrite fold_sum_shift. fold charge.
  pose proof (range_split purchaseYear (purchaseYear + usefulLife - 1) year) as Hmore.
  set (more := Js.range (purchaseYear + usefulLife - 1 + 1) year) in Hmore.
  assert (forall y, In y more -> (purchaseYear + usefulLife <= y)%Z) as Hlate.
  { intros y Hy. apply in_range in Hy. lia. }
  rewrite Hmore by lia.
  rewrite sum_by_app, Hfull.
  rewrite (sum_by_zero charge more).
  - unfold Js.Math_min. setoid_replace (0 + (cost - salvageValue + 0)) with (cost - salvageValue) by ring.
    apply Q.min_id.
  - intros y Hy. unfold charge. rewrite charge_after_life by (apply Hlate; exact Hy).
    reflexivity.
Qed.

Lemma straight_line_writes_down_fully_witness :
  Js.sum_by
    (fun y =>
       Depreciation.calculateDepreciation 10000 1000 5 10 Depreciation.straight_line y 1)
    (Js.range 1 (1 + 5 - 1))
  == 10000 - 1000
  /\ Depreciation.calculateAccumulatedDepreciation 10000 1000 5 10
       Depreciation.straight_line 20 1
     == 10000 - 1000.
Proof.
  apply (straight_line_writes_down_fully 10000 1000 5 10 1 20); lia.
Defined.

(** The declining balance, one year on: the loop run one more year is one
    more step from where it stood. *)
Lemma bookValueLoop_succ (n : nat) (cost salvageValue rate : Q) :
  0 <= salvageValue * rate ->
  Depreciation.bookValueLoop (S n) cost salvageValue rate
  = (let bookValue := Depreciation.bookValueLoop n cost salvageValue rate in
     if Js.le (bookValue - bookValue * rate) salvageValue then salvageValue
     else bookValue - bookValue * rate).
Proof.
  intro Hsr. revert cost. induction n as [|n IH]; intro cost.
  - reflexivity.
  - change (Depreciation.bookValueLoop (S (S n)) cost salvageValue rate)
      with (if Js.le (cost - cost * rate) salvageValue then salvageValue
            else Depreciation.bookValueLoop (S n) (cost - cost * rate) salvageValue rate).
    change (Depreciation.bookValueLoop (S n) cost salvageValue rate)
      with (if Js.le (cost - cost * rate) salvageValue then salvageValue
            else Depreciation.bookValueLoop n (cost - cost * rate) salvageValue rate).
    destruct (Js.le (cost - cost * rate) salvageValue) eqn:Hbreak.
    + cbv zeta.
      assert (Js.le (salvageValue - salvageValue * rate) salvageValue = true) as ->
        by (apply le_true_iff; lra).
      reflexivity.
    + apply IH.
Qed.

Lemma bookValueLoop_floor (n : nat) (cost salvageValue rate : Q) :
  salvageValue <= cost ->
  salvageValue <= Depreciation.bookValueLoop n cost salvageValue rate.
Proof.
  revert cost. induction n as [|n IH]; intros cost Hc; simpl.
  - exact Hc.
  - destruct (Js.le (cost - cost * rate) salvageValue) eqn:Hbreak.
    + apply Qle_refl.
    + apply IH. apply le_false_iff in Hbreak. lra.
Qed.

(** The charge of a year is the fall of the book value over the year. *)
Lemma declining_charge_is_fall
    (cost salvageValue rate : Q) (usefulLife : Z) (n : nat) :
  0 <= salvageValue -> salvageValue <= cost -> 0 <= rate ->
  (Z.of_nat n < usefulLife)%Z ->
  Depreciation.decliningBalanceDepreciation cost salvageValue rate
    (Z.of_nat n + 1) usefulLife
  == Depreciation.bookValueLoop n cost salvageValue (rate / 100)
     - Depreciation.bookValueLoop (S n) cost salvageValue (rate / 100).
Proof.
  intros Hs Hc Hr Hlife.
  assert (0 <= rate / 100) as Hr' by (apply Qle_shift_div_l; lra).
  assert (0 <= salvageValue * (rate / 100)) as Hsr by nra.
  unfold Depreciation.decliningBalanceDepreciation.
  assert ((usefulLife <? Z.of_nat n + 1)%Z = false) as -> by (apply Z.ltb_ge; lia).
  replace (Z.to_nat (Z.of_nat n + 1 - 1)) with n by lia.
  rewrite (bookValueLoop_succ n cost salvageValue (rate / 100) Hsr). cbv zeta.
  pose proof (bookValueLoop_floor n cost salvageValue (rate / 100) Hc) as Hfloor.
  set (bv := Depreciation.bookValueLoop n cost salvageValue (rate / 100)) in *.
  destruct (Js.le bv salvageValue) eqn:Hat.
  - apply le_true_iff in Hat.
    assert (Js.le (bv - bv * (rate / 100)) salvageValue = true) as ->
      by (apply le_true_iff; nra).
    lra.
  - apply le_false_iff in Hat. unfold Js.Math_min.
    destruct (Js.le (bv - bv * (rate / 100)) salvageValue) eqn:Hbreak.
    + apply le_true_iff in Hbreak. rewrite Q.min_r by lra. reflexivity.
    + apply le_false_iff in Hbreak. rewrite Q.min_l by lra. ring.
Qed.

Lemma declining_charges_sum
    (cost salvageValue rate : Q) (usefulLife purchaseYear : Z) (n : nat) :
  0 <= salvageValue -> salvageValue <= cost -> 0 <= rate ->
  Js.sum_by
    (fun y =>
       Depreciation.calculateDepreciation cost salvageValue usefulLife rate
         Depreciation.declining_balance y purchaseYear)
    (Js.upfrom purchaseYear n)
  == cost
     - Depreciation.bookValueLoop (Nat.min n (Z.to_nat usefulLife)) cost salvageValue
         (rate / 100).
Proof.
  intros Hs Hc Hr. induction n as [|n IH].
  - unfold Js.sum_by. simpl. ring.
  - rewrite upfrom_succ, sum_by_app, IH, sum_by_cons.
    unfold Js.sum_by at 1. cbn [fold_left].
    unfold Depreciation.calculateDepreciation.
    replace (purchaseYear + Z.of_nat n - purchaseYear)%Z with (Z.of_nat n) by lia.
    assert ((Z.of_nat n <? 0)%Z = false) as -> by (apply Z.ltb_ge; lia).
    cbn [orb].
    destruct (usefulLife <=? Z.of_nat n)%Z eqn:Hlife.
    + apply Z.leb_le in Hlife.
      replace (Nat.min (S n) (Z.to_nat usefulLife)) with (Nat.min n (Z.to_nat usefulLife))
        by lia.
      ring.
    + apply Z.leb_gt in Hlife.
      rewrite (declining_charge_is_fall cost salvageValue rate usefulLife n Hs Hc Hr Hlife).
      replace (Nat.min (S n) (Z.to_nat usefulLife)) with (S n) by lia.
      replace (Nat.min n (Z.to_nat usefulLife)) with n by lia.
      ring.
Qed.

(** X2. Under the declining-balance method the book value never falls
    below the salvage value, and the accumulated depreciation of an asset
    of the data model is exactly what the book value has lost: the cost
    minus the book value after the years depreciated so far (at most the
    useful life).  The clamp to [cost - salvageValue] is never needed. *)
Theorem declining_balance_accumulates_book_value_loss
    (cost salvageValue : Q) (usefulLife : Z) (rate : Q) (purchaseYear year : Z) :
  0 <= salvageValue -> salvageValue <= cost -> 0 <= rate ->
  let years := Z.to_nat (Z.min (year - purchaseYear + 1) usefulLife) in
  let bookValue := Depreciation.bookValueLoop years cost salvageValue (rate / 100) in
  salvageValue <= bookValue
  /\ Depreciation.calculateAccumulatedDepreciation cost salvageValue usefulLife rate
       Depreciation.declining_balance year purchaseYear
     == cost - bookValue.
Proof.
  intros Hs Hc Hr years bookValue.
  pose proof (bookValueLoop_floor years cost salvageValue (rate / 100) Hc) as Hfloor.
  fold bookValue in Hfloor. split; [exact Hfloor|].
  unfold Depreciation.calculateAccumulatedDepreciation.
  rewrite fold_sum_shift. unfold Js.range.
  rewrite (declining_charges_sum cost salvageValue rate usefulLife purchaseYear
             (Z.to_nat (year - purchaseYear + 1)) Hs Hc Hr).
  replace (Nat.min (Z.to_nat (year - purchaseYear + 1)) (Z.to_nat usefulLife))
    with years by (subst years; lia).
  fold bookValue. unfold Js.Math_min. rewrite Q.min_l by lra. ring.
Qed.

Lemma declining_balance_accumulates_book_value_loss_witness :
  1000 <= Depreciation.bookValueLoop 3 10000 1000 (20 / 100)
  /\ Depreciation.calculateAccumulatedDepreciation 10000 1000 10 20
       Depreciation.declining_balance 3 1
     == 10000 - Depreciation.bookValueLoop 3 10000 1000 (20 / 100).
Proof.
  assert (0 <= 1000) as Hs by lra.
  assert (1000 <= 10000) as Hc by lra.
  assert (0 <= 20) as Hr by lra.
  exact (declining_balance_accumulates_book_value_loss 10000 1000 10 20 1 3 Hs Hc Hr).
Defined.

(** ** The rows of an amortisation schedule *)

Section ScheduleRows.

Variables (rate principalPayment : Q) (gracePeriod : Z).

Let loop := Financing.scheduleLoop rate principalPayment gracePeriod.

Lemma scheduleLoop_row (before : list Z) (y : Z) (after : list Z) (balance : Q) :
  exists row,
    nth_error (loop (before ++ y :: after) balance) (List.length before) = Some row
    /\ Financing.year row = y
    /\ Financing.beginningBalance row
       == balance - Js.sum_by Financing.principal (loop before balance)
    /\ Financing.principal row = (if (gracePeriod <? y)%Z then principalPayment else 0)
    /\ Financing.interest row = Financing.beginningBalance row * rate
    /\ Financing.payment row = Financing.principal row + Financing.interest row
    /\ Financing.endingBalance row
       = Qmax 0 (Financing.beginningBalance row - Financing.principal row).
Proof.
  revert balance. induction before as [|x before IH]; intro balance.
  - eexists. split; [reflexivity|]. cbn.
    split; [reflexivity|]. split; [unfold Js.sum_by; simpl; ring|].
    repeat split.
  - destruct (IH (balance - (if (gracePeriod <? x)%Z then principalPayment else 0)))
      as [row [Hnth [Hy [Hb Hrest]]]].
    exists row. split; [exact Hnth|]. split; [exact Hy|]. split; [|exact Hrest].
    rewrite Hb. unfold loop at 2. cbn [Financing.scheduleLoop].
    rewrite sum_by_cons. cbn [Financing.principal]. fold loop. ring.
Qed.

End ScheduleRows.

Lemma schedule_row (principal annualRate : Q) (termYears gracePeriod : Z) (k : nat) :
  (0 <= gracePeriod)%Z -> (k < Z.to_nat termYears)%nat ->
  let principalPayment := principal / inject_Z (termYears - gracePeriod) in
  exists row,
    nth_error
      (Financing.calculateAmortizationSchedule principal annualRate termYears gracePeriod)
      k = Some row
    /\ Financing.year row = (Z.of_nat k + 1)%Z
    /\ Financing.beginningBalance row
       == principal - inject_Z (Z.max 0 (Z.of_nat k - gracePeriod)) * principalPayment
    /\ Financing.principal row
       = (if (gracePeriod <? Z.of_nat k + 1)%Z then principalPayment else 0)
    /\ Financing.interest row = Financing.beginningBalance row * (annualRate / 100)
    /\ Financing.payment row = Financing.principal row + Financing.interest row
    /\ Financing.endingBalance row
       = Qmax 0 (Financing.beginningBalance row - Financing.principal row).
Proof.
  intros Hg Hk pp. unfold Financing.calculateAmortizationSchedule, Js.range.
  replace (Z.to_nat (termYears - 1 + 1)) with (k + S (Z.to_nat termYears - k - 1))%nat by lia.
  rewrite upfrom_app. cbn [Js.upfrom]. fold pp.
  destruct (scheduleLoop_row (annualRate / 100) pp gracePeriod (Js.upfrom 1 k)
              (1 + Z.of_nat k)
              (Js.upfrom (1 + Z.of_nat k + 1) (Z.to_nat termYears - k - 1)) principal)
    as [row [Hnth [Hy [Hb [Hp Hrest]]]]].
  rewrite length_upfrom in Hnth.
  exists row. split; [exact Hnth|].
  split; [rewrite Hy; lia|].
  split.
  - rewrite Hb, scheduleLoop_paid by lia.
    replace (1 + Z.of_nat k - 1 - gracePeriod)%Z with (Z.of_nat k - gracePeriod)%Z by lia.
    reflexivity.
  - split; [|exact Hrest].
    rewrite Hp. replace (1 + Z.of_nat k)%Z with (Z.of_nat k + 1)%Z by lia. reflexivity.
Qed.

(** X3. The balance a loan opens a year with is the principal less the
    instalments of the years before: row [k + 1] of the schedule starts
    from [principal - max(0, k - gracePeriod) * principal / (termYears -
    gracePeriod)], charges interest on that balance, and its payment is
    the principal repaid plus that interest. *)
Theorem amortization_opening_balance
    (principal annualRate : Q) (termYears gracePeriod : Z) (k : nat) :
  (0 <= gracePeriod)%Z -> (k < Z.to_nat termYears)%nat ->
  exists row,
    nth_error
      (Financing.calculateAmortizationSchedule principal annualRate termYears gracePeriod)
      k = Some row
    /\ Financing.year row = (Z.of_nat k + 1)%Z
    /\ Financing.beginningBalance row
       == principal
          - inject_Z (Z.max 0 (Z.of_nat k - gracePeriod))
            * (principal / inject_Z (termYears - gracePeriod))
    /\ Financing.interest row == Financing.beginningBalance row * (annualRate / 100)
    /\ Financing.payment row == Financing.principal row + Financing.interest row.
Proof.
  intros Hg Hk.
  destruct (schedule_row principal annualRate termYears gracePeriod k Hg Hk)
    as [row [Hnth [Hy [Hb [_ [Hi [Hp _]]]]]]].
  exists row. split; [exact Hnth|]. split; [exact Hy|]. split; [exact Hb|].
  split; [rewrite Hi | rewrite Hp]; reflexivity.
Qed.

Lemma amortization_opening_balance_witness :
  exists row,
    nth_error (Financing.calculateAmortizationSchedule 100000 10 5 2) 3 = Some row
    /\ Financing.year row = 4%Z
    /\ Financing.beginningBalance row
       == 100000 - inject_Z (Z.max 0 (3 - 2)) * (100000 / inject_Z (5 - 2))
    /\ Financing.interest row == Financing.beginningBalance row * (10 / 100)
    /\ Financing.payment row == Financing.principal row + Financing.interest row.
Proof.
  assert (0 <= 2)%Z as Hg by lia.
  assert (3 < Z.to_nat 5)%nat as Hk by (cbn; lia).
  exact (amortization_opening_balance 100000 10 5 2 3 Hg Hk).
Defined.

Lemma instalment_nonneg (principal : Q) (termYears gracePeriod : Z) :
  0 <= principal -> (gracePeriod < termYears)%Z ->
  0 <= principal / inject_Z (termYears - gracePeriod)
  /\ principal / inject_Z (termYears - gracePeriod) * inject_Z (termYears - gracePeriod)
     == principal.
Proof.
  intros Hp Hlt.
  assert (0 < inject_Z (termYears - gracePeriod)) as Hpos.
  { change 0 with (inject_Z 0). rewrite <- Zlt_Qlt. lia. }
  split.
  - apply Qle_shift_div_l; [exact Hpos | lra].
  - field. lra.
Qed.

(** The balance left after the payment of row [k + 1] of a well-formed
    loan, in closed form; it is not negative. *)
Lemma balance_after_payment (principal : Q) (termYears gracePeriod : Z) (k : nat) :
  0 <= principal -> (0 <= gracePeriod < termYears)%Z -> (k < Z.to_nat termYears)%nat ->
  let pp := principal / inject_Z (termYears - gracePeriod) in
  let opening j := principal - inject_Z (Z.max 0 (Z.of_nat j - gracePeriod)) * pp in
  opening k - (if (gracePeriod <? Z.of_nat k + 1)%Z then pp else 0) == opening (S k)
  /\ 0 <= opening (S k)
  /\ opening (S k) <= opening k.
Proof.
  intros Hp [Hg Hlt] Hk pp opening.
  destruct (instalment_nonneg principal termYears gracePeriod Hp Hlt) as [Hpp Hfull].
  fold pp in Hpp, Hfull. subst opening. cbv beta.
  rewrite Nat2Z.inj_succ. unfold Z.succ.
  assert (inject_Z (Z.of_nat k + 1 - gracePeriod) <= inject_Z (termYears - gracePeriod))
    as Hle by (rewrite <- Zle_Qle; lia).
  destruct (gracePeriod <? Z.of_nat k + 1)%Z eqn:Hpay.
  - apply Z.ltb_lt in Hpay.
    rewrite (Z.max_r 0 (Z.of_nat k - gracePeriod)) by lia.
    rewrite (Z.max_r 0 (Z.of_nat k + 1 - gracePeriod)) by lia.
    replace (Z.of_nat k + 1 - gracePeriod)%Z with (Z.of_nat k - gracePeriod + 1)%Z in * by lia.
    rewrite inject_Z_plus in *. change (inject_Z 1) with 1 in *.
    split; [ring|]. split; nra.
  - apply Z.ltb_ge in Hpay.
    rewrite (Z.max_l 0 (Z.of_nat k - gracePeriod)) by lia.
    rewrite (Z.max_l 0 (Z.of_nat k + 1 - gracePeriod)) by lia.
    change (inject_Z 0) with 0. split; [ring|]. split; lra.
Qed.

(** X4. In the schedule of a well-formed loan (principal and rate not
    negative, grace period shorter than the term) every year opens on the
    balance the year before closed on, that balance is never negative, and
    the interest charged never rises from one year to the next. *)
Theorem amortization_rows_chain
    (principal annualRate : Q) (termYears gracePeriod : Z) (k : nat) :
  0 <= principal -> 0 <= annualRate ->
  (0 <= gracePeriod < termYears)%Z -> (S k < Z.to_nat termYears)%nat ->
  exists row next,
    nth_error
      (Financing.calculateAmortizationSchedule principal annualRate termYears gracePeriod)
      k = Some row
    /\ nth_error
         (Financing.calculateAmortizationSchedule principal annualRate termYears
            gracePeriod)
         (S k) = Some next
    /\ Financing.beginningBalance next == Financing.endingBalance row
    /\ 0 <= Financing.endingBalance row
    /\ Financing.interest next <= Financing.interest row.
Proof.
  intros Hp Hr Hgt Hk.
  assert (0 <= gracePeriod)%Z as Hg by lia.
  assert (k < Z.to_nat termYears)%nat as Hk0 by lia.
  destruct (schedule_row principal annualRate termYears gracePeriod k Hg Hk0)
    as [row [Hnth [_ [Hb [Hpaid [Hi [_ He]]]]]]].
  destruct (schedule_row principal annualRate termYears gracePeriod (S k) Hg Hk)
    as [next [Hnth' [_ [Hb' [_ [Hi' _]]]]]].
  destruct (balance_after_payment principal termYears gracePeriod k Hp Hgt Hk0)
    as [Hstep [Hnonneg Hfall]].
  cbv zeta in Hb, Hb', Hpaid.
  exists row, next. split; [exact Hnth|]. split; [exact Hnth'|].
  assert (Financing.endingBalance row == Financing.beginningBalance next) as Hend.
  { rewrite He, Hb, Hpaid, Hstep, Hb'. apply Q.max_r. exact Hnonneg. }
  split; [symmetry; exact Hend|]. split.
  - rewrite Hend, Hb'. exact Hnonneg.
  - rewrite Hi, Hi', Hb, Hb'.
    assert (0 <= annualRate / 100) as Hr' by (apply Qle_shift_div_l; lra).
    nra.
Qed.

Lemma amortization_rows_chain_witness :
  exists row next,
    nth_error (Financing.calculateAmortizationSchedule 100000 10 5 2) 2 = Some row
    /\ nth_error (Financing.calculateAmortizationSchedule 100000 10 5 2) 3 = Some next
    /\ Financing.beginningBalance next == Financing.endingBalance row
    /\ 0 <= Financing.endingBalance row
    /\ Financing.interest next <= Financing.interest row.
Proof.
  assert (0 <= 100000) as Hp by lra.
  assert (0 <= 10) as Hr by lra.
  assert (0 <= 2 < 5)%Z as Hgt by lia.
  assert (3 < Z.to_nat 5)%nat as Hk by (cbn; lia).
  exact (amortization_rows_chain 100000 10 5 2 2 Hp Hr Hgt Hk).
Defined.

(** ** Debt service *)

Lemma debtService_fold (items : list Financing.FinancingItem) (year : Z) (acc : Q * Q) :
  let step (acc : Q * Q) (item : Financing.FinancingItem) : Q * Q :=
    let '(totalPrincipal, totalInterest) := acc in
    if negb (String.eqb (Financing.type item) "loan") then acc
    else
      let schedule :=
        Financing.calculateAmortizationSchedule (Financing.amount item)
          (Financing.interestRate item) (Financing.termYears item)
          (Financing.gracePeriod item) in
      let yearIndex := (year - Financing.repaymentStartYear item)%Z in
      if ((0 <=? yearIndex) && (yearIndex <? Z.of_nat (List.length schedule)))%Z then
        match nth_error schedule (Z.to_nat yearIndex) with
        | Some row =>
            (totalPrincipal + Financing.principal row,
             totalInterest + Financing.interest row)
        | None => acc
        end
      else acc in
  fst (fold_left step items acc)
  == fst acc + Js.sum_by (DebtTerms.principalDue year) items
  /\ snd (fold_left step items acc)
     == snd acc + Js.sum_by (DebtTerms.interestDue year) items.
Proof.
  intro step. revert acc. induction items as [|item items IH]; intro acc.
  - unfold Js.sum_by. simpl. split; ring.
  - cbn [fold_left]. destruct (IH (step acc item)) as [IHp IHi].
    rewrite IHp, IHi, !sum_by_cons.
    unfold DebtTerms.principalDue, DebtTerms.interestDue, DebtTerms.scheduledRow.
    subst step. cbv beta. destruct acc as [p i]. cbv zeta.
    destruct (negb (String.eqb (Financing.type item) "loan")).
    + cbn [fst snd]. split; ring.
    + destruct ((0 <=? year - Financing.repaymentStartYear item)%Z && _).
      * destruct (nth_error _ _); cbn [fst snd]; split; ring.
      * cbn [fst snd]. split; ring.
Qed.

Lemma debtService_sums (items : list Financing.FinancingItem) (year : Z) :
  Financing.ds_principal (Financing.calculateDebtService items year)
  == Js.sum_by (DebtTerms.principalDue year) items
  /\ Financing.ds_interest (Financing.calculateDebtService items year)
     == Js.sum_by (DebtTerms.interestDue year) items
  /\ Financing.ds_total (Financing.calculateDebtService items year)
     == Js.sum_by (DebtTerms.principalDue year) items
        + Js.sum_by (DebtTerms.interestDue year) items.
Proof.
  unfold Financing.calculateDebtService.
  destruct (debtService_fold items year (0, 0)) as [Hp Hi]. cbv zeta in Hp, Hi.
  destruct (fold_left _ items (0, 0)) as [p i]. cbn [fst snd] in Hp, Hi.
  cbn [Financing.ds_principal Financing.ds_interest Financing.ds_total].
  rewrite Hp, Hi. repeat split; ring.
Qed.

Lemma scheduledRow_outside (item : Financing.FinancingItem) (year : Z) :
  Financing.type item <> "loan"%string
  \/ (year < Financing.repaymentStartYear item)%Z
  \/ (Financing.repaymentStartYear item + Financing.termYears item <= year)%Z ->
  DebtTerms.scheduledRow item year = None.
Proof.
  intro H. unfold DebtTerms.scheduledRow.
  destruct (String.eqb (Financing.type item) "loan") eqn:Htype; [|reflexivity].
  cbn [negb]. apply String.eqb_eq in Htype.
  destruct H as [H | H]; [contradiction|].
  unfold Financing.calculateAmortizationSchedule.
  rewrite scheduleLoop_length, length_range.
  replace (Financing.termYears item - 1 + 1)%Z with (Financing.termYears item) by lia.
  destruct (0 <=? year - Financing.repaymentStartYear item)%Z eqn:H0; [|reflexivity].
  apply Z.leb_le in H0.
  assert ((year - Financing.repaymentStartYear item
           <? Z.of_nat (Z.to_nat (Financing.termYears item)))%Z = false) as ->
    by (apply Z.ltb_ge; lia).
  reflexivity.
Qed.

(** X5. Debt service adds up instrument by instrument: the principal,
    the interest and the total for two lists of instruments together are
    the sums of those for each list; an instrument that is not a loan, or
    a loan before its repayment start or after its term, adds nothing. *)
Theorem debt_service_adds_up
    (items more : list Financing.FinancingItem) (year : Z) :
  (Financing.ds_principal (Financing.calculateDebtService (items ++ more) year)
   == Financing.ds_principal (Financing.calculateDebtService items year)
      + Financing.ds_principal (Financing.calculateDebtService more year)
   /\ Financing.ds_interest (Financing.calculateDebtService (items ++ more) year)
      == Financing.ds_interest (Financing.calculateDebtService items year)
         + Financing.ds_interest (Financing.calculateDebtService more year)
   /\ Financing.ds_total (Financing.calculateDebtService (items ++ more) year)
      == Financing.ds_total (Financing.calculateDebtService items year)
         + Financing.ds_total (Financing.calculateDebtService more year))
  /\ ((forall item, In item items ->
         Financing.type item <> "loan"%string
         \/ (year < Financing.repaymentStartYear item)%Z
         \/ (Financing.repaymentStartYear item + Financing.termYears item <= year)%Z) ->
      Financing.ds_principal (Financing.calculateDebtService items year) == 0
      /\ Financing.ds_interest (Financing.calculateDebtService items year) == 0
      /\ Financing.ds_total (Financing.calculateDebtService items year) == 0).
Proof.
  destruct (debtService_sums (items ++ more) year) as [Hp [Hi Ht]].
  destruct (debtService_sums items year) as [Hp1 [Hi1 Ht1]].
  destruct (debtService_sums more year) as [Hp2 [Hi2 Ht2]].
  split.
  - rewrite Hp, Hi, Ht, Hp1, Hi1, Ht1, Hp2, Hi2, Ht2, !sum_by_app.
    repeat split; ring.
  - intro Hout.
    assert (Js.sum_by (DebtTerms.principalDue year) items == 0) as Hzp.
    { apply sum_by_zero. intros item Hin. unfold DebtTerms.principalDue.
      rewrite (scheduledRow_outside item year (Hout item Hin)). reflexivity. }
    assert (Js.sum_by (DebtTerms.interestDue year) items == 0) as Hzi.
    { apply sum_by_zero. intros item Hin. unfold DebtTerms.interestDue.
      rewrite (scheduledRow_outside item year (Hout item Hin)). reflexivity. }
    rewrite Hp1, Hi1, Ht1, Hzp, Hzi. repeat split; ring.
Qed.

Lemma debt_service_adds_up_witness :
  Financing.ds_total
    (Financing.calculateDebtService
       [Financing.mkFinancingItem "equity" 100000 0 0 0 1;
        Financing.mkFinancingItem "loan" 50000 8 5 0 3] 1)
  == 0.
Proof.
  apply (proj2 (debt_service_adds_up
                  [Financing.mkFinancingItem "equity" 100000 0 0 0 1;
                   Financing.mkFinancingItem "loan" 50000 8 5 0 3] [] 1)).
  intros item [<- | [<- | []]].
  - left. discriminate.
  - right. left. cbn. lia.
Defined.

Lemma sum_by_equal_in {A : Type} (term term' : A -> Q) (xs : list A) :
  (forall x, In x xs -> term x == term' x) -> Js.sum_by term xs == Js.sum_by term' xs.
Proof.
  induction xs as [|x xs IH]; intro H.
  - reflexivity.
  - rewrite !sum_by_cons, IH by (intros y Hy; apply H; right; exact Hy).
    rewrite (H x) by (left; reflexivity). reflexivity.
Qed.

(** Reading a list by the positions [lo], [lo + 1], ... and adding up is
    adding up the list. *)
Lemma sum_by_positions {A : Type} (f : A -> Q) (xs : list A) (lo : Z) :
  Js.sum_by
    (fun y => match nth_error xs (Z.to_nat (y - lo)) with Some x => f x | None => 0 end)
    (Js.upfrom lo (List.length xs))
  == Js.sum_by f xs.
Proof.
  revert lo. induction xs as [|x xs IH]; intro lo.
  - reflexivity.
  - cbn [List.length Js.upfrom]. rewrite !sum_by_cons.
    replace (Z.to_nat (lo - lo)) with 0%nat by lia. cbn [nth_error].
    rewrite <- (IH (lo + 1)%Z).
    rewrite (sum_by_equal_in
               (fun y => match nth_error (x :: xs) (Z.to_nat (y - lo)) with
                         | Some x0 => f x0 | None => 0 end)
               (fun y => match nth_error xs (Z.to_nat (y - (lo + 1))) with
                         | Some x0 => f x0 | None => 0 end)).
    + reflexivity.
    + intros y Hy. apply in_upfrom in Hy.
      replace (Z.to_nat (y - lo)) with (S (Z.to_nat (y - (lo + 1)))) by lia.
      reflexivity.
Qed.

Lemma schedule_principal_total (principal annualRate : Q) (termYears gracePeriod : Z) :
  (0 <= gracePeriod < termYears)%Z ->
  Js.sum_by Financing.principal
    (Financing.calculateAmortizationSchedule principal annualRate termYears gracePeriod)
  == principal.
Proof.
  intros [Hg Ht]. unfold Financing.calculateAmortizationSchedule, Js.range.
  rewrite scheduleLoop_paid by lia.
  replace (termYears - 1 + 1)%Z with termYears by lia.
  rewrite Z2Nat.id by lia. rewrite Z.max_r by lia.
  replace (1 + termYears - 1 - gracePeriod)%Z with (termYears - gracePeriod)%Z by lia.
  field. apply inject_Z_nonzero. lia.
Qed.

(** X6. Over the repayment years of a loan, the principal that the yearly
    debt service asks for adds up to the amount of the loan. *)
Theorem debt_service_repays_loan (item : Financing.FinancingItem) :
  Financing.type item = "loan"%string ->
  (0 <= Financing.gracePeriod item < Financing.termYears item)%Z ->
  Js.sum_by
    (fun year => Financing.ds_principal (Financing.calculateDebtService [item] year))
    (Js.range (Financing.repaymentStartYear item)
       (Financing.repaymentStartYear item + Financing.termYears item - 1))
  == Financing.amount item.
Proof.
  intros Htype Hgt.
  set (start := Financing.repaymentStartYear item).
  set (schedule :=
         Financing.calculateAmortizationSchedule (Financing.amount item)
           (Financing.interestRate item) (Financing.termYears item)
           (Financing.gracePeriod item)).
  assert (List.length schedule = Z.to_nat (Financing.termYears item)) as Hlen.
  { unfold schedule, Financing.calculateAmortizationSchedule.
    rewrite scheduleLoop_length, length_range. f_equal. lia. }
  rewrite <- (schedule_principal_total (Financing.amount item)
                (Financing.interestRate item) (Financing.termYears item)
                (Financing.gracePeriod item) Hgt).
  fold schedule. rewrite <- (sum_by_positions Financing.principal schedule start).
  unfold Js.range.
  replace (Z.to_nat (start + Financing.termYears item - 1 - start + 1))
    with (List.length schedule) by lia.
  apply sum_by_equal_in. intros year Hyear. apply in_upfrom in Hyear.
  destruct (debtService_sums [item] year) as [-> _].
  rewrite sum_by_cons. unfold Js.sum_by at 1. cbn [fold_left].
  unfold DebtTerms.principalDue, DebtTerms.scheduledRow.
  rewrite Htype. change (negb (String.eqb "loan" "loan")) with false. cbv iota.
  fold schedule. fold start.
  assert (((0 <=? year - start) && (year - start <? Z.of_nat (List.length schedule)))%Z
          = true) as ->.
  { apply andb_true_iff. split; [apply Z.leb_le | apply Z.ltb_lt]; lia. }
  destruct (nth_error schedule (Z.to_nat (year - start))); ring.
Qed.

Lemma debt_service_repays_loan_witness :
  Js.sum_by
    (fun year =>
       Financing.ds_principal
         (Financing.calculateDebtService
            [Financing.mkFinancingItem "loan" 100000 10 5 2 3] year))
    (Js.range 3 (3 + 5 - 1))
  == 100000.
Proof.
  apply (debt_service_repays_loan (Financing.mkFinancingItem "loan" 100000 10 5 2 3)).
  - reflexivity.
  - cbn. lia.
Defined.

(** ** Long-term debt on the balance sheet *)




(** ** Net present value *)

Lemma npv_fold_shift (a : Q) (cashFlows : list Q) (t : Z) (acc : Q) :
  Js.reduce_from (fun npv cf t => npv + cf / Js.Math_pow a t) cashFlows t acc
  == acc + Js.reduce_from (fun npv cf t => npv + cf / Js.Math_pow a t) cashFlows t 0.
Proof.
  revert t acc. induction cashFlows as [|cf rest IH]; intros t acc; simpl.
  - ring.
  - rewrite (IH (t + 1)%Z (acc + cf / Js.Math_pow a t)).
    rewrite (IH (t + 1)%Z (0 + cf / Js.Math_pow a t)). ring.
Qed.

Lemma npv_fold_later (a : Q) (cashFlows : list Q) (t : Z) :
  ~ a == 0 ->
  Js.reduce_from (fun npv cf t => npv + cf / Js.Math_pow a t) cashFlows (t + 1) 0
  == Js.reduce_from (fun npv cf t => npv + cf / Js.Math_pow a t) cashFlows t 0 / a.
Proof.
  intro Ha. revert t. induction cashFlows as [|cf rest IH]; intro t; simpl.
  - field. exact Ha.
  - rewrite (npv_fold_shift a rest (t + 1 + 1) (0 + cf / Js.Math_pow a (t + 1))).
    rewrite (npv_fold_shift a rest (t + 1) (0 + cf / Js.Math_pow a t)).
    rewrite IH. unfold Js.Math_pow. rewrite (Qpower_plus a t 1 Ha).
    change (a ^ 1) with a.
    pose proof (Qpower_not_0 a t Ha) as Hpow.
    field. split; assumption.
Qed.

Lemma npv_fold_at_one (a : Q) (cashFlows : list Q) (t : Z) :
  a == 1 ->
  Js.reduce_from (fun npv cf t => npv + cf / Js.Math_pow a t) cashFlows t 0
  == Js.sum_by (fun cf => cf) cashFlows.
Proof.
  intro Ha. revert t. induction cashFlows as [|cf rest IH]; intro t.
  - reflexivity.
  - cbn [Js.reduce_from]. rewrite npv_fold_shift, IH, sum_by_cons.
    unfold Js.Math_pow. rewrite Ha, Qpower_1. field.
Qed.

(** X8. At a discount rate of zero the NPV is the plain sum of the cash
    flows. *)
Theorem npv_at_zero_rate (cashFlows : list Q) :
  Indicators.calculateNPV cashFlows 0 == Js.sum_by (fun cf => cf) cashFlows.
Proof.
  unfold Indicators.calculateNPV, Js.reduce.
  apply npv_fold_at_one. reflexivity.
Qed.

(** X9. The NPV discounts year by year: the NPV of a series is its first
    flow plus the NPV of the rest of the series, discounted over one
    year. *)
Theorem npv_discounts_the_rest (cf : Q) (rest : list Q) (discountRate : Q) :
  ~ 1 + discountRate / 100 == 0 ->
  Indicators.calculateNPV (cf :: rest) discountRate
  == cf + Indicators.calculateNPV rest discountRate / (1 + discountRate / 100).
Proof.
  intro Ha. unfold Indicators.calculateNPV, Js.reduce. cbn [Js.reduce_from].
  set (a := 1 + discountRate / 100) in *.
  rewrite npv_fold_shift. change (0 + 1)%Z with 1%Z.
  rewrite (npv_fold_later a rest 0 Ha).
  unfold Js.Math_pow at 1. change (a ^ 0) with 1.
  field. exact Ha.
Qed.

Lemma npv_discounts_the_rest_witness :
  Indicators.calculateNPV [-1000; 300; 400; 500; 600] 10
  == -1000 + Indicators.calculateNPV [300; 400; 500; 600] 10 / (1 + 10 / 100).
Proof.
  apply (npv_discounts_the_rest (-1000) [300; 400; 500; 600] 10).
  vm_compute. discriminate.
Defined.

(** ** The cash-flow table *)

Section CashFlowTable.

Variable m : ProjectModel.t.

Let loop :=
  Statements.cashFlowLoop (ProjectModel.project m) (ProjectModel.investments m)
    (ProjectModel.products m) (ProjectModel.operatingCosts m) (ProjectModel.financing m).

Lemma cashFlowLoop_years (years : list Z) (cumulativeCashFlow : Q) :
  map CashFlowYear.year (loop years cumulativeCashFlow) = years.
Proof.
  revert cumulativeCashFlow. induction years as [|y years IH]; intro c.
  - reflexivity.
  - unfold loop. cbn [Statements.cashFlowLoop map]. fold loop. rewrite IH. reflexivity.
Qed.

Lemma cashFlowLoop_cumulative (years : list Z) (cumulativeCashFlow : Q)
    (k : nat) (row : CashFlowYear.t) :
  nth_error (loop years cumulativeCashFlow) k = Some row ->
  CashFlowYear.cumulativeCashFlow row
  == cumulativeCashFlow
     + Js.sum_by CashFlowYear.netCashFlow (firstn (S k) (loop years cumulativeCashFlow)).
Proof.
  revert cumulativeCashFlow k. induction years as [|y years IH]; intros c k Hnth.
  - destruct k; discriminate.
  - unfold loop in Hnth |- *. cbn [Statements.cashFlowLoop] in Hnth |- *.
    fold loop in Hnth |- *.
    destruct k as [|k].
    + injection Hnth as <-. cbn [firstn]. rewrite sum_by_cons.
      unfold Js.sum_by. cbn [fold_left]. cbn. ring.
    + cbn [nth_error] in Hnth. rewrite (IH _ k Hnth).
      change (firstn (S (S k)) (?r :: ?l)) with (r :: firstn (S k) l).
      rewrite sum_by_cons. cbn. ring.
Qed.

Lemma cashFlowLoop_discounted (n : nat) (lo : Z) (cumulativeCashFlow : Q) :
  Js.sum_by CashFlowYear.discountedCashFlow (loop (Js.upfrom lo n) cumulativeCashFlow)
  == Js.reduce_from
       (fun npv cf t =>
          npv + cf / Js.Math_pow
                       (1 + ProjectData.discountRate (ProjectModel.project m) / 100) t)
       (map CashFlowYear.netCashFlow (loop (Js.upfrom lo n) cumulativeCashFlow)) lo 0.
Proof.
  revert lo cumulativeCashFlow. induction n as [|n IH]; intros lo c.
  - reflexivity.
  - cbn [Js.upfrom]. unfold loop. cbn [Statements.cashFlowLoop map Js.reduce_from].
    fold loop. rewrite sum_by_cons, npv_fold_shift, IH. cbn. ring.
Qed.

End CashFlowTable.

(** X10. The cash-flow table has one row per year from 0 to the last
    year of the project, in order, and the cumulative cash flow of a row
    is the sum of the net cash flows of the rows up to and including it. *)
Theorem cash_flow_table_accumulates (m : ProjectModel.t) (k : nat) (row : CashFlowYear.t) :
  map CashFlowYear.year (Analysis.cashFlowsOf m)
  = Js.range 0
      (ProjectData.constructionYears (ProjectModel.project m)
       + ProjectData.operationYears (ProjectModel.project m))
  /\ (nth_error (Analysis.cashFlowsOf m) k = Some row ->
      CashFlowYear.cumulativeCashFlow row
      == Js.sum_by CashFlowYear.netCashFlow (firstn (S k) (Analysis.cashFlowsOf m))).
Proof.
  unfold Analysis.cashFlowsOf, Statements.generateCashFlows. split.
  - apply cashFlowLoop_years.
  - intro Hnth. rewrite (cashFlowLoop_cumulative m _ _ k row Hnth). ring.
Qed.

Lemma cash_flow_table_accumulates_witness :
  exists row,
    nth_error (Analysis.cashFlowsOf Cases.workshop) 2 = Some row
    /\ CashFlowYear.cumulativeCashFlow row
       == Js.sum_by CashFlowYear.netCashFlow (firstn 3 (Analysis.cashFlowsOf Cases.workshop)).
Proof.
  eexists. split; [reflexivity|].
  apply (proj2 (cash_flow_table_accumulates Cases.workshop 2 _)). reflexivity.
Defined.

(** X11. The NPV that the indicators report is the sum of the discounted
    cash-flow column of the cash-flow table. *)
Theorem indicators_npv_is_discounted_total (pow_real : Q -> Q -> Q) (m : ProjectModel.t) :
  Indicators.npv (AnalysisIndicators.indicatorsOf pow_real m)
  == Js.sum_by CashFlowYear.discountedCashFlow (Analysis.cashFlowsOf m).
Proof.
  unfold AnalysisIndicators.indicatorsOf, Indicators.calculateAllIndicators.
  cbn [Indicators.npv].
  unfold Indicators.calculateNPV, Js.reduce, Analysis.netCashFlowsOf, Analysis.cashFlowsOf,
    Statements.generateCashFlows, Js.range.
  symmetry. apply cashFlowLoop_discounted.
Qed.

(** ** Payback *)

Lemma paybackFrom_spec (cashFlows : list Q) (t : Z) (cumulative : Q) :
  cumulative <= 0 ->
  let prefix k := cumulative + Js.sum_by (fun cf => cf) (firstn k cashFlows) in
  (Indicators.paybackFrom cashFlows t cumulative = -1
   /\ forall k, (k < List.length cashFlows)%nat -> prefix (S k) < 0)
  \/ (exists j,
        (j < List.length cashFlows)%nat
        /\ (forall i, (i < j)%nat -> prefix (S i) < 0)
        /\ 0 <= prefix (S j)
        /\ inject_Z (t + Z.of_nat j) <= Indicators.paybackFrom cashFlows t cumulative
        /\ Indicators.paybackFrom cashFlows t cumulative <= inject_Z (t + Z.of_nat j) + 1).
Proof.
  revert t cumulative. induction cashFlows as [|cf rest IH]; intros t cumulative Hneg.
  - left. split; [reflexivity|]. intros k Hk. inversion Hk.
  - cbv zeta. cbn [Indicators.paybackFrom].
    assert (Hfirst : cumulative + Js.sum_by (fun cf => cf) (firstn 1 (cf :: rest))
                     == cumulative + cf).
    { cbn [firstn]. rewrite sum_by_cons. unfold Js.sum_by. simpl. ring. }
    destruct (Js.le 0 (cumulative + cf)) eqn:Hpaid.
    + right. exists 0%nat. apply le_true_iff in Hpaid.
      rewrite Z.add_0_r.
      split; [cbn; lia|]. split; [intros i Hi; inversion Hi|].
      split; [rewrite Hfirst; exact Hpaid|].
      destruct (negb (Js.eq cf 0)) eqn:Hcf.
      * apply negb_true_iff in Hcf. unfold Js.eq in Hcf. apply Qeq_bool_neq in Hcf.
        assert (0 < cf) as Hpos.
        { destruct (Qlt_le_dec 0 cf) as [H|H]; [exact H|].
          exfalso. apply Hcf. lra. }
        assert (0 <= - (cumulative + cf - cf) / cf) as Hlo
          by (apply Qle_shift_div_l; [exact Hpos | lra]).
        assert (- (cumulative + cf - cf) / cf <= 1) as Hhi
          by (apply Qle_shift_div_r; [exact Hpos | lra]).
        split; lra.
      * split; lra.
    + apply le_false_iff in Hpaid.
      destruct (IH (t + 1)%Z (cumulative + cf)) as [[Hnever Hall] | [j [Hj [Hbefore [Hat [Hlo Hhi]]]]]];
        [lra| |].
      * left. split; [exact Hnever|].
        intros [|k] Hk.
        -- rewrite Hfirst. exact Hpaid.
        -- rewrite firstn_cons, sum_by_cons.
           assert (k < List.length rest)%nat as Hk' by (cbn in Hk; lia).
           specialize (Hall k Hk'). cbv beta zeta in Hall. lra.
      * right. exists (S j).
        split; [cbn; lia|]. split.
        -- intros [|i] Hi.
           ++ rewrite Hfirst. exact Hpaid.
           ++ rewrite firstn_cons, sum_by_cons.
              assert (i < j)%nat as Hi' by lia.
              specialize (Hbefore i Hi'). cbv beta zeta in Hbefore. lra.
        -- split.
           ++ rewrite firstn_cons, sum_by_cons. cbv beta zeta in Hat. lra.
           ++ replace (t + Z.of_nat (S j))%Z with (t + 1 + Z.of_nat j)%Z by lia.
              split; assumption.
Qed.

(** X12. The simple payback period is -1 exactly when no running total
    of the cash flows reaches zero; otherwise, with [j] the first index at
    which the running total is not negative, it lies between [j] and
    [j + 1]. *)
Theorem payback_period_locates_recovery (cashFlows : list Q) :
  let total k := Js.sum_by (fun cf => cf) (firstn k cashFlows) in
  (Indicators.calculatePaybackPeriod cashFlows = -1
   /\ forall k, (k < List.length cashFlows)%nat -> total (S k) < 0)
  \/ (exists j,
        (j < List.length cashFlows)%nat
        /\ (forall i, (i < j)%nat -> total (S i) < 0)
        /\ 0 <= total (S j)
        /\ inject_Z (Z.of_nat j) <= Indicators.calculatePaybackPeriod cashFlows
        /\ Indicators.calculatePaybackPeriod cashFlows <= inject_Z (Z.of_nat j) + 1).
Proof.
  cbv zeta. unfold Indicators.calculatePaybackPeriod.
  destruct (paybackFrom_spec cashFlows 0 0 (Qle_refl 0))
    as [[Hnever Hall] | [j [Hj [Hbefore [Hat [Hlo Hhi]]]]]].
  - left. split; [exact Hnever|].
    intros k Hk. specialize (Hall k Hk). cbv beta zeta in Hall. lra.
  - right. exists j. split; [exact Hj|]. split.
    + intros i Hi. specialize (Hbefore i Hi). cbv beta zeta in Hbefore. lra.
    + cbv beta zeta in Hat. change (0 + Z.of_nat j)%Z with (Z.of_nat j) in Hlo, Hhi.
      split; [lra|]. split; assumption.
Qed.

Lemma discountedPaybackFrom_undiscounted
    (rate : Q) (cashFlows : list Q) (t : Z) (cumulative cumulative' : Q) :
  rate == 0 -> cumulative == cumulative' ->
  Indicators.discountedPaybackFrom rate cashFlows t cumulative
  == Indicators.paybackFrom cashFlows t cumulative'.
Proof.
  intro Hrate. revert t cumulative cumulative'.
  induction cashFlows as [|cf rest IH]; intros t c c' Hc.
  - reflexivity.
  - cbn [Indicators.discountedPaybackFrom Indicators.paybackFrom].
    assert (cf / Js.Math_pow (1 + rate) t == cf) as Hcf.
    { unfold Js.Math_pow. rewrite Hrate.
      assert (1 + 0 == 1) as -> by reflexivity. rewrite Qpower_1. field. }
    assert (c + cf / Js.Math_pow (1 + rate) t == c' + cf) as Hsum
      by (rewrite Hcf, Hc; reflexivity).
    unfold Js.le, Js.eq. rewrite Hsum, Hcf.
    destruct (Qle_bool 0 (c' + cf)).
    + destruct (negb (Qeq_bool cf 0)).
      * rewrite Hsum, Hcf. reflexivity.
      * reflexivity.
    + apply IH. exact Hsum.
Qed.

(** X13. At a discount rate of zero the discounted payback period is the
    simple payback period. *)
Theorem discounted_payback_at_zero_rate (cashFlows : list Q) :
  Indicators.calculateDiscountedPaybackPeriod cashFlows 0
  == Indicators.calculatePaybackPeriod cashFlows.
Proof.
  unfold Indicators.calculateDiscountedPaybackPeriod, Indicators.calculatePaybackPeriod.
  apply discountedPaybackFrom_undiscounted; reflexivity.
Qed.

(** ** Break-even point and modified rate of return *)

(** X14. With a unit price above the variable cost per unit, the
    break-even revenue pays the fixed costs and the variable costs of the
    break-even units, which are not negative for fixed costs that are not;
    with no contribution margin both results are -1. *)
Theorem break_even_covers_costs (fixedCosts unitPrice variableCostPerUnit : Q) :
  let units := fst (Indicators.calculateBreakEven fixedCosts unitPrice variableCostPerUnit) in
  let revenue := snd (Indicators.calculateBreakEven fixedCosts unitPrice variableCostPerUnit) in
  (variableCostPerUnit < unitPrice ->
     revenue == fixedCosts + units * variableCostPerUnit
     /\ (0 <= fixedCosts -> 0 <= units))
  /\ (unitPrice <= variableCostPerUnit -> units = -1 /\ revenue = -1).
Proof.
  cbv zeta. unfold Indicators.calculateBreakEven.
  split; intro Hmargin.
  - assert (Js.le (unitPrice - variableCostPerUnit) 0 = false) as ->
      by (apply le_false_iff; lra).
    cbn [fst snd]. split.
    + field. lra.
    + intro Hfixed. apply Qle_shift_div_l; lra.
  - assert (Js.le (unitPrice - variableCostPerUnit) 0 = true) as ->
      by (apply le_true_iff; lra).
    split; reflexivity.
Qed.

Lemma break_even_covers_costs_witness :
  60 < 100
  /\ snd (Indicators.calculateBreakEven 10000 100 60)
     == 10000 + fst (Indicators.calculateBreakEven 10000 100 60) * 60.
Proof.
  split; [reflexivity|].
  apply (proj1 (break_even_covers_costs 10000 100 60)). reflexivity.
Defined.

Lemma reduce_from_skips {A B : Type} (select : A -> bool) (step : B -> A -> Z -> B)
    (xs : list A) (t : Z) (acc : B) :
  Forall (fun x => select x = false) xs ->
  Js.reduce_from (fun acc x t => if select x then step acc x t else acc) xs t acc = acc.
Proof.
  intro Hnone. revert t acc.
  induction Hnone as [|x xs Hx _ IH]; intros t acc; cbn [Js.reduce_from]; [reflexivity|].
  rewrite Hx. apply IH.
Qed.

(** X15. A series without a negative cash flow has a modified internal rate
    of return of 0, whatever the rates. *)
Theorem mirr_without_outflow (pow_real : Q -> Q -> Q) (cashFlows : list Q)
    (financeRate reinvestRate : Q) :
  Forall (fun cf => 0 <= cf) cashFlows ->
  Indicators.calculateMIRR pow_real cashFlows financeRate reinvestRate = 0.
Proof.
  intro Hpos. unfold Indicators.calculateMIRR. cbv zeta.
  unfold Js.reduce at 1.
  rewrite (reduce_from_skips (fun cf => Js.lt cf 0)
             (fun pv cf t => pv + cf / Js.Math_pow (1 + financeRate / 100) t)).
  - reflexivity.
  - eapply Forall_impl; [|exact Hpos]. intros cf Hcf. apply lt_false_iff. exact Hcf.
Qed.

Lemma mirr_without_outflow_witness :
  Indicators.calculateMIRR (fun b _ => b) [100; 0; 250] 10 12 = 0.
Proof.
  apply mirr_without_outflow.
  repeat constructor; unfold Qle; simpl; lia.
Defined.

(** ** Income statement and cash flow *)

Lemma nth_error_upfrom (lo : Z) (n k : nat) (y : Z) :
  nth_error (Js.upfrom lo n) k = Some y -> y = (lo + Z.of_nat k)%Z /\ (k < n)%nat.
Proof.
  revert lo k. induction n as [|n IH]; intros lo k Hnth.
  - destruct k; discriminate.
  - destruct k as [|k]; cbn in Hnth.
    + injection Hnth as <-. split; lia.
    + apply IH in Hnth. lia.
Qed.

Lemma cashFlowLoop_nth
    (project : ProjectData.t) (investments : list InvestmentData.t)
    (products : list ProductData.t) (costs : list CostData.t)
    (financing : list FinancingData.t) (years : list Z) (cumulativeCashFlow : Q)
    (k : nat) (row : CashFlowYear.t) :
  nth_error
    (Statements.cashFlowLoop project investments products costs financing years
       cumulativeCashFlow) k = Some row ->
  exists carried year,
    nth_error years k = Some year
    /\ row = Statements.cashFlowOfYear project investments products costs financing
               carried year.
Proof.
  revert cumulativeCashFlow k. induction years as [|y years IH]; intros c k Hnth.
  - destruct k; discriminate.
  - cbn [Statements.cashFlowLoop] in Hnth. destruct k as [|k].
    + injection Hnth as <-. exists c, y. split; reflexivity.
    + cbn [nth_error] in Hnth |- *. exact (IH _ _ Hnth).
Qed.

Lemma splitCosts_total (costs : list CostData.t) (operatingYear : Z) :
  fst (Statements.splitCostsOf costs operatingYear)
  + snd (Statements.splitCostsOf costs operatingYear)
  == Statements.operatingCostsOf costs operatingYear.
Proof.
  unfold Statements.splitCostsOf, Statements.operatingCostsOf.
  match goal with
  | |- fst (fold_left ?F _ _) + _ == fold_left ?G _ _ => set (split := F); set (total := G)
  end.
  assert (H : forall (acc : Q * Q) (a : Q),
             fst acc + snd acc == a ->
             fst (fold_left split costs acc) + snd (fold_left split costs acc)
             == fold_left total costs a).
  { induction costs as [|c costs IH]; intros acc a Ha; cbn [fold_left].
    - exact Ha.
    - apply IH. subst split total. cbv beta.
      destruct (CostData.startYear c <=? operatingYear)%Z; [|exact Ha].
      destruct (CostData.costType c); cbn [fst snd]; rewrite <- Ha; ring. }
  apply H. reflexivity.
Qed.

Lemma taxes_equal (taxableIncome taxableIncome' rate : Q) :
  taxableIncome == taxableIncome' ->
  (if Js.gt taxableIncome 0 then taxableIncome * rate else 0)
  == (if Js.gt taxableIncome' 0 then taxableIncome' * rate else 0).
Proof.
  intro H. unfold Js.gt. rewrite (lt_equal 0 0 _ _ (Qeq_refl 0) H).
  destruct (Js.lt 0 taxableIncome'); [rewrite H|]; reflexivity.
Qed.

(** X16. In an operating year the cash-flow table and the income
    statement tell the same story: the operating inflow is the revenue,
    the operating outflow is the cost of goods sold plus the operating
    expenses plus the taxes, and the net cash flow is the net income with
    depreciation and interest added back, less the investments, plus the
    financing received, less the debt service. *)
Theorem income_statement_matches_cash_flow
    (m : ProjectModel.t) (j : nat) (row : CashFlowYear.t) (stmt : IncomeStatementYear.t) :
  nth_error (Analysis.cashFlowsOf m) (S j) = Some row ->
  nth_error (Analysis.incomeStatementsOf m) j = Some stmt ->
  (ProjectData.constructionYears (ProjectModel.project m) <= Z.of_nat j)%Z ->
  CashFlowYear.year row = IncomeStatementYear.year stmt
  /\ CashFlowYear.operatingInflow row == IncomeStatementYear.revenue stmt
  /\ CashFlowYear.operatingOutflow row
     == IncomeStatementYear.costOfGoodsSold stmt
        + IncomeStatementYear.operatingExpenses stmt
        + IncomeStatementYear.taxes stmt
  /\ CashFlowYear.netCashFlow row
     == IncomeStatementYear.netIncome stmt
        + IncomeStatementYear.depreciation stmt
        + IncomeStatementYear.interestExpense stmt
        - CashFlowYear.investingOutflow row
        + CashFlowYear.financingInflow row
        - CashFlowYear.financingOutflow row.
Proof.
  intros Hrow Hstmt Hop.
  unfold Analysis.cashFlowsOf, Statements.generateCashFlows in Hrow.
  apply cashFlowLoop_nth in Hrow. destruct Hrow as [c [y [Hy ->]]].
  apply nth_error_upfrom in Hy. destruct Hy as [-> _].
  unfold Analysis.incomeStatementsOf, Statements.generateIncomeStatements in Hstmt.
  rewrite nth_error_map in Hstmt.
  destruct (nth_error _ j) as [y|] eqn:Hy; [|discriminate].
  apply nth_error_upfrom in Hy. destruct Hy as [Hy _].
  cbn [option_map] in Hstmt. injection Hstmt as <-. subst y.
  replace (0 + Z.of_nat (S j))%Z with (1 + Z.of_nat j)%Z by lia.
  set (year := (1 + Z.of_nat j)%Z).
  unfold Statements.cashFlowOfYear, Statements.incomeStatementOfYear.
  assert ((year <=? ProjectData.constructionYears (ProjectModel.project m))%Z = false)
    as -> by (apply Z.leb_gt; lia).
  assert ((ProjectData.constructionYears (ProjectModel.project m) <? year)%Z = true)
    as -> by (apply Z.ltb_lt; lia).
  pose proof (splitCosts_total (ProjectModel.operatingCosts m)
                (year - ProjectData.constructionYears (ProjectModel.project m))) as Hcosts.
  destruct (Statements.splitCostsOf _ _) as [cogs operatingExpenses].
  cbn [fst snd] in Hcosts. cbv zeta.
  cbn [CashFlowYear.year CashFlowYear.operatingInflow CashFlowYear.operatingOutflow
       CashFlowYear.netCashFlow CashFlowYear.investingOutflow
       CashFlowYear.financingInflow CashFlowYear.financingOutflow
       IncomeStatementYear.year IncomeStatementYear.revenue
       IncomeStatementYear.costOfGoodsSold IncomeStatementYear.operatingExpenses
       IncomeStatementYear.taxes IncomeStatementYear.netIncome
       IncomeStatementYear.depreciation IncomeStatementYear.interestExpense].
  match goal with
  | |- _ /\ _ /\ _ + (if Js.gt ?a 0 then _ else 0) == _ + (if Js.gt ?b 0 then _ else 0) /\ _ =>
      pose proof (taxes_equal a b
                    (ProjectData.taxRate (ProjectModel.project m) / 100)) as Htaxes;
      set (taxes := if Js.gt a 0 then _ else 0) in *;
      set (taxes' := if Js.gt b 0 then _ else 0) in *
  end.
  assert (taxes == taxes') as Ht by (apply Htaxes; rewrite <- Hcosts; ring).
  clearbody taxes taxes'.
  split; [reflexivity|]. split; [reflexivity|]. split; lra.
Qed.

Lemma income_statement_matches_cash_flow_witness :
  exists row stmt,
    nth_error (Analysis.cashFlowsOf Cases.workshop) 2 = Some row
    /\ nth_error (Analysis.incomeStatementsOf Cases.workshop) 1 = Some stmt
    /\ CashFlowYear.netCashFlow row
       == IncomeStatementYear.netIncome stmt
          + IncomeStatementYear.depreciation stmt
          + IncomeStatementYear.interestExpense stmt
          - CashFlowYear.investingOutflow row
          + CashFlowYear.financingInflow row
          - CashFlowYear.financingOutflow row.
Proof.
  eexists. eexists. split; [reflexivity|]. split; [reflexivity|].
  apply (income_statement_matches_cash_flow Cases.workshop 1 _ _ eq_refl eq_refl).
  cbn. lia.
Defined.

(** X17. Every row of the income statement adds up from the revenue down
    to the net income, and with a tax rate between 0 and 100 the taxes are
    never negative, a loss is not taxed, and a profit is taxed by no more
    than itself, so that net income keeps the sign of taxable income; the
    rows of the construction years show no income at all. *)
Theorem income_statement_rows (m : ProjectModel.t) (stmt : IncomeStatementYear.t) :
  In stmt (Analysis.incomeStatementsOf m) ->
  0 <= ProjectData.taxRate (ProjectModel.project m) <= 100 ->
  IncomeStatementYear.netIncome stmt
  == IncomeStatementYear.revenue stmt
     - IncomeStatementYear.costOfGoodsSold stmt
     - IncomeStatementYear.operatingExpenses stmt
     - IncomeStatementYear.depreciation stmt
     - IncomeStatementYear.interestExpense stmt
     - IncomeStatementYear.taxes stmt
  /\ IncomeStatementYear.netIncome stmt
     == IncomeStatementYear.taxableIncome stmt - IncomeStatementYear.taxes stmt
  /\ 0 <= IncomeStatementYear.taxes stmt
  /\ (IncomeStatementYear.taxableIncome stmt <= 0 -> IncomeStatementYear.taxes stmt == 0)
  /\ (0 <= IncomeStatementYear.taxableIncome stmt ->
      IncomeStatementYear.taxes stmt <= IncomeStatementYear.taxableIncome stmt
      /\ 0 <= IncomeStatementYear.netIncome stmt)
  /\ ((IncomeStatementYear.year stmt
       <= ProjectData.constructionYears (ProjectModel.project m))%Z ->
      IncomeStatementYear.revenue stmt == 0 /\ IncomeStatementYear.netIncome stmt == 0).
Proof.
  intros Hin [Hlo Hhi].
  unfold Analysis.incomeStatementsOf, Statements.generateIncomeStatements in Hin.
  apply in_map_iff in Hin. destruct Hin as [year [<- _]].
  unfold Statements.incomeStatementOfYear.
  destruct (year <=? ProjectData.constructionYears (ProjectModel.project m))%Z eqn:Hyear.
  - cbn [IncomeStatementYear.year IncomeStatementYear.revenue
         IncomeStatementYear.costOfGoodsSold IncomeStatementYear.operatingExpenses
         IncomeStatementYear.depreciation IncomeStatementYear.interestExpense
         IncomeStatementYear.taxableIncome IncomeStatementYear.taxes
         IncomeStatementYear.netIncome].
    split; [reflexivity|]. split; [reflexivity|]. split; [lra|].
    split; [intros _; reflexivity|]. split; intros _; split; lra.
  - apply Z.leb_gt in Hyear.
    destruct (Statements.splitCostsOf _ _) as [cogs operatingExpenses]. cbv zeta.
    cbn [IncomeStatementYear.year IncomeStatementYear.revenue
         IncomeStatementYear.costOfGoodsSold IncomeStatementYear.operatingExpenses
         IncomeStatementYear.depreciation IncomeStatementYear.interestExpense
         IncomeStatementYear.taxableIncome IncomeStatementYear.taxes
         IncomeStatementYear.netIncome].
    match goal with
    | |- context [Js.gt ?a 0] => set (taxableIncome := a)
    end.
    set (rate := ProjectData.taxRate (ProjectModel.project m) / 100).
    assert (0 <= rate <= 1) as [Hr0 Hr1].
    { unfold rate. split; [apply Qle_shift_div_l | apply Qle_shift_div_r]; lra. }
    assert (Htaxes :
      0 <= (if Js.gt taxableIncome 0 then taxableIncome * rate else 0)
      /\ (taxableIncome <= 0 ->
          (if Js.gt taxableIncome 0 then taxableIncome * rate else 0) == 0)
      /\ (0 <= taxableIncome ->
          (if Js.gt taxableIncome 0 then taxableIncome * rate else 0) <= taxableIncome)).
    { unfold Js.gt. destruct (Js.lt 0 taxableIncome) eqn:Hsign.
      - apply lt_true_iff in Hsign. split; [nra|]. split; [lra|]. intros _. nra.
      - apply lt_false_iff in Hsign. split; [lra|]. split; [reflexivity|]. tauto. }
    set (taxes := if Js.gt taxableIncome 0 then taxableIncome * rate else 0) in *.
    destruct Htaxes as [Ht0 [Hloss Hprofit]].
    split; [unfold taxableIncome; ring|]. split; [reflexivity|].
    split; [exact Ht0|]. split; [exact Hloss|]. split.
    + intro Hpos. specialize (Hprofit Hpos). split; lra.
    + intro Hc. lia.
Qed.

Lemma income_statement_rows_witness :
  let stmt :=
    Statements.incomeStatementOfYear (ProjectModel.project Cases.workshop)
      (ProjectModel.investments Cases.workshop) (ProjectModel.products Cases.workshop)
      (ProjectModel.operatingCosts Cases.workshop) (ProjectModel.financing Cases.workshop)
      2 in
  In stmt (Analysis.incomeStatementsOf Cases.workshop)
  /\ 0 <= IncomeStatementYear.taxes stmt.
Proof.
  cbv zeta.
  assert (In (Statements.incomeStatementOfYear (ProjectModel.project Cases.workshop)
                (ProjectModel.investments Cases.workshop)
                (ProjectModel.products Cases.workshop)
                (ProjectModel.operatingCosts Cases.workshop)
                (ProjectModel.financing Cases.workshop) 2)
             (Analysis.incomeStatementsOf Cases.workshop)) as Hin
    by (right; left; reflexivity).
  assert (0 <= ProjectData.taxRate (ProjectModel.project Cases.workshop) <= 100) as Hrate
    by (cbn; lra).
  split; [exact Hin|].
  apply (income_statement_rows Cases.workshop _ Hin Hrate).
Defined.

(** ** Retained earnings *)

Lemma incomeStatementOfYear_year
    (project : ProjectData.t) (investments : list InvestmentData.t)
    (products : list ProductData.t) (costs : list CostData.t)
    (financing : list FinancingData.t) (year : Z) :
  IncomeStatementYear.year
    (Statements.incomeStatementOfYear project investments products costs financing year)
  = year.
Proof.
  unfold Statements.incomeStatementOfYear.
  destruct (year <=? ProjectData.constructionYears project)%Z; [reflexivity|].
  destruct (Statements.splitCostsOf _ _). reflexivity.
Qed.

Lemma incomeStatements_years (m : ProjectModel.t) :
  map IncomeStatementYear.year (Analysis.incomeStatementsOf m)
  = Js.range 1
      (ProjectData.constructionYears (ProjectModel.project m)
       + ProjectData.operationYears (ProjectModel.project m)).
Proof.
  unfold Analysis.incomeStatementsOf, Statements.generateIncomeStatements.
  rewrite map_map. rewrite <- (map_id (Js.range 1 _)) at 2.
  apply map_ext. intro year. apply incomeStatementOfYear_year.
Qed.

Lemma find_statement (stmts : list IncomeStatementYear.t) (lo : Z) (n : nat) (year : Z) :
  map IncomeStatementYear.year stmts = Js.upfrom lo n ->
  find (fun stmt => (IncomeStatementYear.year stmt =? year)%Z) stmts
  = if ((lo <=? year) && (year <? lo + Z.of_nat n))%Z
    then nth_error stmts (Z.to_nat (year - lo)) else None.
Proof.
  revert lo n. induction stmts as [|s stmts IH]; intros lo n Hyears.
  - destruct n; [|discriminate]. cbn [find].
    destruct ((lo <=? year) && (year <? lo + Z.of_nat 0))%Z; [|reflexivity].
    destruct (Z.to_nat (year - lo)); reflexivity.
  - destruct n as [|n]; [discriminate|]. cbn [map Js.upfrom] in Hyears.
    injection Hyears as Hs Hrest. cbn [find]. rewrite Hs.
    destruct (lo =? year)%Z eqn:Heq.
    + apply Z.eqb_eq in Heq. subst year.
      assert (((lo <=? lo) && (lo <? lo + Z.of_nat (S n)))%Z = true) as ->
        by (apply andb_true_iff; split; [apply Z.leb_le | apply Z.ltb_lt]; lia).
      replace (Z.to_nat (lo - lo)) with 0%nat by lia. reflexivity.
    + apply Z.eqb_neq in Heq. rewrite (IH _ _ Hrest).
      destruct ((lo + 1 <=? year) && (year <? lo + 1 + Z.of_nat n))%Z eqn:Hin.
      * apply andb_true_iff in Hin. destruct Hin as [H1 H2].
        apply Z.leb_le in H1. apply Z.ltb_lt in H2.
        assert (((lo <=? year) && (year <? lo + Z.of_nat (S n)))%Z = true) as ->
          by (apply andb_true_iff; split; [apply Z.leb_le | apply Z.ltb_lt]; lia).
        replace (Z.to_nat (year - lo)) with (S (Z.to_nat (year - (lo + 1)))) by lia.
        reflexivity.
      * assert (((lo <=? year) && (year <? lo + Z.of_nat (S n)))%Z = false) as ->.
        { apply andb_false_iff. apply andb_false_iff in Hin.
          destruct Hin as [H | H].
          - left. apply Z.leb_gt. apply Z.leb_gt in H. lia.
          - right. apply Z.ltb_ge. apply Z.ltb_ge in H. lia. }
        reflexivity.
Qed.

Lemma sum_by_firstn_succ {A : Type} (f : A -> Q) (xs : list A) (k : nat) (x : A) :
  nth_error xs k = Some x ->
  Js.sum_by f (firstn (S k) xs) == Js.sum_by f (firstn k xs) + f x.
Proof.
  revert k. induction xs as [|y xs IH]; intros k Hnth.
  - destruct k; discriminate.
  - destruct k as [|k].
    + injection Hnth as <-. cbn [firstn]. rewrite sum_by_cons.
      unfold Js.sum_by. simpl. ring.
    + cbn [nth_error] in Hnth. rewrite !firstn_cons, !sum_by_cons, (IH k Hnth). ring.
Qed.

Lemma balanceSheetLoop_retained
    (investments : list InvestmentData.t) (financing : list FinancingData.t)
    (stmts : list IncomeStatementYear.t) (n : nat) :
  map IncomeStatementYear.year stmts = Js.upfrom 1 n ->
  forall (count j : nat) (retainedEarnings cash : Q) (k : nat) (row : BalanceSheetYear.t),
    (j + count <= S n)%nat ->
    retainedEarnings == Js.sum_by IncomeStatementYear.netIncome (firstn (pred j) stmts) ->
    nth_error
      (Statements.balanceSheetLoop investments financing stmts
         (Js.upfrom (Z.of_nat j) count) retainedEarnings cash) k = Some row ->
    BalanceSheetYear.retainedEarnings row
    == Js.sum_by IncomeStatementYear.netIncome (firstn (j + k) stmts).
Proof.
  intro Hyears.
  assert (List.length stmts = n) as Hlen
    by (rewrite <- (length_map IncomeStatementYear.year), Hyears; apply length_upfrom).
  induction count as [|count IH]; intros j r cash k row Hj Hr Hnth.
  - destruct k; discriminate.
  - cbn [Js.upfrom Statements.balanceSheetLoop] in Hnth.
    set (first := Statements.balanceSheetOfYear investments financing stmts r cash
                    (Z.of_nat j)) in Hnth.
    assert (BalanceSheetYear.retainedEarnings first
            == Js.sum_by IncomeStatementYear.netIncome (firstn j stmts)) as Hfirst.
    { unfold first, Statements.balanceSheetOfYear.
      cbn [BalanceSheetYear.retainedEarnings].
      rewrite (find_statement stmts 1 n (Z.of_nat j) Hyears).
      destruct j as [|j].
      - cbn [Z.of_nat Z.leb Z.compare andb]. exact Hr.
      - assert (((1 <=? Z.of_nat (S j)) && (Z.of_nat (S j) <? 1 + Z.of_nat n))%Z = true)
          as -> by (apply andb_true_iff; split; [apply Z.leb_le | apply Z.ltb_lt]; lia).
        replace (Z.to_nat (Z.of_nat (S j) - 1)) with j by lia.
        destruct (nth_error stmts j) as [yearIncome|] eqn:Hnth'.
        + rewrite (sum_by_firstn_succ _ _ _ _ Hnth'), Hr. reflexivity.
        + apply nth_error_None in Hnth'. lia. }
    destruct k as [|k].
    + injection Hnth as <-. rewrite Nat.add_0_r. exact Hfirst.
    + cbn [nth_error] in Hnth.
      replace (Z.of_nat j + 1)%Z with (Z.of_nat (S j)) in Hnth by lia.
      rewrite Nat.add_succ_r.
      apply (IH (S j) (BalanceSheetYear.retainedEarnings first)
               (BalanceSheetYear.cash first) k row); [lia | exact Hfirst | exact Hnth].
Qed.

(** X18. The retained earnings of a balance sheet are the net income of
    the income statements up to its year, and those of the last balance
    sheet are the total net income that the indicators divide by the
    investment. *)
Theorem retained_earnings_accumulate
    (m : ProjectModel.t) (k : nat) (row : BalanceSheetYear.t) :
  nth_error (Analysis.balanceSheetsOf m) k = Some row ->
  BalanceSheetYear.retainedEarnings row
  == Js.sum_by IncomeStatementYear.netIncome (firstn k (Analysis.incomeStatementsOf m))
  /\ ((List.length (Analysis.incomeStatementsOf m) <= k)%nat ->
      BalanceSheetYear.retainedEarnings row == AnalysisIndicators.totalNetIncome m).
Proof.
  intro Hnth.
  assert (Hsum :
    BalanceSheetYear.retainedEarnings row
    == Js.sum_by IncomeStatementYear.netIncome
         (firstn (0 + k) (Analysis.incomeStatementsOf m))).
  { unfold Analysis.balanceSheetsOf, Statements.generateBalanceSheets, Js.range in Hnth.
    pose proof (incomeStatements_years m) as Hyears. unfold Js.range in Hyears.
    apply (balanceSheetLoop_retained (ProjectModel.investments m)
             (ProjectModel.financing m) _ _ Hyears
             (Z.to_nat
                (ProjectData.constructionYears (ProjectModel.project m)
                 + ProjectData.operationYears (ProjectModel.project m) - 0 + 1))
             0%nat 0 0 k row); [lia| |exact Hnth].
    reflexivity. }
  cbn [Nat.add] in Hsum. split; [exact Hsum|].
  intro Hlast. rewrite Hsum, firstn_all2 by exact Hlast. reflexivity.
Qed.

Lemma retained_earnings_accumulate_witness :
  exists row,
    nth_error (Analysis.balanceSheetsOf Cases.workshop) 3 = Some row
    /\ BalanceSheetYear.retainedEarnings row
       == AnalysisIndicators.totalNetIncome Cases.workshop.
Proof.
  eexists. split; [reflexivity|].
  apply (proj2 (retained_earnings_accumulate Cases.workshop 3 _ eq_refl)).
  vm_compute. lia.
Defined.

(** ** The sensitivity driver *)

Lemma npv_fold_scale (a factor : Q) (flows : list Q) (t : Z) :
  Js.reduce_from (fun npv cf t => npv + cf / Js.Math_pow a t)
    (map (fun x => x * factor) flows) t 0
  == factor * Js.reduce_from (fun npv cf t => npv + cf / Js.Math_pow a t) flows t 0.
Proof.
  revert t. induction flows as [|x flows IH]; intro t; cbn [map Js.reduce_from].
  - ring.
  - rewrite npv_fold_shift, IH.
    rewrite (npv_fold_shift a flows (t + 1) (0 + x / Js.Math_pow a t)).
    unfold Qdiv. ring.
Qed.

Lemma npv_fold_netFlows (a : Q) (revenue operatingCosts : list Q) (t : Z) :
  List.length revenue = List.length operatingCosts ->
  Js.reduce_from (fun npv cf t => npv + cf / Js.Math_pow a t)
    (Sensitivity.netFlows revenue operatingCosts) t 0
  == Js.reduce_from (fun npv cf t => npv + cf / Js.Math_pow a t) revenue t 0
     - Js.reduce_from (fun npv cf t => npv + cf / Js.Math_pow a t) operatingCosts t 0.
Proof.
  revert operatingCosts t.
  induction revenue as [|r revenue IH]; intros [|c operatingCosts] t Hlen;
    try discriminate; cbn [Sensitivity.netFlows hd tl Js.reduce_from].
  - ring.
  - rewrite npv_fold_shift, IH by (cbn in Hlen; lia).
    rewrite (npv_fold_shift a revenue (t + 1) (0 + r / Js.Math_pow a t)).
    rewrite (npv_fold_shift a operatingCosts (t + 1) (0 + c / Js.Math_pow a t)).
    unfold Qdiv. ring.
Qed.

Lemma npv_of_driver_flows (investmentCost : Q) (revenue operatingCosts : list Q)
    (discountRate : Q) :
  List.length revenue = List.length operatingCosts ->
  Indicators.calculateNPV
    ((- investmentCost) :: Sensitivity.netFlows revenue operatingCosts) discountRate
  == - investmentCost
     + Indicators.calculateNPV (0 :: revenue) discountRate
     - Indicators.calculateNPV (0 :: operatingCosts) discountRate.
Proof.
  intro Hlen. unfold Indicators.calculateNPV, Js.reduce. cbn [Js.reduce_from].
  set (a := 1 + discountRate / 100).
  rewrite (npv_fold_shift a _ (0 + 1) (0 + - investmentCost / Js.Math_pow a 0)).
  rewrite (npv_fold_shift a revenue (0 + 1) (0 + 0 / Js.Math_pow a 0)).
  rewrite (npv_fold_shift a operatingCosts (0 + 1) (0 + 0 / Js.Math_pow a 0)).
  rewrite (npv_fold_netFlows a revenue operatingCosts (0 + 1) Hlen).
  unfold Js.Math_pow. change (a ^ 0) with 1. field.
Qed.

Lemma present_value_scale (factor : Q) (flows : list Q) (discountRate : Q) :
  Indicators.calculateNPV (0 :: map (fun x => x * factor) flows) discountRate
  == factor * Indicators.calculateNPV (0 :: flows) discountRate.
Proof.
  unfold Indicators.calculateNPV, Js.reduce. cbn [Js.reduce_from].
  set (a := 1 + discountRate / 100).
  rewrite (npv_fold_shift a _ (0 + 1) (0 + 0 / Js.Math_pow a 0)).
  rewrite (npv_fold_shift a flows (0 + 1) (0 + 0 / Js.Math_pow a 0)).
  rewrite npv_fold_scale.
  unfold Js.Math_pow. change (a ^ 0) with 1. field.
Qed.

(** The NPV the driver records, in closed form, for the variables that
    scale the revenue, the operating costs or the investment. *)
Lemma driver_npv_closed (inputs : ProjectInputs.t) (variable : string) (variation : Q) :
  List.length (ProjectInputs.revenue inputs)
  = List.length (ProjectInputs.operatingCosts inputs) ->
  let npv := SensitivityResult.npv (Sensitivity.sensitivityOf inputs variable variation) in
  let presentValue flows :=
    Indicators.calculateNPV (0 :: flows) (ProjectInputs.discountRate inputs) in
  let factor := 1 + variation / 100 in
  (In variable ["revenue"; "price"; "sales"]%string ->
   npv == - ProjectInputs.investmentCost inputs
          + factor * presentValue (ProjectInputs.revenue inputs)
          - presentValue (ProjectInputs.operatingCosts inputs))
  /\ (In variable ["operatingCosts"; "costs"]%string ->
      npv == - ProjectInputs.investmentCost inputs
             + presentValue (ProjectInputs.revenue inputs)
             - factor * presentValue (ProjectInputs.operatingCosts inputs))
  /\ (In variable ["investment"; "investmentCost"]%string ->
      npv == - (ProjectInputs.investmentCost inputs * factor)
             + presentValue (ProjectInputs.revenue inputs)
             - presentValue (ProjectInputs.operatingCosts inputs)).
Proof.
  intros Hlen npv presentValue factor. subst npv presentValue factor. cbv beta.
  unfold Sensitivity.sensitivityOf, Sensitivity.recalculateCashFlows.
  cbn [SensitivityResult.npv].
  split; [|split]; intro Hvar; cbn [In] in Hvar.
  - assert (Sensitivity.applyVariation inputs variable variation
            = ProjectInputs.mk
                (map (fun r => r * (1 + variation / 100)) (ProjectInputs.revenue inputs))
                (ProjectInputs.operatingCosts inputs)
                (ProjectInputs.investmentCost inputs)
                (ProjectInputs.discountRate inputs) (ProjectInputs.cashFlows inputs))
      as -> by (destruct Hvar as [<- | [<- | [<- | []]]]; reflexivity).
    cbn [ProjectInputs.revenue ProjectInputs.operatingCosts
         ProjectInputs.investmentCost ProjectInputs.discountRate].
    rewrite npv_of_driver_flows by (rewrite length_map; exact Hlen).
    rewrite present_value_scale. reflexivity.
  - assert (Sensitivity.applyVariation inputs variable variation
            = ProjectInputs.mk
                (ProjectInputs.revenue inputs)
                (map (fun c => c * (1 + variation / 100))
                   (ProjectInputs.operatingCosts inputs))
                (ProjectInputs.investmentCost inputs)
                (ProjectInputs.discountRate inputs) (ProjectInputs.cashFlows inputs))
      as -> by (destruct Hvar as [<- | [<- | []]]; reflexivity).
    cbn [ProjectInputs.revenue ProjectInputs.operatingCosts
         ProjectInputs.investmentCost ProjectInputs.discountRate].
    rewrite npv_of_driver_flows by (rewrite length_map; exact Hlen).
    rewrite present_value_scale. reflexivity.
  - assert (Sensitivity.applyVariation inputs variable variation
            = ProjectInputs.mk
                (ProjectInputs.revenue inputs) (ProjectInputs.operatingCosts inputs)
                (ProjectInputs.investmentCost inputs * (1 + variation / 100))
                (ProjectInputs.discountRate inputs) (ProjectInputs.cashFlows inputs))
      as -> by (destruct Hvar as [<- | [<- | []]]; reflexivity).
    cbn [ProjectInputs.revenue ProjectInputs.operatingCosts
         ProjectInputs.investmentCost ProjectInputs.discountRate].
    rewrite npv_of_driver_flows by exact Hlen. reflexivity.
Qed.

(** X19. The NPV of the sensitivity driver answers a variation in a
    straight line: each percent on the revenue adds one hundredth of the
    present value of the revenue, each percent on the operating costs
    takes off one hundredth of the present value of the costs, and each
    percent on the investment takes off one hundredth of the investment. *)
Theorem sensitivity_npv_is_linear
    (inputs : ProjectInputs.t) (variable : string) (variation : Q) :
  List.length (ProjectInputs.revenue inputs)
  = List.length (ProjectInputs.operatingCosts inputs) ->
  let npv v := SensitivityResult.npv (Sensitivity.sensitivityOf inputs variable v) in
  let presentValue flows :=
    Indicators.calculateNPV (0 :: flows) (ProjectInputs.discountRate inputs) in
  (In variable ["revenue"; "price"; "sales"]%string ->
   npv variation
   == npv 0 + variation / 100 * presentValue (ProjectInputs.revenue inputs))
  /\ (In variable ["operatingCosts"; "costs"]%string ->
      npv variation
      == npv 0 - variation / 100 * presentValue (ProjectInputs.operatingCosts inputs))
  /\ (In variable ["investment"; "investmentCost"]%string ->
      npv variation == npv 0 - variation / 100 * ProjectInputs.investmentCost inputs).
Proof.
  intros Hlen npv presentValue. subst npv presentValue. cbv beta.
  destruct (driver_npv_closed inputs variable variation Hlen) as [Hr [Hc Hi]].
  destruct (driver_npv_closed inputs variable 0 Hlen) as [Hr0 [Hc0 Hi0]].
  cbv zeta in Hr, Hc, Hi, Hr0, Hc0, Hi0.
  split; [|split]; intro Hvar.
  - rewrite (Hr Hvar), (Hr0 Hvar). field.
  - rewrite (Hc Hvar), (Hc0 Hvar). field.
  - rewrite (Hi Hvar), (Hi0 Hvar). field.
Qed.

Lemma sensitivity_npv_is_linear_witness :
  let inputs := ProjectInputs.mk [500; 600] [200; 250] 700 10 [] in
  SensitivityResult.npv (Sensitivity.sensitivityOf inputs "costs" 20)
  == SensitivityResult.npv (Sensitivity.sensitivityOf inputs "costs" 0)
     - 20 / 100 * Indicators.calculateNPV (0 :: [200; 250]) 10.
Proof.
  cbv zeta.
  apply (proj1 (proj2 (sensitivity_npv_is_linear
                         (ProjectInputs.mk [500; 600] [200; 250] 700 10 []) "costs" 20
                         eq_refl))).
  right. left. reflexivity.
Defined.

Lemma Forall2_Qeq_refl (xs : list Q) : Forall2 Qeq xs xs.
Proof. induction xs; constructor; [reflexivity | assumption]. Qed.

Lemma map_unit_factor (factor : Q) (xs : list Q) :
  factor == 1 -> Forall2 Qeq (map (fun x => x * factor) xs) xs.
Proof.
  intro H. induction xs as [|x xs IH]; cbn [map]; constructor; [|exact IH].
  rewrite H. ring.
Qed.

Lemma netFlows_equal (revenue revenue' operatingCosts operatingCosts' : list Q) :
  Forall2 Qeq revenue revenue' -> Forall2 Qeq operatingCosts operatingCosts' ->
  Forall2 Qeq (Sensitivity.netFlows revenue operatingCosts)
    (Sensitivity.netFlows revenue' operatingCosts').
Proof.
  intro Hr. revert operatingCosts operatingCosts'.
  induction Hr as [|r r' revenue revenue' Hr0 Hr IH]; intros costs costs' Hc;
    cbn [Sensitivity.netFlows]; constructor.
  - destruct Hc as [|c c' costs costs' Hc0 Hc]; cbn [hd]; [rewrite Hr0 | rewrite Hr0, Hc0];
      reflexivity.
  - apply IH. destruct Hc; [constructor | assumption].
Qed.

Lemma applyVariation_neutral (inputs : ProjectInputs.t) (variable : string) (variation : Q) :
  variation == 0
  \/ ~ In variable
         ["revenue"; "price"; "sales"; "operatingCosts"; "costs"; "investment";
          "investmentCost"; "discountRate"]%string ->
  Forall2 Qeq
    (Sensitivity.recalculateCashFlows (Sensitivity.applyVariation inputs variable variation))
    (Sensitivity.recalculateCashFlows inputs)
  /\ ProjectInputs.discountRate (Sensitivity.applyVariation inputs variable variation)
     == ProjectInputs.discountRate inputs.
Proof.
  intros [Hzero | Hother].
  - assert (1 + variation / 100 == 1) as Hfactor by (rewrite Hzero; reflexivity).
    unfold Sensitivity.applyVariation, Sensitivity.recalculateCashFlows.
    destruct (String.eqb variable "revenue" || String.eqb variable "price"
              || String.eqb variable "sales");
      [|destruct (String.eqb variable "operatingCosts" || String.eqb variable "costs");
        [|destruct (String.eqb variable "investment"
                    || String.eqb variable "investmentCost");
          [|destruct (String.eqb variable "discountRate")]]];
      cbn [ProjectInputs.revenue ProjectInputs.operatingCosts
           ProjectInputs.investmentCost ProjectInputs.discountRate].
    + split; [|reflexivity]. constructor; [reflexivity|].
      apply netFlows_equal; [apply map_unit_factor; exact Hfactor | apply Forall2_Qeq_refl].
    + split; [|reflexivity]. constructor; [reflexivity|].
      apply netFlows_equal; [apply Forall2_Qeq_refl | apply map_unit_factor; exact Hfactor].
    + split; [|reflexivity]. constructor; [rewrite Hfactor; ring | apply Forall2_Qeq_refl].
    + split; [apply Forall2_Qeq_refl | rewrite Hfactor; ring].
    + split; [apply Forall2_Qeq_refl | reflexivity].
  - assert (forall name,
              In name
                ["revenue"; "price"; "sales"; "operatingCosts"; "costs"; "investment";
                 "investmentCost"; "discountRate"]%string ->
              String.eqb variable name = false) as Hno.
    { intros name Hname. apply String.eqb_neq. intros ->. exact (Hother Hname). }
    unfold Sensitivity.applyVariation.
    rewrite !Hno by (cbn [In]; tauto). cbn [orb].
    split; [apply Forall2_Qeq_refl | reflexivity].
Qed.

(** X20. A variation of zero changes nothing, whatever the variable, and
    a variable the driver does not know changes nothing, whatever the
    variation: the NPV and the IRR recorded are those of the unchanged
    inputs. *)
Theorem sensitivity_at_rest (inputs : ProjectInputs.t) (variable : string) (variation : Q) :
  variation == 0
  \/ ~ In variable
         ["revenue"; "price"; "sales"; "operatingCosts"; "costs"; "investment";
          "investmentCost"; "discountRate"]%string ->
  SensitivityResult.npv (Sensitivity.sensitivityOf inputs variable variation)
  == Indicators.calculateNPV (Sensitivity.recalculateCashFlows inputs)
       (ProjectInputs.discountRate inputs)
  /\ SensitivityResult.irr (Sensitivity.sensitivityOf inputs variable variation)
     == Indicators.calculateIRR (Sensitivity.recalculateCashFlows inputs)
          Indicators.defaultGuess.
Proof.
  intro H. destruct (applyVariation_neutral inputs variable variation H) as [Hflows Hrate].
  unfold Sensitivity.sensitivityOf.
  cbn [SensitivityResult.npv SensitivityResult.irr]. split.
  - apply calculateNPV_equal; assumption.
  - apply calculateIRR_equal. exact Hflows.
Qed.

Lemma sensitivity_at_rest_witness :
  SensitivityResult.npv
    (Sensitivity.sensitivityOf (ProjectInputs.mk [500; 600] [200; 250] 700 10 [])
       "inflation" 20)
  == Indicators.calculateNPV
       (Sensitivity.recalculateCashFlows (ProjectInputs.mk [500; 600] [200; 250] 700 10 []))
       (ProjectInputs.discountRate (ProjectInputs.mk [500; 600] [200; 250] 700 10 [])).
Proof.
  assert (~ In "inflation"%string
              ["revenue"; "price"; "sales"; "operatingCosts"; "costs"; "investment";
               "investmentCost"; "discountRate"]%string) as Hother.
  { cbn [In]. intros [H | [H | [H | [H | [H | [H | [H | [H | []]]]]]]]]; discriminate. }
  exact (proj1 (sensitivity_at_rest (ProjectInputs.mk [500; 600] [200; 250] 700 10 [])
                  "inflation" 20 (or_intror Hother))).
Defined.

(** ** The tornado rows of the sensitivity route *)

Lemma in_calculateSensitivity
    (inputs : ProjectInputs.t) (config : SensitivityConfig.t) (r : SensitivityResult.t) :
  In r (Sensitivity.calculateSensitivity inputs config)
  <-> exists variable variation,
        In variable (SensitivityConfig.variables config)
        /\ In variation
             (match SensitivityConfig.variations config with
              | Some vs => vs
              | None => Sensitivity.defaultVariations
              end)
        /\ r = Sensitivity.sensitivityOf inputs variable variation.
Proof.
  unfold Sensitivity.calculateSensitivity. rewrite in_flat_map. split.
  - intros [variable [Hvar Hr]]. apply in_map_iff in Hr.
    destruct Hr as [variation [<- Hv]]. exists variable, variation. tauto.
  - intros [variable [variation [Hvar [Hv ->]]]]. exists variable.
    split; [exact Hvar|]. apply in_map. exact Hv.
Qed.

(** What a tornado row built from the results of the driver holds. *)
Lemma tornado_of_driver
    (inputs : ProjectInputs.t) (config : SensitivityConfig.t) (row : TornadoRow.t) :
  let variations :=
    match SensitivityConfig.variations config with
    | Some vs => vs
    | None => Sensitivity.defaultVariations
    end in
  In row (Sensitivity.generateTornadoData (Sensitivity.calculateSensitivity inputs config)) ->
  In (TornadoRow.variable row) (SensitivityConfig.variables config)
  /\ exists lo zero hi,
       In lo variations /\ In zero variations /\ In hi variations
       /\ zero == 0
       /\ (forall v, In v variations -> lo <= v /\ v <= hi)
       /\ TornadoRow.lowNPV row
          = SensitivityResult.npv
              (Sensitivity.sensitivityOf inputs (TornadoRow.variable row) lo)
       /\ TornadoRow.baseNPV row
          = SensitivityResult.npv
              (Sensitivity.sensitivityOf inputs (TornadoRow.variable row) zero)
       /\ TornadoRow.highNPV row
          = SensitivityResult.npv
              (Sensitivity.sensitivityOf inputs (TornadoRow.variable row) hi).
Proof.
  intros variations Hrow.
  set (results := Sensitivity.calculateSensitivity inputs config) in *.
  unfold Sensitivity.generateTornadoData in Hrow.
  apply sort_in in Hrow. apply in_flat_map in Hrow.
  destruct Hrow as [[k rs] [Hg Hrow]]. cbn [fst snd] in Hrow.
  destruct (groupByVariable_spec results) as [_ [Hgroups _]].
  pose proof (Hgroups k rs Hg) as Hrs.
  assert (Hfrom : forall r, In r rs ->
            In k (SensitivityConfig.variables config)
            /\ exists v, In v variations /\ r = Sensitivity.sensitivityOf inputs k v).
  { intros r Hr. rewrite Hrs in Hr. apply filter_In in Hr. destruct Hr as [Hr Hk].
    apply String.eqb_eq in Hk. apply in_calculateSensitivity in Hr.
    destruct Hr as [variable [variation [Hvar [Hv ->]]]].
    cbn [Sensitivity.sensitivityOf SensitivityResult.variable] in Hk. subst variable.
    split; [exact Hvar|]. exists variation. split; [exact Hv | reflexivity]. }
  destruct (tornadoRowOf_cases k rs)
    as [[Hnil _] | [low [base [high [Hlow [Hbase [Hhigh [Hbounds [Hzero Heq]]]]]]]]].
  - rewrite Hnil in Hrow. destruct Hrow.
  - rewrite Heq in Hrow. destruct Hrow as [<- | []].
    cbn [TornadoRow.variable TornadoRow.lowNPV TornadoRow.baseNPV TornadoRow.highNPV].
    destruct (Hfrom low Hlow) as [Hk [lo [Hlo ->]]].
    destruct (Hfrom base Hbase) as [_ [zero [Hz ->]]].
    destruct (Hfrom high Hhigh) as [_ [hi [Hhi ->]]].
    split; [exact Hk|]. exists lo, zero, hi.
    split; [exact Hlo|]. split; [exact Hz|]. split; [exact Hhi|].
    split; [exact Hzero|]. split; [|split; [|split]]; try reflexivity.
    intros v Hv.
    apply (Hbounds (Sensitivity.sensitivityOf inputs k v)).
    rewrite Hrs. apply filter_In. split.
    + apply in_calculateSensitivity. exists k, v. tauto.
    + apply String.eqb_refl.
Qed.

Lemma tornado_covers_variables
    (inputs : ProjectInputs.t) (config : SensitivityConfig.t) (variable : string) :
  In variable (SensitivityConfig.variables config) ->
  (exists zero,
     In zero
       (match SensitivityConfig.variations config with
        | Some vs => vs
        | None => Sensitivity.defaultVariations
        end)
     /\ zero == 0) ->
  In variable
    (map TornadoRow.variable
       (Sensitivity.generateTornadoData (Sensitivity.calculateSensitivity inputs config))).
Proof.
  intros Hvar [zero [Hz Hzero]].
  set (results := Sensitivity.calculateSensitivity inputs config).
  destruct (groupByVariable_spec results) as [_ [Hgroups Hkeys]].
  assert (In (Sensitivity.sensitivityOf inputs variable zero) results) as Hres
    by (apply in_calculateSensitivity; exists variable, zero; tauto).
  assert (In variable (map fst (Sensitivity.groupByVariable results))) as Hkey.
  { apply Hkeys. apply in_map_iff.
    exists (Sensitivity.sensitivityOf inputs variable zero). split; [reflexivity | exact Hres]. }
  apply in_map_iff in Hkey. destruct Hkey as [[k rs] [Hk Hg]]. cbn [fst] in Hk. subst k.
  pose proof (Hgroups variable rs Hg) as Hrs.
  destruct (tornadoRowOf_cases variable rs)
    as [[_ Hnone] | [low [base [high [_ [_ [_ [_ [_ Hrow]]]]]]]]].
  - exfalso. apply (Hnone (Sensitivity.sensitivityOf inputs variable zero)); [|exact Hzero].
    rewrite Hrs. apply filter_In. split; [exact Hres | apply String.eqb_refl].
  - apply in_map_iff.
    exists (TornadoRow.mk variable (SensitivityResult.npv low) (SensitivityResult.npv base)
              (SensitivityResult.npv high)
              (Qabs (SensitivityResult.npv high - SensitivityResult.npv low))).
    split; [reflexivity|].
    unfold Sensitivity.generateTornadoData. apply sort_in.
    apply in_flat_map. exists (variable, rs). split; [exact Hg|].
    cbn [fst snd]. rewrite Hrow. left. reflexivity.
Qed.

Lemma route_variation_bounds (lo hi : Q) :
  In lo Analysis.sensitivityVariations -> In hi Analysis.sensitivityVariations ->
  (forall v, In v Analysis.sensitivityVariations -> lo <= v /\ v <= hi) ->
  lo = -20 /\ hi = 20.
Proof.
  intros Hlo Hhi Hbounds.
  assert (lo <= -20) as Hmin by (apply Hbounds; left; reflexivity).
  assert (20 <= hi) as Hmax by (apply Hbounds; do 8 right; left; reflexivity).
  unfold Analysis.sensitivityVariations in Hlo, Hhi. cbn [In] in Hlo, Hhi.
  split.
  - destruct Hlo as [<- | [<- | [<- | [<- | [<- | [<- | [<- | [<- | [<- | []]]]]]]]]];
      try reflexivity; exfalso; revert Hmin; clear; intro H; lra.
  - destruct Hhi as [<- | [<- | [<- | [<- | [<- | [<- | [<- | [<- | [<- | []]]]]]]]]];
      try reflexivity; exfalso; revert Hmax; clear; intro H; lra.
Qed.

Lemma sensitivityInputs_lengths (m : ProjectModel.t) :
  List.length (ProjectInputs.revenue (Analysis.sensitivityInputs m))
  = List.length (ProjectInputs.operatingCosts (Analysis.sensitivityInputs m)).
Proof.
  unfold Analysis.sensitivityInputs.
  cbn [ProjectInputs.revenue ProjectInputs.operatingCosts].
  rewrite !length_map. reflexivity.
Qed.

(** X21. The tornado of the sensitivity route has one row for each
    variable asked for.  Its base NPV is the NPV of the unchanged inputs;
    for a variable that scales the revenue the low and high NPV lie one
    fifth of the present value of the revenue below and above it; for a
    variable that scales the costs or the investment the low NPV (the one
    at -20 %) lies one fifth of the present value of the costs, or of the
    investment, above it and the high NPV as much below. *)
Theorem route_tornado_rows (m : ProjectModel.t) (variables : list string) :
  let rows := snd (Analysis.sensitivity m variables) in
  let inputs := Analysis.sensitivityInputs m in
  let base :=
    Indicators.calculateNPV (Sensitivity.recalculateCashFlows inputs)
      (ProjectInputs.discountRate inputs) in
  let presentValue flows :=
    Indicators.calculateNPV (0 :: flows) (ProjectInputs.discountRate inputs) in
  (forall v, In v (map TornadoRow.variable rows) <-> In v variables)
  /\ Forall
       (fun row =>
          TornadoRow.baseNPV row == base
          /\ (In (TornadoRow.variable row) ["revenue"; "price"; "sales"]%string ->
              TornadoRow.lowNPV row
              == base - 1 / 5 * presentValue (ProjectInputs.revenue inputs)
              /\ TornadoRow.highNPV row
                 == base + 1 / 5 * presentValue (ProjectInputs.revenue inputs))
          /\ (In (TornadoRow.variable row) ["operatingCosts"; "costs"]%string ->
              TornadoRow.lowNPV row
              == base + 1 / 5 * presentValue (ProjectInputs.operatingCosts inputs)
              /\ TornadoRow.highNPV row
                 == base - 1 / 5 * presentValue (ProjectInputs.operatingCosts inputs))
          /\ (In (TornadoRow.variable row) ["investment"; "investmentCost"]%string ->
              TornadoRow.lowNPV row == base + 1 / 5 * ProjectInputs.investmentCost inputs
              /\ TornadoRow.highNPV row
                 == base - 1 / 5 * ProjectInputs.investmentCost inputs))
       rows.
Proof.
  intros rows inputs base presentValue.
  set (config := SensitivityConfig.mk variables (Some Analysis.sensitivityVariations)).
  assert (Hrows : rows
                  = Sensitivity.generateTornadoData
                      (Sensitivity.calculateSensitivity inputs config)) by reflexivity.
  pose proof (sensitivityInputs_lengths m) as Hlen. fold inputs in Hlen.
  assert (Hbase : base
                  == - ProjectInputs.investmentCost inputs
                     + presentValue (ProjectInputs.revenue inputs)
                     - presentValue (ProjectInputs.operatingCosts inputs)).
  { unfold base, presentValue, Sensitivity.recalculateCashFlows.
    apply npv_of_driver_flows. exact Hlen. }
  split.
  - intro v. split.
    + intro Hv. apply in_map_iff in Hv. destruct Hv as [row [<- Hrow]].
      rewrite Hrows in Hrow.
      exact (proj1 (tornado_of_driver inputs config row Hrow)).
    + intro Hv. rewrite Hrows.
      apply (tornado_covers_variables inputs config v Hv).
      exists 0. split; [do 4 right; left; reflexivity | reflexivity].
  - apply Forall_forall. intros row Hrow. rewrite Hrows in Hrow.
    destruct (tornado_of_driver inputs config row Hrow)
      as [_ [lo [zero [hi [Hlo [_ [Hhi [Hzero [Hbounds [Hl [Hb Hh]]]]]]]]]]].
    cbn [config SensitivityConfig.variations] in Hlo, Hhi, Hbounds.
    destruct (route_variation_bounds lo hi Hlo Hhi Hbounds) as [-> ->].
    rewrite Hl, Hb, Hh.
    destruct (driver_npv_closed inputs (TornadoRow.variable row) (-20) Hlen)
      as [Hr1 [Hc1 Hi1]].
    destruct (driver_npv_closed inputs (TornadoRow.variable row) 20 Hlen)
      as [Hr2 [Hc2 Hi2]].
    cbv zeta in Hr1, Hc1, Hi1, Hr2, Hc2, Hi2.
    unfold presentValue in Hbase |- *.
    split; [|split; [|split]].
    + destruct (applyVariation_neutral inputs (TornadoRow.variable row) zero
                  (or_introl Hzero)) as [Hflows Hrate].
      unfold Sensitivity.sensitivityOf. cbn [SensitivityResult.npv].
      apply calculateNPV_equal; assumption.
    + intro Hvar. rewrite (Hr1 Hvar), (Hr2 Hvar), Hbase. split; field.
    + intro Hvar. rewrite (Hc1 Hvar), (Hc2 Hvar), Hbase. split; field.
    + intro Hvar. rewrite (Hi1 Hvar), (Hi2 Hvar), Hbase. split; field.
Qed.

(** ** The break-even search *)

Lemma searchLoop_sound (inputs : ProjectInputs.t) (variable : string)
    (n : nat) (low high v : Q) :
  low < high ->
  BreakEvenSearch.searchLoop inputs variable n low high = Some v ->
  Qabs (BreakEvenSearch.npvAt inputs variable v) < BreakEvenSearch.tolerance
  /\ low < v /\ v < high.
Proof.
  revert low high v. induction n as [|n IH]; intros low high v Hlt Hfound.
  - discriminate.
  - cbn [BreakEvenSearch.searchLoop] in Hfound. cbv zeta in Hfound.
    assert (low < (low + high) / 2 /\ (low + high) / 2 < high) as [Hlo Hhi].
    { split; [apply Qlt_shift_div_l | apply Qlt_shift_div_r]; lra. }
    assert (Hleft : forall w,
              BreakEvenSearch.searchLoop inputs variable n low ((low + high) / 2) = Some w ->
              Qabs (BreakEvenSearch.npvAt inputs variable w) < BreakEvenSearch.tolerance
              /\ low < w /\ w < high).
    { intros w Hw. destruct (IH _ _ w Hlo Hw) as [H1 [H2 H3]].
      split; [exact H1|]. split; lra. }
    assert (Hright : forall w,
              BreakEvenSearch.searchLoop inputs variable n ((low + high) / 2) high = Some w ->
              Qabs (BreakEvenSearch.npvAt inputs variable w) < BreakEvenSearch.tolerance
              /\ low < w /\ w < high).
    { intros w Hw. destruct (IH _ _ w Hhi Hw) as [H1 [H2 H3]].
      split; [exact H1|]. split; lra. }
    destruct (Js.lt (Js.Math_abs (BreakEvenSearch.npvAt inputs variable ((low + high) / 2)))
                BreakEvenSearch.tolerance) eqn:Hclose.
    + injection Hfound as <-. apply lt_true_iff in Hclose.
      split; [exact Hclose|]. split; assumption.
    + destruct ((String.eqb variable "revenue" || String.eqb variable "price")
                && Js.lt (BreakEvenSearch.npvAt inputs variable ((low + high) / 2)) 0);
        [exact (Hright v Hfound)|].
      destruct ((String.eqb variable "costs" || String.eqb variable "investment")
                && Js.lt (BreakEvenSearch.npvAt inputs variable ((low + high) / 2)) 0);
        [exact (Hleft v Hfound)|].
      destruct (Js.gt (BreakEvenSearch.npvAt inputs variable 0) 0).
      * destruct (Js.gt (BreakEvenSearch.npvAt inputs variable ((low + high) / 2)) 0);
          [exact (Hright v Hfound) | exact (Hleft v Hfound)].
      * destruct (Js.lt (BreakEvenSearch.npvAt inputs variable ((low + high) / 2)) 0);
          [exact (Hright v Hfound) | exact (Hleft v Hfound)].
Qed.

Lemma findBreakEvenVariation_loop (inputs : ProjectInputs.t) (variable : string) :
  BreakEvenSearch.findBreakEvenVariation inputs variable
  = BreakEvenSearch.searchLoop inputs variable BreakEvenSearch.maxIterations (-100) 100.
Proof. reflexivity. Qed.

(** X22. A variation the break-even search returns lies strictly between
    -100 and 100, and the NPV at that variation is within the tolerance of
    0.1 of zero. *)
Theorem break_even_variation_is_sound
    (inputs : ProjectInputs.t) (variable : string) (v : Q) :
  BreakEvenSearch.findBreakEvenVariation inputs variable = Some v ->
  -100 < v /\ v < 100
  /\ Qabs
       (Indicators.calculateNPV
          (Sensitivity.recalculateCashFlows (Sensitivity.applyVariation inputs variable v))
          (ProjectInputs.discountRate (Sensitivity.applyVariation inputs variable v)))
     < 0.1.
Proof.
  intro Hfound. rewrite findBreakEvenVariation_loop in Hfound.
  assert (-100 < 100) as Hlt by reflexivity.
  destruct (searchLoop_sound inputs variable BreakEvenSearch.maxIterations (-100) 100 v
              Hlt Hfound) as [Hnpv [Hlo Hhi]].
  unfold BreakEvenSearch.npvAt, BreakEvenSearch.tolerance in Hnpv. cbv zeta in Hnpv.
  split; [exact Hlo|]. split; [exact Hhi|]. exact Hnpv.
Qed.

Lemma break_even_variation_is_sound_witness :
  BreakEvenSearch.findBreakEvenVariation (ProjectInputs.mk [220] [110] 50 10 []) "costs"
  = Some (200 # 4)
  /\ -100 < 200 # 4 /\ 200 # 4 < 100.
Proof.
  assert (BreakEvenSearch.findBreakEvenVariation (ProjectInputs.mk [220] [110] 50 10 [])
            "costs" = Some (200 # 4)) as Hfound by (vm_compute; reflexivity).
  split; [exact Hfound|].
  pose proof (break_even_variation_is_sound (ProjectInputs.mk [220] [110] 50 10 [])
                "costs" (200 # 4) Hfound) as H.
  split; [exact (proj1 H) | exact (proj1 (proj2 H))].
Defined.

Lemma searchLoop_upwards (inputs : ProjectInputs.t) (variable : string) (n : nat) (low : Q) :
  List.length (ProjectInputs.revenue inputs)
  = List.length (ProjectInputs.operatingCosts inputs) ->
  In variable ["revenue"; "price"; "sales"]%string ->
  0 <= Indicators.calculateNPV (0 :: ProjectInputs.revenue inputs)
         (ProjectInputs.discountRate inputs) ->
  BreakEvenSearch.tolerance
  <= Indicators.calculateNPV (Sensitivity.recalculateCashFlows inputs)
       (ProjectInputs.discountRate inputs) ->
  -100 <= low -> low <= 100 ->
  BreakEvenSearch.searchLoop inputs variable n low 100 = None.
Proof.
  intros Hlen Hvar Hpv Hbase.
  set (pv := Indicators.calculateNPV (0 :: ProjectInputs.revenue inputs)
               (ProjectInputs.discountRate inputs)) in *.
  set (base := Indicators.calculateNPV (Sensitivity.recalculateCashFlows inputs)
                 (ProjectInputs.discountRate inputs)) in *.
  assert (Hnpv : forall v, BreakEvenSearch.npvAt inputs variable v == base + v / 100 * pv).
  { intro v.
    change (BreakEvenSearch.npvAt inputs variable v)
      with (SensitivityResult.npv (Sensitivity.sensitivityOf inputs variable v)).
    destruct (driver_npv_closed inputs variable v Hlen) as [Hr _]. cbv zeta in Hr.
    rewrite (Hr Hvar). unfold base, Sensitivity.recalculateCashFlows.
    rewrite (npv_of_driver_flows _ _ _ _ Hlen). fold pv. ring. }
  assert (Htol : 0 < BreakEvenSearch.tolerance) by reflexivity.
  revert low. induction n as [|n IH]; intros low Hlo Hhi; [reflexivity|].
  cbn [BreakEvenSearch.searchLoop]. cbv zeta.
  set (mid := (low + 100) / 2).
  assert (0 <= mid /\ -100 <= mid /\ mid <= 100) as [Hmid0 [Hmid1 Hmid2]].
  { unfold mid. split; [|split];
      [apply Qle_shift_div_l | apply Qle_shift_div_l | apply Qle_shift_div_r]; lra. }
  assert (BreakEvenSearch.tolerance <= BreakEvenSearch.npvAt inputs variable mid) as Hup.
  { rewrite Hnpv. assert (0 <= mid / 100) by (apply Qle_shift_div_l; lra). nra. }
  assert (Js.lt (Js.Math_abs (BreakEvenSearch.npvAt inputs variable mid))
            BreakEvenSearch.tolerance = false) as ->.
  { apply lt_false_iff. unfold Js.Math_abs.
    assert (Qabs (BreakEvenSearch.npvAt inputs variable mid)
            == BreakEvenSearch.npvAt inputs variable mid) as Habs
      by (apply Qabs_pos; lra).
    rewrite Habs. exact Hup. }
  assert (Js.lt (BreakEvenSearch.npvAt inputs variable mid) 0 = false) as ->
    by (apply lt_false_iff; lra).
  rewrite !andb_false_r.
  assert (Js.gt (BreakEvenSearch.npvAt inputs variable 0) 0 = true) as ->.
  { apply lt_true_iff. rewrite Hnpv.
    assert (base + 0 / 100 * pv == base) as -> by field. lra. }
  assert (Js.gt (BreakEvenSearch.npvAt inputs variable mid) 0 = true) as ->
    by (apply lt_true_iff; lra).
  apply IH; assumption.
Qed.

(** X23. For a variable that scales the revenue, a project whose NPV is at
    least the tolerance of 0.1 and whose revenue has a present value that
    is not negative gets no break-even variation: the search only ever
    raises the revenue and ends with [null]. *)
Theorem revenue_break_even_is_not_found (inputs : ProjectInputs.t) (variable : string) :
  List.length (ProjectInputs.revenue inputs)
  = List.length (ProjectInputs.operatingCosts inputs) ->
  In variable ["revenue"; "price"; "sales"]%string ->
  0 <= Indicators.calculateNPV (0 :: ProjectInputs.revenue inputs)
         (ProjectInputs.discountRate inputs) ->
  0.1 <= Indicators.calculateNPV (Sensitivity.recalculateCashFlows inputs)
           (ProjectInputs.discountRate inputs) ->
  BreakEvenSearch.findBreakEvenVariation inputs variable = None.
Proof.
  intros Hlen Hvar Hpv Hbase. rewrite findBreakEvenVariation_loop.
  apply searchLoop_upwards; try assumption.
  - apply Qle_refl.
  - discriminate.
Qed.

Lemma revenue_break_even_is_not_found_witness :
  BreakEvenSearch.findBreakEvenVariation (ProjectInputs.mk [220] [110] 50 10 []) "revenue"
  = None.
Proof.
  apply revenue_break_even_is_not_found.
  - reflexivity.
  - left. reflexivity.
  - vm_compute. discriminate.
  - vm_compute. discriminate.
Defined.

(** ** The map of break-even variations *)

Lemma breakEvenVariations_fold (baseInputs : ProjectInputs.t) (variables : list string)
    (found : list (string * option Q)) (variable : string) :
  let final :=
    fold_left
      (fun breakEvenVariations variable =>
         Js.mapSet variable (BreakEvenSearch.findBreakEvenVariation baseInputs variable)
           breakEvenVariations)
      variables found in
  (NoDup (map fst found) -> NoDup (map fst final))
  /\ (In variable variables ->
      Js.mapGet variable final
      = Some (BreakEvenSearch.findBreakEvenVariation baseInputs variable))
  /\ (~ In variable variables -> Js.mapGet variable final = Js.mapGet variable found)
  /\ (In variable (map fst final) <-> In variable (map fst found) \/ In variable variables).
Proof.
  revert found. induction variables as [|x variables IH]; intro found; cbn [fold_left].
  - cbv zeta. split; [tauto|]. split; [intros []|]. split; [reflexivity|]. cbn [In]. tauto.
  - destruct (IH (Js.mapSet x (BreakEvenSearch.findBreakEvenVariation baseInputs x) found))
      as [Hnd [Hin [Hout Hkeys]]].
    cbv zeta in Hnd, Hin, Hout, Hkeys |- *.
    split; [|split; [|split]].
    + intro H. apply Hnd. apply mapSet_NoDup. exact H.
    + intros [-> | Hlater].
      * destruct (in_dec string_dec variable variables) as [Hagain | Hnot];
          [exact (Hin Hagain)|].
        rewrite (Hout Hnot), mapGet_mapSet, String.eqb_refl. reflexivity.
      * exact (Hin Hlater).
    + intro Hnot. rewrite Hout by (intro H; apply Hnot; right; exact H).
      rewrite mapGet_mapSet.
      destruct (String.eqb x variable) eqn:Hx; [|reflexivity].
      apply String.eqb_eq in Hx. exfalso. apply Hnot. left. exact Hx.
    + rewrite Hkeys, mapSet_keys. cbn [In]. intuition congruence.
Qed.

(** X24. The map of break-even variations holds exactly the variables
    asked for, each once, and looking one up gives the result of the
    search for that variable; a variable not asked for is not in the
    map. *)
Theorem break_even_variations_lookup
    (baseInputs : ProjectInputs.t) (variables : list string) (variable : string) :
  let breakEvenVariations :=
    BreakEvenSearch.calculateBreakEvenVariations baseInputs variables in
  NoDup (map fst breakEvenVariations)
  /\ (In variable (map fst breakEvenVariations) <-> In variable variables)
  /\ (In variable variables ->
      Js.mapGet variable breakEvenVariations
      = Some (BreakEvenSearch.findBreakEvenVariation baseInputs variable))
  /\ (~ In variable variables -> Js.mapGet variable breakEvenVariations = None).
Proof.
  cbv zeta. unfold BreakEvenSearch.calculateBreakEvenVariations.
  destruct (breakEvenVariations_fold baseInputs variables [] variable)
    as [Hnd [Hin [Hout Hkeys]]].
  cbv zeta in Hnd, Hin, Hout, Hkeys.
  split; [apply Hnd; constructor|]. split; [|split].
  - rewrite Hkeys. cbn [map In]. tauto.
  - exact Hin.
  - intro Hnot. rewrite (Hout Hnot). reflexivity.
Qed.

Lemma break_even_variations_lookup_witness :
  Js.mapGet "costs"
    (BreakEvenSearch.calculateBreakEvenVariations (ProjectInputs.mk [220] [110] 50 10 [])
       ["revenue"; "costs"]%string)
  = Some
      (BreakEvenSearch.findBreakEvenVariation (ProjectInputs.mk [220] [110] 50 10 [])
         "costs").
Proof.
  apply (proj1 (proj2 (proj2 (break_even_variations_lookup
                                (ProjectInputs.mk [220] [110] 50 10 [])
                                ["revenue"; "costs"]%string "costs")))).
  right. left. reflexivity.
Defined.

(** ** Fixed assets on the balance sheet *)

Lemma sum_by_filter {A : Type} (f : A -> Q) (p : A -> bool) (xs : list A) :
  Js.sum_by f (filter p xs) == Js.sum_by (fun x => if p x then f x else 0) xs.
Proof.
  induction xs as [|x xs IH]; cbn [filter].
  - reflexivity.
  - rewrite (sum_by_cons (fun x => if p x then f x else 0)).
    destruct (p x); [rewrite sum_by_cons|]; rewrite IH; ring.
Qed.

Lemma sum_by_le {A : Type} (f g : A -> Q) (xs : list A) :
  (forall x, In x xs -> f x <= g x) -> Js.sum_by f xs <= Js.sum_by g xs.
Proof.
  induction xs as [|x xs IH]; intro H.
  - apply Qle_refl.
  - rewrite !sum_by_cons.
    assert (f x <= g x) by (apply H; left; reflexivity).
    assert (Js.sum_by f xs <= Js.sum_by g xs)
      by (apply IH; intros y Hy; apply H; right; exact Hy).
    lra.
Qed.

Lemma accumulatedDepreciationOf_sum (investments : list InvestmentData.t) (year : Z) :
  Statements.accumulatedDepreciationOf investments year
  == Js.sum_by
       (fun inv =>
          if (InvestmentData.year inv <=? year)%Z && Statements.depreciable inv then
            Depreciation.calculateAccumulatedDepreciation
              (InvestmentData.amount inv) (InvestmentData.salvageValue inv)
              (InvestmentData.usefulLife inv) (InvestmentData.depreciationRate inv)
              (InvestmentData.depreciationMethod inv) year (InvestmentData.year inv)
          else 0)
       investments.
Proof.
  unfold Statements.accumulatedDepreciationOf.
  rewrite (fold_left_sum _
             (fun inv =>
                if (InvestmentData.year inv <=? year)%Z && Statements.depreciable inv then
                  Depreciation.calculateAccumulatedDepreciation
                    (InvestmentData.amount inv) (InvestmentData.salvageValue inv)
                    (InvestmentData.usefulLife inv) (InvestmentData.depreciationRate inv)
                    (InvestmentData.depreciationMethod inv) year (InvestmentData.year inv)
                else 0)).
  - ring.
  - intros acc inv.
    destruct ((InvestmentData.year inv <=? year)%Z && Statements.depreciable inv); ring.
Qed.

Lemma balanceSheetLoop_nth
    (investments : list InvestmentData.t) (financing : list FinancingData.t)
    (incomeStatements : list IncomeStatementYear.t)
    (years : list Z) (retainedEarnings cash : Q) (k : nat) (row : BalanceSheetYear.t) :
  nth_error
    (Statements.balanceSheetLoop investments financing incomeStatements years
       retainedEarnings cash) k = Some row ->
  exists carriedEarnings carriedCash year,
    nth_error years k = Some year
    /\ row = Statements.balanceSheetOfYear investments financing incomeStatements
               carriedEarnings carriedCash year.
Proof.
  revert retainedEarnings cash k.
  induction years as [|y years IH]; intros r c k Hnth.
  - destruct k; discriminate.
  - cbn [Statements.balanceSheetLoop] in Hnth. destruct k as [|k].
    + injection Hnth as <-. exists r, c, y. split; reflexivity.
    + cbn [nth_error] in Hnth |- *. exact (IH _ _ _ Hnth).
Qed.

(** X25. With investment amounts and salvage values that are not negative,
    no balance sheet writes its fixed assets down below zero: the
    accumulated depreciation never exceeds the fixed assets, and the net
    fixed assets, their difference, are never negative. *)
Theorem net_fixed_assets_nonneg
    (m : ProjectModel.t) (k : nat) (row : BalanceSheetYear.t) :
  Forall
    (fun inv => 0 <= InvestmentData.amount inv /\ 0 <= InvestmentData.salvageValue inv)
    (ProjectModel.investments m) ->
  nth_error (Analysis.balanceSheetsOf m) k = Some row ->
  BalanceSheetYear.accumulatedDepreciation row <= BalanceSheetYear.fixedAssets row
  /\ BalanceSheetYear.netFixedAssets row
     == BalanceSheetYear.fixedAssets row - BalanceSheetYear.accumulatedDepreciation row
  /\ 0 <= BalanceSheetYear.netFixedAssets row.
Proof.
  intros Hvalid Hnth.
  unfold Analysis.balanceSheetsOf, Statements.generateBalanceSheets in Hnth.
  apply balanceSheetLoop_nth in Hnth. destruct Hnth as [r [c [year [_ ->]]]].
  unfold Statements.balanceSheetOfYear.
  cbn [BalanceSheetYear.accumulatedDepreciation BalanceSheetYear.fixedAssets
       BalanceSheetYear.netFixedAssets].
  assert (Hle :
    Statements.accumulatedDepreciationOf (ProjectModel.investments m) year
    <= Js.sum_by InvestmentData.amount
         (filter
            (fun inv =>
               (InvestmentData.year inv <=? year)%Z
               && negb (String.eqb (InvestmentData.category inv) "working_capital"))
            (ProjectModel.investments m))).
  { rewrite accumulatedDepreciationOf_sum, sum_by_filter.
    apply sum_by_le. intros inv Hinv.
    rewrite Forall_forall in Hvalid. destruct (Hvalid inv Hinv) as [Hamount Hsalvage].
    unfold Statements.depreciable.
    destruct (InvestmentData.year inv <=? year)%Z; cbn [andb]; [|apply Qle_refl].
    destruct (String.eqb (InvestmentData.category inv) "working_capital");
      cbn [negb andb].
    - rewrite andb_false_r. apply Qle_refl.
    - destruct (negb (String.eqb (InvestmentData.category inv) "land")); cbn [andb];
        [|exact Hamount].
      unfold Depreciation.calculateAccumulatedDepreciation, Js.Math_min.
      eapply Qle_trans; [apply Q.le_min_r|]. lra. }
  split; [exact Hle|]. split; [reflexivity|]. lra.
Qed.

Lemma net_fixed_assets_nonneg_witness :
  exists row,
    nth_error (Analysis.balanceSheetsOf Cases.workshop) 2 = Some row
    /\ 0 <= BalanceSheetYear.netFixedAssets row.
Proof.
  eexists. split; [reflexivity|].
  assert (Forall
            (fun inv =>
               0 <= InvestmentData.amount inv /\ 0 <= InvestmentData.salvageValue inv)
            (ProjectModel.investments Cases.workshop)) as Hvalid.
  { repeat constructor; cbn; lra. }
  apply (net_fixed_assets_nonneg Cases.workshop 2 _ Hvalid eq_refl).
Defined.

(** ** Investments and financing in the cash-flow table *)

Lemma sum_by_add {A : Type} (f g : A -> Q) (xs : list A) :
  Js.sum_by (fun x => f x + g x) xs == Js.sum_by f xs + Js.sum_by g xs.
Proof.
  induction xs as [|x xs IH].
  - reflexivity.
  - rewrite !sum_by_cons, IH. ring.
Qed.

Lemma sum_by_once (k : Z) (a : Q) (lo : Z) (n : nat) :
  (lo <= k < lo + Z.of_nat n)%Z ->
  Js.sum_by (fun y => if (k =? y)%Z then a else 0) (Js.upfrom lo n) == a.
Proof.
  revert lo. induction n as [|n IH]; intros lo Hk; [lia|].
  cbn [Js.upfrom]. rewrite sum_by_cons.
  destruct (k =? lo)%Z eqn:Hhere.
  - apply Z.eqb_eq in Hhere.
    rewrite sum_by_zero; [ring|].
    intros y Hy. apply in_upfrom in Hy.
    assert ((k =? y)%Z = false) as -> by (apply Z.eqb_neq; lia). reflexivity.
  - apply Z.eqb_neq in Hhere. rewrite IH by lia. ring.
Qed.

Lemma sum_by_years {A : Type} (amount : A -> Q) (yearOf : A -> Z) (xs : list A)
    (lo : Z) (n : nat) :
  Forall (fun x => (lo <= yearOf x < lo + Z.of_nat n)%Z) xs ->
  Js.sum_by (fun y => Js.sum_by amount (filter (fun x => (yearOf x =? y)%Z) xs))
    (Js.upfrom lo n)
  == Js.sum_by amount xs.
Proof.
  induction 1 as [|x xs Hx _ IH].
  - cbn [filter]. apply sum_by_zero. intros y _. reflexivity.
  - rewrite (sum_by_equal
               (fun y => Js.sum_by amount (filter (fun x0 => (yearOf x0 =? y)%Z) (x :: xs)))
               (fun y =>
                  (if (yearOf x =? y)%Z then amount x else 0)
                  + Js.sum_by amount (filter (fun x0 => (yearOf x0 =? y)%Z) xs))).
    + rewrite sum_by_add, sum_by_once, IH, sum_by_cons by exact Hx. reflexivity.
    + intro y. cbn [filter].
      destruct (yearOf x =? y)%Z; [rewrite sum_by_cons|]; ring.
Qed.

Lemma cashFlowLoop_funds
    (project : ProjectData.t) (investments : list InvestmentData.t)
    (products : list ProductData.t) (costs : list CostData.t)
    (financing : list FinancingData.t) (years : list Z) (cumulativeCashFlow : Q) :
  let rows :=
    Statements.cashFlowLoop project investments products costs financing years
      cumulativeCashFlow in
  Js.sum_by CashFlowYear.investingOutflow rows
  == Js.sum_by
       (fun y =>
          Js.sum_by InvestmentData.amount
            (filter (fun inv => (InvestmentData.year inv =? y)%Z) investments))
       years
  /\ Js.sum_by CashFlowYear.financingInflow rows
     == Js.sum_by
          (fun y =>
             Js.sum_by FinancingData.amount
               (filter (fun f => (FinancingData.disbursementYear f =? y)%Z) financing))
          years.
Proof.
  cbv zeta. revert cumulativeCashFlow.
  induction years as [|y years IH]; intro c; cbn [Statements.cashFlowLoop].
  - split; reflexivity.
  - destruct (IH (CashFlowYear.cumulativeCashFlow
                    (Statements.cashFlowOfYear project investments products costs
                       financing c y))) as [Hinv Hfin].
    rewrite !sum_by_cons, Hinv, Hfin. split; reflexivity.
Qed.

(** X26. Nothing is lost between the inputs and the cash-flow table: when
    every investment falls in a year of the project, the investing
    outflows of the table add up to the total investment that the
    indicators use, and when every financing is disbursed in a year of the
    project, the financing inflows add up to the amounts financed. *)
Theorem cash_flow_table_carries_all_funds (m : ProjectModel.t) :
  let totalYears :=
    (ProjectData.constructionYears (ProjectModel.project m)
     + ProjectData.operationYears (ProjectModel.project m))%Z in
  (Forall (fun inv => (0 <= InvestmentData.year inv <= totalYears)%Z)
     (ProjectModel.investments m) ->
   Js.sum_by CashFlowYear.investingOutflow (Analysis.cashFlowsOf m)
   == AnalysisIndicators.totalInvestment m)
  /\ (Forall (fun f => (0 <= FinancingData.disbursementYear f <= totalYears)%Z)
        (ProjectModel.financing m) ->
      Js.sum_by CashFlowYear.financingInflow (Analysis.cashFlowsOf m)
      == Js.sum_by FinancingData.amount (ProjectModel.financing m)).
Proof.
  intro totalYears.
  unfold Analysis.cashFlowsOf, Statements.generateCashFlows, Js.range.
  fold totalYears.
  destruct (cashFlowLoop_funds (ProjectModel.project m) (ProjectModel.investments m)
              (ProjectModel.products m) (ProjectModel.operatingCosts m)
              (ProjectModel.financing m)
              (Js.upfrom 0 (Z.to_nat (totalYears - 0 + 1))) 0) as [Hinv Hfin].
  cbv zeta in Hinv, Hfin.
  split; intro Hyears.
  - rewrite Hinv. unfold AnalysisIndicators.totalInvestment.
    apply sum_by_years. eapply Forall_impl; [|exact Hyears]. cbv beta. intros inv H. lia.
  - rewrite Hfin.
    apply sum_by_years. eapply Forall_impl; [|exact Hyears]. cbv beta. intros f H. lia.
Qed.

Lemma cash_flow_table_carries_all_funds_witness :
  Js.sum_by CashFlowYear.investingOutflow (Analysis.cashFlowsOf Cases.workshop)
  == AnalysisIndicators.totalInvestment Cases.workshop.
Proof.
  apply (proj1 (cash_flow_table_carries_all_funds Cases.workshop)).
  repeat constructor; cbn; lia.
Defined.

(** ** The NPV and the discount rate *)

Lemma Qpower_base_le (a b : Q) (n : nat) :
  0 < a -> a <= b -> 0 < a ^ Z.of_nat n /\ a ^ Z.of_nat n <= b ^ Z.of_nat n.
Proof.
  intros Ha Hab. induction n as [|n [IHpos IHle]].
  - split; [reflexivity | apply Qle_refl].
  - rewrite Nat2Z.inj_succ. unfold Z.succ.
    assert (~ a == 0) as Ha0 by lra.
    assert (~ b == 0) as Hb0 by lra.
    rewrite (Qpower_plus a _ 1 Ha0), (Qpower_plus b _ 1 Hb0).
    change (a ^ 1) with a. change (b ^ 1) with b.
    split; nra.
Qed.

Lemma npv_fold_mono (a b : Q) (cashFlows : list Q) (t : Z) (acc acc' : Q) :
  0 < a -> a <= b -> (0 <= t)%Z -> Forall (fun cf => 0 <= cf) cashFlows ->
  acc' <= acc ->
  Js.reduce_from (fun npv cf t => npv + cf / Js.Math_pow b t) cashFlows t acc'
  <= Js.reduce_from (fun npv cf t => npv + cf / Js.Math_pow a t) cashFlows t acc.
Proof.
  intros Ha Hab Ht Hpos. revert t Ht acc acc'.
  induction Hpos as [|cf cashFlows Hcf _ IH]; intros t Ht acc acc' Hacc;
    cbn [Js.reduce_from].
  - exact Hacc.
  - apply IH; [lia|].
    destruct (Qpower_base_le a b (Z.to_nat t) Ha Hab) as [Hpow Hle].
    rewrite Z2Nat.id in Hpow, Hle by exact Ht.
    unfold Js.Math_pow.
    assert (0 < b ^ t) as Hb by lra.
    assert (cf / b ^ t <= cf / a ^ t) as Hterm.
    { apply Qle_shift_div_r; [exact Hb|].
      assert (0 <= cf / a ^ t) as Hx by (apply Qle_shift_div_l; [exact Hpow | lra]).
      assert (cf / a ^ t * a ^ t == cf) as Hback by (field; lra).
      nra. }
    lra.
Qed.

(** X27. For a series whose flows after the first are not negative, the
    NPV does not rise with the discount rate, for rates above -100. *)
Theorem npv_falls_as_rate_rises (cf : Q) (later : list Q) (rate rate' : Q) :
  Forall (fun cf => 0 <= cf) later ->
  -100 < rate -> rate <= rate' ->
  Indicators.calculateNPV (cf :: later) rate'
  <= Indicators.calculateNPV (cf :: later) rate.
Proof.
  intros Hpos Hrate Hle. unfold Indicators.calculateNPV, Js.reduce.
  cbn [Js.reduce_from]. unfold Js.Math_pow at 1 3.
  change ((1 + rate' / 100) ^ 0) with 1. change ((1 + rate / 100) ^ 0) with 1.
  apply npv_fold_mono.
  - assert (-1 < rate / 100) by (apply Qlt_shift_div_l; lra). lra.
  - assert (rate / 100 <= rate' / 100)
      by (apply Qle_shift_div_l; [reflexivity|]; field_simplify; lra).
    lra.
  - lia.
  - exact Hpos.
  - apply Qle_refl.
Qed.

Lemma npv_falls_as_rate_rises_witness :
  Indicators.calculateNPV [-1000; 300; 400; 500] 10
  <= Indicators.calculateNPV [-1000; 300; 400; 500] 5.
Proof.
  apply npv_falls_as_rate_rises.
  - repeat constructor; discriminate.
  - reflexivity.
  - discriminate.
Defined.

(** ** A root of the NPV and the IRR *)

Lemma irrSums_npv_fold (cashFlows : list Q) (rate discountRate : Q) (t : Z)
    (acc : Q * Q) (npv : Q) :
  rate == discountRate / 100 -> fst acc == npv ->
  fst (Js.reduce_from
         (fun (acc : Q * Q) cf t =>
            let denominator := Js.Math_pow (1 + rate) t in
            let npv := fst acc + cf / denominator in
            let npvDerivative :=
              if (0 <? t)%Z
              then snd acc - (inject_Z t * cf) / Js.Math_pow (1 + rate) (t + 1)
              else snd acc in
            (npv, npvDerivative))
         cashFlows t acc)
  == Js.reduce_from
       (fun npv cf t => npv + cf / Js.Math_pow (1 + discountRate / 100) t)
       cashFlows t npv.
Proof.
  intro Hrate. revert t acc npv.
  induction cashFlows as [|cf cashFlows IH]; intros t acc npv Hacc; cbn [Js.reduce_from].
  - exact Hacc.
  - apply IH. cbv zeta. cbn [fst]. unfold Js.Math_pow. rewrite Hacc, Hrate. reflexivity.
Qed.

Lemma irrLoop_step (cashFlows : list Q) (n : nat) (rate : Q) :
  Indicators.irrLoop cashFlows (S n) rate
  = (let '(npv, npvDerivative) := Indicators.irrSums cashFlows rate in
     if Js.lt (Js.Math_abs npvDerivative) Indicators.derivativeGuard then rate * 100
     else
       let newRate := rate - npv / npvDerivative in
       if Js.lt (Js.Math_abs (newRate - rate)) Indicators.tolerance then newRate * 100
       else Indicators.irrLoop cashFlows n newRate).
Proof. reflexivity. Qed.

(** X28. A rate at which the NPV is zero is a fixed point of the IRR
    iteration: started from that rate, [calculateIRR] returns it. *)
Theorem irr_keeps_a_root (cashFlows : list Q) (discountRate : Q) :
  Indicators.calculateNPV cashFlows discountRate == 0 ->
  Indicators.calculateIRR cashFlows (discountRate / 100) == discountRate.
Proof.
  intro Hroot. unfold Indicators.calculateIRR.
  change Indicators.maxIterations with (S 99). rewrite irrLoop_step.
  assert (fst (Indicators.irrSums cashFlows (discountRate / 100)) == 0) as Hnpv.
  { unfold Indicators.irrSums, Js.reduce.
    rewrite (irrSums_npv_fold cashFlows (discountRate / 100) discountRate 0 (0, 0) 0);
      [exact Hroot | reflexivity | reflexivity]. }
  destruct (Indicators.irrSums cashFlows (discountRate / 100)) as [npv npvDerivative].
  cbn [fst] in Hnpv.
  destruct (Js.lt (Js.Math_abs npvDerivative) Indicators.derivativeGuard); [field|].
  cbv zeta.
  assert (discountRate / 100 - npv / npvDerivative == discountRate / 100) as Hsame.
  { rewrite Hnpv. unfold Qdiv. ring. }
  assert (Js.lt (Js.Math_abs (discountRate / 100 - npv / npvDerivative - discountRate / 100))
            Indicators.tolerance = true) as ->.
  { apply lt_true_iff. unfold Js.Math_abs.
    assert (discountRate / 100 - npv / npvDerivative - discountRate / 100 == 0) as ->
      by (rewrite Hsame; ring).
    reflexivity. }
  rewrite Hsame. field.
Qed.

Lemma irr_keeps_a_root_witness :
  Indicators.calculateIRR [-100; 110] (10 / 100) == 10.
Proof.
  apply irr_keeps_a_root. vm_compute. reflexivity.
Defined.

(** ** The payback period and the cash-flow table *)

Lemma sum_by_map {A B : Type} (f : B -> Q) (g : A -> B) (xs : list A) :
  Js.sum_by f (map g xs) == Js.sum_by (fun x => f (g x)) xs.
Proof.
  induction xs as [|x xs IH]; cbn [map].
  - reflexivity.
  - rewrite !sum_by_cons, IH. reflexivity.
Qed.

Lemma cumulative_is_running_total (m : ProjectModel.t) (k : nat) (row : CashFlowYear.t) :
  nth_error (Analysis.cashFlowsOf m) k = Some row ->
  CashFlowYear.cumulativeCashFlow row
  == 0 + Js.sum_by (fun cf => cf) (firstn (S k) (Analysis.netCashFlowsOf m)).
Proof.
  intro Hnth. unfold Analysis.netCashFlowsOf.
  rewrite firstn_map, sum_by_map.
  unfold Analysis.cashFlowsOf, Statements.generateCashFlows in Hnth |- *.
  apply (cashFlowLoop_cumulative m _ _ k row Hnth).
Qed.

(** X29. The payback period of the indicators reads the cumulative column
    of the cash-flow table: it is -1 exactly when every cumulative cash
    flow is negative, and it lies between [j] and [j + 1] when row [j] is
    the first whose cumulative cash flow is not. *)
Theorem payback_reads_cumulative_column (pow_real : Q -> Q -> Q) (m : ProjectModel.t) :
  let rows := Analysis.cashFlowsOf m in
  let payback :=
    Indicators.paybackPeriod (AnalysisIndicators.indicatorsOf pow_real m) in
  (payback == -1 <-> Forall (fun row => CashFlowYear.cumulativeCashFlow row < 0) rows)
  /\ (forall j row,
        nth_error rows j = Some row ->
        0 <= CashFlowYear.cumulativeCashFlow row ->
        (forall i earlier,
           (i < j)%nat -> nth_error rows i = Some earlier ->
           CashFlowYear.cumulativeCashFlow earlier < 0) ->
        inject_Z (Z.of_nat j) <= payback /\ payback <= inject_Z (Z.of_nat j) + 1).
Proof.
  intros rows payback.
  assert (Hpayback : payback = Indicators.paybackFrom (Analysis.netCashFlowsOf m) 0 0)
    by reflexivity.
  assert (Hlen : List.length (Analysis.netCashFlowsOf m) = List.length rows)
    by (unfold Analysis.netCashFlowsOf; apply length_map).
  assert (Hrow : forall k, (k < List.length rows)%nat ->
            exists row, nth_error rows k = Some row).
  { intros k Hk. destruct (nth_error rows k) as [row|] eqn:Hnth.
    - exists row. reflexivity.
    - apply nth_error_None in Hnth. lia. }
  assert (Hindex : forall k, 0 <= inject_Z (0 + Z.of_nat k)).
  { intro k. change 0 with (inject_Z 0) at 1. rewrite <- Zle_Qle. lia. }
  destruct (paybackFrom_spec (Analysis.netCashFlowsOf m) 0 0 (Qle_refl 0))
    as [[Hnever Hall] | [j0 [Hj0 [Hbefore [Hat [Hlo Hhi]]]]]];
    cbv beta zeta in *; rewrite Hlen in *; rewrite <- Hpayback in *.
  - split.
    + split; [|intros _; rewrite Hnever; reflexivity].
      intros _. apply Forall_forall. intros row Hin.
      apply In_nth_error in Hin. destruct Hin as [k Hk].
      rewrite (cumulative_is_running_total m k row Hk).
      apply Hall. apply nth_error_Some. fold rows. rewrite Hk. discriminate.
    + intros j row Hnth Hpaid _. exfalso.
      rewrite (cumulative_is_running_total m j row Hnth) in Hpaid.
      assert (j < List.length rows)%nat as Hj
        by (apply nth_error_Some; rewrite Hnth; discriminate).
      specialize (Hall j Hj). lra.
  - destruct (Hrow j0 Hj0) as [row0 Hrow0].
    pose proof (cumulative_is_running_total m j0 row0 Hrow0) as Hcum0.
    split.
    + split.
      * intro Hminus. exfalso. specialize (Hindex j0). lra.
      * intro Hneg. exfalso. rewrite Forall_forall in Hneg.
        assert (CashFlowYear.cumulativeCashFlow row0 < 0) as H
          by (apply Hneg; apply (nth_error_In _ _ Hrow0)).
        lra.
    + intros j row Hnth Hpaid Hearlier.
      assert (j = j0) as ->.
      { destruct (Nat.lt_trichotomy j j0) as [Hlt | [Heq | Hgt]]; [|exact Heq|]; exfalso.
        - rewrite (cumulative_is_running_total m j row Hnth) in Hpaid.
          specialize (Hbefore j Hlt). lra.
        - specialize (Hearlier j0 row0 Hgt Hrow0). lra. }
      change (0 + Z.of_nat j0)%Z with (Z.of_nat j0) in Hlo, Hhi.
      split; assumption.
Qed.
